(** * SolutionExplorerFileSystemRepository: a shallow embedding

    The repository stores BPMN diagrams as files of a directory.  Three
    revisions of the class are under verification:

    - [RevA]: src/src/SolutionExplorerFileSystemRepository.ts, lines 1-182
      (has [_findUnusedFilename] and a case-insensitive rename guard);
    - [RevB]: the same file, lines 183-399 (has the save guard, an inlined
      trash-name loop and a strict rename guard);
    - [RevC]: src/unnamed/part_000 (no trash folder, no delete, no rename).

    What the three revisions share word for word is defined once, in
    [Shared]; each revision's module holds the methods that differ.

    The Node runtime is not part of the repository.  Its [path] module is
    modelled in [Path] (POSIX flavour) and its [fs] module in [Fs], over an
    in-memory tree of files and directories. *)

From Stdlib Require Import String Ascii ZArith.
From stdpp Require Import gmap strings list fin_maps pretty.

Local Open Scope string_scope.
Local Open Scope list_scope.
Local Open Scope nat_scope.
Local Open Scope stdpp_scope.

(** ** JavaScript strings *)

Module JS.

(** [s.endsWith(suffix)] *)
Fixpoint endsWith (s suffix : string) : bool :=
  String.eqb s suffix ||
  match s with
  | EmptyString => false
  | String _ rest => endsWith rest suffix
  end.

(** [s.substr(0, n)] *)
Definition substr0 (s : string) (n : nat) : string := substring 0 n s.

(** [s.slice(from, to)] for [0 <= from]; an end before the start gives
    the empty string. *)
Definition slice (s : string) (from to : nat) : string :=
  substring from (to - from) s.

Definition lower_ascii (c : ascii) : ascii :=
  let n := nat_of_ascii c in
  if (65 <=? n)%nat && (n <=? 90)%nat then ascii_of_nat (n + 32) else c.

(** [s.toLowerCase()].  A string is held as its bytes; the letters A to Z
    are folded and every other byte is kept, which is what the method
    does on a string of ASCII characters.  A statement that depends on the
    folding is made for such strings ([is_ascii]). *)
Fixpoint toLowerCase (s : string) : string :=
  match s with
  | EmptyString => EmptyString
  | String c rest => String (lower_ascii c) (toLowerCase rest)
  end.


(** Number to string, as a template literal [`${n}`] prints a
    non-negative integer. *)
Definition show (n : nat) : string := pretty n.

Definition slash : ascii := "/"%char.

Fixpoint has_slash (s : string) : bool :=
  match s with
  | EmptyString => false
  | String c rest => Ascii.eqb c slash || has_slash rest
  end.

(** [s.split('/')] *)
Fixpoint split_slash (s : string) : list string :=
  match s with
  | EmptyString => [EmptyString]
  | String c rest =>
      if Ascii.eqb c slash then EmptyString :: split_slash rest
      else match split_slash rest with
           | [] => [String c EmptyString]
           | seg :: segs => String c seg :: segs
           end
  end.

Fixpoint join_slash (segs : list string) : string :=
  match segs with
  | [] => EmptyString
  | [seg] => seg
  | seg :: rest => seg +:+ "/" +:+ join_slash rest
  end.

Definition last_char (s : string) : option ascii :=
  last (list_ascii_of_string s).

End JS.

(** ** Node's [path] module, POSIX flavour *)

Module Path.
Import JS.

(** One step of [normalizeString]: [res] holds the segments kept so far. *)
Definition normalize_step (allowAboveRoot : bool)
    (res : list string) (seg : string) : list string :=
  if decide (seg = "" ∨ seg = ".") then res
  else if decide (seg = "..") then
    match last res with
    | Some l =>
        if decide (l = "..")
        then (if allowAboveRoot then res ++ [".."] else res)
        else removelast res
    | None => if allowAboveRoot then [".."] else []
    end
  else res ++ [seg].

Definition normalizeString (path : string) (allowAboveRoot : bool) : string :=
  join_slash (foldl (normalize_step allowAboveRoot) [] (split_slash path)).

Definition isAbsolute (path : string) : bool :=
  match path with
  | String c _ => Ascii.eqb c slash
  | EmptyString => false
  end.

Definition trailingSeparator (path : string) : bool :=
  match last_char path with
  | Some c => Ascii.eqb c slash
  | None => false
  end.

Definition normalize (path : string) : string :=
  if decide (path = "") then "."
  else
    let abs := isAbsolute path in
    let trailing := trailingSeparator path in
    let p := normalizeString path (negb abs) in
    if decide (p = "") then
      (if abs then "/" else if trailing then "./" else ".")
    else
      let p := if trailing then p +:+ "/" else p in
      if abs then "/" +:+ p else p.

(** [path.join(a, b)]: empty arguments are skipped. *)
Definition join (a b : string) : string :=
  if decide (a = "") then
    (if decide (b = "") then "." else normalize b)
  else if decide (b = "") then normalize a
  else normalize (a +:+ "/" +:+ b).

(** The backwards scan of [path.dirname] over [path[1..]]: [rev_tail] is
    what is left to scan, its head being [path[i]]. *)
Fixpoint dirname_end (rev_tail : list ascii) (i : nat) (matchedSlash : bool)
    : option nat :=
  match rev_tail with
  | [] => None
  | c :: rest =>
      if Ascii.eqb c slash then
        (if matchedSlash then dirname_end rest (i - 1) true else Some i)
      else dirname_end rest (i - 1) false
  end.

Definition dirname (path : string) : string :=
  match path with
  | EmptyString => "."
  | String c0 tail =>
      let hasRoot := Ascii.eqb c0 slash in
      match dirname_end (rev (list_ascii_of_string tail))
              (String.length tail) true with
      | None => if hasRoot then "/" else "."
      | Some e => if hasRoot && (e =? 1)%nat then "//" else slice path 0 e
      end
  end.

(** State of the backwards scan of [path.basename(path, suffix)];
    [None] stands for the index -1. *)
Record scan := Scan {
  s_start : nat;
  s_end : option nat;
  s_matchedSlash : bool;
  s_extIdx : option nat;
  s_firstNonSlashEnd : option nat
}.

Fixpoint basename_scan (suffix : string) (rev_path : list ascii) (i : nat)
    (st : scan) : scan :=
  match rev_path with
  | [] => st
  | c :: rest =>
      if Ascii.eqb c slash then
        if s_matchedSlash st then basename_scan suffix rest (i - 1) st
        else Scan (i + 1) (s_end st) (s_matchedSlash st) (s_extIdx st)
               (s_firstNonSlashEnd st)
      else
        let st1 :=
          match s_firstNonSlashEnd st with
          | None => Scan (s_start st) (s_end st) false (s_extIdx st) (Some (i + 1))
          | Some _ => st
          end in
        let st2 :=
          match s_extIdx st1 with
          | None => st1
          | Some k =>
              if decide (String.get k suffix = Some c) then
                match k with
                | O => Scan (s_start st1) (Some i) (s_matchedSlash st1) None
                         (s_firstNonSlashEnd st1)
                | S k' => Scan (s_start st1) (s_end st1) (s_matchedSlash st1)
                            (Some k') (s_firstNonSlashEnd st1)
                end
              else Scan (s_start st1) (s_firstNonSlashEnd st1)
                     (s_matchedSlash st1) None (s_firstNonSlashEnd st1)
          end in
        basename_scan suffix rest (i - 1) st2
  end.

(** The scan of [path.basename(path)] without a usable suffix. *)
Fixpoint basename_plain (rev_path : list ascii) (i : nat)
    (start : nat) (end_ : option nat) (matchedSlash : bool) : nat * option nat :=
  match rev_path with
  | [] => (start, end_)
  | c :: rest =>
      if Ascii.eqb c slash then
        if matchedSlash then basename_plain rest (i - 1) start end_ matchedSlash
        else (i + 1, end_)
      else
        match end_ with
        | None => basename_plain rest (i - 1) start (Some (i + 1)) false
        | Some _ => basename_plain rest (i - 1) start end_ matchedSlash
        end
  end.

Definition basename (path suffix : string) : string :=
  let len := String.length path in
  let rev_path := rev (list_ascii_of_string path) in
  if bool_decide (0 < String.length suffix ∧ String.length suffix ≤ len)%nat then
    if decide (suffix = path) then ""
    else
      let st := basename_scan suffix rev_path (len - 1)
                  (Scan 0 None true (Some (String.length suffix - 1)) None) in
      let end_ :=
        if decide (Some (s_start st) = s_end st) then s_firstNonSlashEnd st
        else match s_end st with
             | None => Some len
             | Some e => Some e
             end in
      match end_ with
      | Some e => slice path (s_start st) e
      | None => slice path (s_start st) len
      end
  else
    match basename_plain rev_path (len - 1) 0 None true with
    | (_, None) => ""
    | (start, Some e) => slice path start e
    end.

End Path.

(** ** Node's [fs] module over an in-memory file tree

    A tree is a finite map from canonical locations (the list of segment
    names below the root directory) to nodes.  A path string is resolved
    as the kernel resolves it, segment by segment from the root, which is
    also the working directory of the process: every segment, "." and ".."
    included, is looked up in the place reached so far, and that place has
    to be a directory.  Symbolic links and permissions are not modelled. *)

Module Fs.
Import JS.

Inductive errno := ENOENT | ENOTDIR | EISDIR | ENOTEMPTY | EINVAL | EBUSY.

Inductive node :=
| File (content : string)
| Directory.

#[global] Instance errno_eq_dec : EqDecision errno.
Proof. solve_decision. Defined.
#[global] Instance node_eq_dec : EqDecision node.
Proof. solve_decision. Defined.

Abbreviation tree := (gmap (list string) node).

Definition resolve_step (res : list string) (seg : string) : list string :=
  if decide (seg = "" ∨ seg = ".") then res
  else if decide (seg = "..") then removelast res
  else res ++ [seg].

(** Where a path leads if every step of it can be taken. *)
Definition components (p : string) : list string :=
  foldl resolve_step [] (split_slash p).

(** The walk along the segments of a path, from the place [cur]: an empty
    segment (a doubled or trailing '/') is skipped; any other segment is
    taken from a directory, ENOTDIR from a regular file and ENOENT from
    nothing.  Whether the place reached at the end exists is not the
    walk's affair. *)
Fixpoint walk (t : tree) (cur : list string) (segs : list string)
    : errno + list string :=
  match segs with
  | [] => inr cur
  | seg :: rest =>
      if decide (seg = "") then walk t cur rest
      else match t !! cur with
           | Some Directory => walk t (resolve_step cur seg) rest
           | Some (File _) => inl ENOTDIR
           | None => inl ENOENT
           end
  end.

(** The location a path string leads to. *)
Definition resolve (t : tree) (p : string) : errno + list string :=
  if decide (p = "") then inl ENOENT else walk t [] (split_slash p).

(** Every location above [k] holds a directory. *)
Definition dirs_above (t : tree) (k : list string) : Prop :=
  ∀ i, i < length k → t !! take i k = Some Directory.

(** The two trees have their directories at the same locations. *)
Definition same_dirs (t t' : tree) : Prop :=
  ∀ q, t !! q = Some Directory ↔ t' !! q = Some Directory.

(** A path whose last segment is empty (a trailing '/'), "." or ".." can
    only name a directory. *)
Definition wants_directory (p : string) : bool :=
  match last (split_slash p) with
  | Some seg => bool_decide (seg = "" ∨ seg = "." ∨ seg = "..")
  | None => false
  end.

(** The last segment is "." or "..". *)
Definition ends_in_dots (p : string) : bool :=
  match last (split_slash p) with
  | Some seg => bool_decide (seg = "." ∨ seg = "..")
  | None => false
  end.

Definition stat (t : tree) (p : string) : errno + node :=
  match resolve t p with
  | inl e => inl e
  | inr k =>
      match t !! k with
      | None => inl ENOENT
      | Some Directory => inr Directory
      | Some (File c) => if wants_directory p then inl ENOTDIR else inr (File c)
      end
  end.

(** A segment that names an entry: neither empty nor "." nor "..". *)
Definition entry_name (seg : string) : Prop :=
  seg ≠ "" ∧ seg ≠ "." ∧ seg ≠ "..".

(** How what [path.normalize] keeps of a path ([accN]) relates to the
    location that the path denotes ([accR]): some ".." come first. *)
Definition kept (accN accR : list string) : Prop :=
  ∃ k, accN = replicate k ".." ++ accR ∧ Forall entry_name accR.

(** [fs.existsSync(p)] *)
Definition existsSync (t : tree) (p : string) : bool :=
  match stat t p with
  | inr _ => true
  | inl _ => false
  end.

(** [fs.statSync(p)]; [isDirectory] is [stats.isDirectory()]. *)
Definition statSync (t : tree) (p : string) : errno + node := stat t p.

Definition isDirectory (n : node) : bool :=
  match n with
  | Directory => true
  | File _ => false
  end.

(** The path exists and is a directory: what [_checkForDirectory] asks. *)
Definition is_dir (t : tree) (p : string) : bool :=
  match statSync t p with
  | inr n => isDirectory n
  | inl _ => false
  end.

Definition child_name (dir k : list string) : option string :=
  match last k with
  | Some name => if decide (k = dir ++ [name]) then Some name else None
  | None => None
  end.

Definition children (t : tree) (dir : list string) : list string :=
  omap (λ kv, child_name dir kv.1) (map_to_list t).

(** [fs.readdir(p)]; the order of the entries is that of the tree's
    enumeration (the real order is unspecified). *)
Definition readdir (t : tree) (p : string) : errno + list string :=
  match resolve t p with
  | inl e => inl e
  | inr k =>
      match t !! k with
      | None => inl ENOENT
      | Some (File _) => inl ENOTDIR
      | Some Directory => inr (children t k)
      end
  end.

(** [fs.readFile(p, 'utf8')] *)
Definition readFile (t : tree) (p : string) : errno + string :=
  match stat t p with
  | inl e => inl e
  | inr Directory => inl EISDIR
  | inr (File c) => inr c
  end.

(** [fs.writeFile(p, data)]: creates or truncates the regular file, as
    open(2) with O_CREAT and O_TRUNC does.  The walk has found the
    directory that holds the last segment; a path that can only name a
    directory is refused with EISDIR, whatever is there. *)
Definition writeFile (t : tree) (p data : string) : errno + tree :=
  match resolve t p with
  | inl e => inl e
  | inr k =>
      if wants_directory p then inl EISDIR
      else match t !! k with
           | Some Directory => inl EISDIR
           | Some (File _) | None => inr (<[k := File data]> t)
           end
  end.

Fixpoint is_prefix (a b : list string) : bool :=
  match a, b with
  | [], _ => true
  | x :: a', y :: b' => bool_decide (x = y) && is_prefix a' b'
  | _ :: _, [] => false
  end.

Definition rebase (from to k : list string) : list string :=
  if is_prefix from k then to ++ drop (length from) k else k.

(** Moves the subtree rooted at [from] to [to]. *)
Definition move_tree (t : tree) (from to : list string) : tree :=
  list_to_map (map (λ kv, (rebase from to kv.1, kv.2))
                   (map_to_list (delete to t))).

(** [fs.rename(oldPath, newPath)], after rename(2): both paths are walked
    to the directory of their last segment, the old one first; a last
    segment "." or "..", or the root itself, is refused with EBUSY; then
    the old entry is looked up, and a regular file named with a trailing
    '/' on either side is refused with ENOTDIR. *)
Definition rename (t : tree) (oldPath newPath : string) : errno + tree :=
  match resolve t oldPath with
  | inl e => inl e
  | inr ko =>
      match resolve t newPath with
      | inl e => inl e
      | inr kn =>
          if ends_in_dots oldPath || ends_in_dots newPath
             || bool_decide (ko = []) || bool_decide (kn = [])
          then inl EBUSY
          else
            match t !! ko with
            | None => inl ENOENT
            | Some (File c) =>
                if wants_directory oldPath || wants_directory newPath
                then inl ENOTDIR
                else if decide (ko = kn) then inr t
                else match t !! kn with
                     | Some Directory => inl EISDIR
                     | Some (File _) | None =>
                         inr (<[kn := File c]> (delete ko t))
                     end
            | Some Directory =>
                if decide (ko = kn) then inr t
                else if is_prefix ko kn then inl EINVAL
                else match t !! kn with
                     | Some (File _) => inl ENOTDIR
                     | Some Directory =>
                         match children t kn with
                         | [] => inr (move_tree t ko kn)
                         | _ :: _ => inl ENOTEMPTY
                         end
                     | None => inr (move_tree t ko kn)
                     end
            end
      end
  end.

(** Well-formed trees: the root is a directory, every entry lies in a
    directory, and every segment is a proper file name. *)
Definition proper_name (seg : string) : bool :=
  negb (has_slash seg) && bool_decide (seg ≠ "" ∧ seg ≠ "." ∧ seg ≠ "..").

Definition wf_entry (t : tree) (k : list string) : bool :=
  forallb proper_name k && bool_decide (t !! removelast k = Some Directory).

Definition wf (t : tree) : bool :=
  bool_decide (t !! [] = Some Directory) &&
  forallb (λ kv, wf_entry t kv.1) (map_to_list t).

(** Building a tree from a listing: [mkdir] and [mkfile] take canonical
    locations. *)
Definition empty_tree : tree := {[ [] := Directory ]}.
Definition mkdir (k : list string) (t : tree) : tree := <[k := Directory]> t.
Definition mkfile (k : list string) (content : string) (t : tree) : tree :=
  <[k := File content]> t.

End Fs.

(** ** What the three revisions share *)

Module Shared.
Import JS.

Definition BPMN_FILE_SUFFIX : string := ".bpmn".

(** Modelled from the spec: the identity is an opaque credential that the
    repository stores and hands back, never inspects (its declaration,
    IIdentity of the IAM contracts, is not part of the sources). *)
Inductive IIdentity := Identity (token : string).

(** IDiagram of the contracts package; [id] is absent on some diagrams. *)
Record IDiagram := Diagram {
  name : string;
  uri : string;
  xml : string;
  id : option string
}.

Record ISolution := Solution { diagrams : list IDiagram }.

#[global] Instance IIdentity_eq_dec : EqDecision IIdentity.
Proof. solve_decision. Defined.
#[global] Instance IDiagram_eq_dec : EqDecision IDiagram.
Proof. solve_decision. Defined.

(** What an operation can throw.  [SystemError] is an error of the [fs]
    module passed on as it is; [TypeError] is what [path.join] and the
    [fs] functions throw for an undefined path; [LoopBound] is no
    JavaScript error: it marks that the bound the model puts on a [while]
    loop was hit. *)
Inductive error :=
| NotFoundError (message : string)
| BadRequestError (message : string)
| InternalServerError (message : string) (additionalInformation : error)
| SystemError (code : Fs.errno)
| TypeError
| LoopBound.

#[global] Instance error_eq_dec : EqDecision error.
Proof. solve_decision. Defined.

Definition is_NotFound (e : error) : bool :=
  match e with NotFoundError _ => true | _ => false end.
Definition is_BadRequest (e : error) : bool :=
  match e with BadRequestError _ => true | _ => false end.
Definition is_InternalServerError (e : error) : bool :=
  match e with InternalServerError _ _ => true | _ => false end.

(** How a promise settles. *)
Inductive result (A : Type) :=
| Resolved (a : A)
| Rejected (e : error).
Arguments Resolved {A} a.
Arguments Rejected {A} e.

#[global] Instance result_eq_dec {A} `{EqDecision A} : EqDecision (result A).
Proof. solve_decision. Defined.

Definition is_Resolved {A} (r : result A) : bool :=
  match r with Resolved _ => true | Rejected _ => false end.

(** The fields of the class.  [_basePath] and [_identity] are undefined
    until [openPath] has run.  The trash folder is called [_trashFolder]
    in RevB and is absent from RevC. *)
Record repository := Repository {
  _trashFolderLocation : string;
  _basePath : option string;
  _identity : option IIdentity
}.

#[global] Instance repository_eq_dec : EqDecision repository.
Proof. solve_decision. Defined.

(** [new SolutionExplorerFileSystemRepository(trashFolderLocation)] *)
Definition constructor (trashFolderLocation : string) : repository :=
  Repository trashFolderLocation None None.

Record world := World {
  this : repository;
  disk : Fs.tree
}.

#[global] Instance world_eq_dec : EqDecision world.
Proof. solve_decision. Defined.

(** An awaited call: it runs on the world and settles. *)
Definition M (A : Type) : Type := world → result A * world.

Definition ret {A} (a : A) : M A := λ w, (Resolved a, w).
Definition throw {A} (e : error) : M A := λ w, (Rejected e, w).
Definition bind {A B} (m : M A) (k : A → M B) : M B :=
  λ w, match m w with
       | (Resolved a, w') => k a w'
       | (Rejected e, w') => (Rejected e, w')
       end.
(** [try { await m } catch (e) { handler }] *)
Definition catch {A} (m : M A) (handler : error → M A) : M A :=
  λ w, match m w with
       | (Resolved a, w') => (Resolved a, w')
       | (Rejected e, w') => handler e w'
       end.

Declare Scope js_scope.
Delimit Scope js_scope with js.
Notation "'let*' x := m 'in' k" := (bind m (λ x, k))
  (at level 10, x pattern, m at level 100, k at level 200) : js_scope.
Notation "m ;; k" := (bind m (λ _, k))
  (at level 100, k at level 200, right associativity) : js_scope.
Local Open Scope js_scope.

Definition get_field {A} (f : repository → A) : M A := λ w, (Resolved (f (this w)), w).
Definition set_this (r : repository) : M unit := λ w, (Resolved tt, World r (disk w)).

(** Lifting of the [fs] functions: an errno is thrown as a SystemError. *)
Definition lift_read {A} (f : Fs.tree → Fs.errno + A) : M A :=
  λ w, match f (disk w) with
       | inr a => (Resolved a, w)
       | inl e => (Rejected (SystemError e), w)
       end.
Definition lift_write (f : Fs.tree → Fs.errno + Fs.tree) : M unit :=
  λ w, match f (disk w) with
       | inr t => (Resolved tt, World (this w) t)
       | inl e => (Rejected (SystemError e), w)
       end.

Definition existsSync (p : string) : M bool :=
  λ w, (Resolved (Fs.existsSync (disk w) p), w).
Definition statSync (p : string) : M Fs.node := lift_read (λ t, Fs.statSync t p).
Definition _readFile (p : string) : M string := lift_read (λ t, Fs.readFile t p).
Definition _writeFile (p data : string) : M unit := lift_write (λ t, Fs.writeFile t p data).
Definition _rename (oldPath newPath : string) : M unit :=
  lift_write (λ t, Fs.rename t oldPath newPath).
Definition _readDirectory (p : option string) : M (list string) :=
  match p with
  | Some p => lift_read (λ t, Fs.readdir t p)
  | None => throw TypeError
  end.

(** [path.join(base, file)] where [base] may be undefined. *)
Definition path_join (base : option string) (file : string) : M string :=
  match base with
  | Some b => ret (Path.join b file)
  | None => throw TypeError
  end.

(** *** Calls that are not awaited at once

    A call of an async function runs its synchronous part when it is
    made.  In that part it may throw: its promise is rejected from the
    start ([Rejected e]).  Or it comes to an [await].  An awaited promise
    that is rejected already (that of an async function whose body does no
    I/O of its own, as [_checkWriteablity]) makes the call reject before
    any I/O has come back ([Resolved (Rejected e)]).  Otherwise the call
    goes on to its I/O and waits for it ([Resolved (Resolved io)], [io]
    being the I/O and what follows it). *)
Definition Async (A : Type) : Type := M (result (M A)).

(** [await callee(...)] for a callee that does no I/O of its own, then the
    I/O [rest]. *)
Definition await_then {A B} (callee : M A) (rest : A → M B) : Async B :=
  λ w, match callee w with
       | (Resolved a, w') => (Resolved (Resolved (rest a)), w')
       | (Rejected e, w') => (Resolved (Rejected e), w')
       end.

(** The call goes to its I/O at once. *)
Definition await_io {A} (io : M A) : Async A := ret (Resolved io).

(** The call awaited at once: the caller goes on when it has settled. *)
Definition await {A} (call : Async A) : M A :=
  λ w, match call w with
       | (Rejected e, w') => (Rejected e, w')
       | (Resolved (Rejected e), w') => (Rejected e, w')
       | (Resolved (Resolved io), w') => io w'
       end.

(** What the code does not control in a batch of calls: [order] is the
    order in which the calls that wait for I/O come back (turn by turn,
    which one of those still waiting; the first one if there is no such
    one), and [landed] is how many of them have come back by the time a
    rejection reaches the caller. *)
Record schedule := Schedule { order : list nat; landed : nat }.

(** How a call stands that others may still run beside: its outcome, the
    world when it settles, and the world once everything it has started
    has come to rest. *)
Record settled (A : Type) := Settled {
  outcome : result A;
  at_settle : world;
  at_rest : world
}.
Arguments Settled {A} outcome at_settle at_rest.
Arguments outcome {A} s.
Arguments at_settle {A} s.
Arguments at_rest {A} s.

#[global] Instance settled_eq_dec {A} `{EqDecision A} : EqDecision (settled A).
Proof. solve_decision. Defined.

(** [calls.map(...)] starts every call, in order, also after a rejection. *)
Fixpoint start_all {A} (calls : list (Async A)) (w : world)
    : list (result (result (M A))) * world :=
  match calls with
  | [] => ([], w)
  | c :: calls' =>
      let '(p, w1) := c w in
      let '(ps, w2) := start_all calls' w1 in
      (p :: ps, w2)
  end.

(** A promise of the batch: waiting for its I/O, or settled. *)
Inductive slot (A : Type) :=
| Waiting (io : M A)
| Done (r : result A).
Arguments Waiting {A} io.
Arguments Done {A} r.

Definition to_slot {A} (p : result (result (M A))) : slot A :=
  match p with
  | Rejected e => Done (Rejected e)
  | Resolved (Rejected e) => Done (Rejected e)
  | Resolved (Resolved io) => Waiting io
  end.

Definition thrown {A} (p : result (result (M A))) : option error :=
  match p with
  | Rejected e => Some e
  | Resolved _ => None
  end.

Definition failed {A} (p : result (result (M A))) : option error :=
  match p with
  | Resolved (Rejected e) => Some e
  | _ => None
  end.

(** The rejections that need no I/O, in the order in which they reach
    [Promise.all]: first those of the calls that threw, then those of the
    calls that awaited a rejected promise, each in the order of the
    calls. *)
Definition early_rejections {A} (ps : list (result (result (M A))))
    : list error :=
  omap thrown ps ++ omap failed ps.

Fixpoint count_waiting {A} (slots : list (slot A)) : nat :=
  match slots with
  | [] => 0
  | Waiting _ :: rest => S (count_waiting rest)
  | Done _ :: rest => count_waiting rest
  end.

(** The I/O of the [n]th waiting call comes back: its outcome, the slots
    and the world after it. *)
Fixpoint run_nth {A} (n : nat) (slots : list (slot A)) (w : world)
    : option (result A * list (slot A) * world) :=
  match slots with
  | [] => None
  | Done r :: rest =>
      match run_nth n rest w with
      | Some (r', rest', w') => Some (r', Done r :: rest', w')
      | None => None
      end
  | Waiting io :: rest =>
      match n with
      | O => let '(r, w') := io w in Some (r, Done r :: rest, w')
      | S n' =>
          match run_nth n' rest w with
          | Some (r', rest', w') => Some (r', Waiting io :: rest', w')
          | None => None
          end
      end
  end.

(** One turn: the [n]th waiting call comes back, or the first one if
    there are not that many. *)
Definition turn {A} (n : nat) (slots : list (slot A)) (w : world)
    : option (result A * list (slot A) * world) :=
  match run_nth n slots w with
  | Some x => Some x
  | None => run_nth 0 slots w
  end.

(** [turns] calls come back, in the order of the schedule: the outcomes
    in the order in which they came, the slots and the world after
    them. *)
Fixpoint run_io {A} (turns : nat) (order : list nat) (slots : list (slot A))
    (w : world) : list (result A) * list (slot A) * world :=
  match turns with
  | O => ([], slots, w)
  | S turns' =>
      match turn (hd 0 order) slots w with
      | None => ([], slots, w)
      | Some (r, slots', w') =>
          let '(rs, slots'', w'') := run_io turns' (tl order) slots' w' in
          (r :: rs, slots'', w'')
      end
  end.

(** The first rejection among outcomes in the order in which they came,
    and how many outcomes had come with it. *)
Fixpoint first_rejection {A} (rs : list (result A)) : option (nat * error) :=
  match rs with
  | [] => None
  | Rejected e :: _ => Some (1, e)
  | Resolved _ :: rs' =>
      match first_rejection rs' with
      | Some (n, e) => Some (S n, e)
      | None => None
      end
  end.

(** The values of the promises that resolved, in the order of the
    list. *)
Definition values {A} (slots : list (slot A)) : list A :=
  omap (λ s, match s with
             | Done (Resolved a) => Some a
             | _ => None
             end) slots.

(** [await Promise.all(calls)].  Every call is started.  [Promise.all]
    rejects with the rejection that reaches it first: one that needs no
    I/O if there is one, else that of the first I/O to come back failing.
    It resolves, to the values in the order of the calls, when every call
    has resolved.  When it rejects, the calls that wait for I/O go on:
    some have come back by then, the others come back later. *)
Definition Promise_all {A} (sch : schedule) (calls : list (Async A))
    (w : world) : settled (list A) :=
  let '(ps, w1) := start_all calls w in
  let slots := map to_slot ps in
  let n := count_waiting slots in
  let '(rs, slots', w2) := run_io n (order sch) slots w1 in
  let after turns := snd (run_io turns (order sch) slots w1) in
  match early_rejections ps with
  | e :: _ => Settled (Rejected e) (after (min (landed sch) n)) w2
  | [] =>
      match first_rejection rs with
      | Some (k, e) => Settled (Rejected e) (after (max k (min (landed sch) n))) w2
      | None => Settled (Resolved (values slots')) w2 w2
      end
  end.

(** [return call] and [await call] as the last statement of a method: the
    caller goes on with the outcome, in the world as it is then. *)
Definition returned {A} (call : world → settled A) : M A :=
  λ w, (outcome (call w), at_settle (call w)).

(** A call made and left alone, its promise neither awaited nor
    returned: how it settles reaches nobody.  What it does to the disk
    has happened when things have come to rest, and has happened already
    when the caller settles if [landed] says so. *)
Definition detach {A B} (sch : schedule) (call : M A) (b : B)
    : world → settled B :=
  λ w, Settled (Resolved b)
         (match landed sch with O => w | S _ => snd (call w) end)
         (snd (call w)).

Definition _checkForDirectory (directoryPath : string) : M unit :=
  let* found := existsSync directoryPath in
  let pathDoesNotExist := negb found in
  if pathDoesNotExist
  then throw (NotFoundError ("'" +:+ directoryPath +:+ "' does not exist."))
  else
    let* stat := statSync directoryPath in
    let pathIsNotADirectory := negb (Fs.isDirectory stat) in
    if pathIsNotADirectory
    then throw (BadRequestError ("'" +:+ directoryPath +:+ "' is not a directory."))
    else ret tt.

Definition _checkWriteablity (filePath : string) : M unit :=
  let directoryPath := Path.dirname filePath in
  _checkForDirectory directoryPath.

(** [identity] is optional because [saveSolution] passes [this._identity],
    which may still be undefined. *)
Definition openPath (pathspec : string) (identity : option IIdentity) : M unit :=
  _checkForDirectory pathspec;;
  let* r := get_field (λ r, r) in
  set_this (Repository (_trashFolderLocation r) (Some pathspec) identity).

Definition getDiagramByName (diagramName : string) : M IDiagram :=
  let* base := get_field _basePath in
  let* fullPathToFile := path_join base (diagramName +:+ ".bpmn") in
  let* xml := _readFile fullPathToFile in
  ret (Diagram diagramName fullPathToFile xml (Some fullPathToFile)).

(** [getDiagrams]; [nameOf] is how the revision strips the suffix off a
    file name. *)
Definition getDiagrams_with (sch : schedule) (nameOf : string → string)
    : M (list IDiagram) :=
  let* base := get_field _basePath in
  let* filesInDirectory := _readDirectory base in
  let bpmnFiles :=
    List.filter (λ file, endsWith file BPMN_FILE_SUFFIX) filesInDirectory in
  let diagrams : list (Async IDiagram) :=
    map (λ file,
           let* fullPathToFile := path_join base file in
           let fileNameWithoutBpmnSuffix := nameOf file in
           await_io
             (let* xml := _readFile fullPathToFile in
              ret (Diagram fileNameWithoutBpmnSuffix fullPathToFile xml None)))
        bpmnFiles in
  returned (Promise_all sch diagrams).

(** [saveSolution], over the revision's [saveDiagram]. *)
Definition saveSolution_with
    (saveDiagram : IDiagram → option string → Async unit)
    (sch : schedule) (solution : ISolution) (pathToSolution : option string)
    : world → settled unit :=
  λ w,
    let opened :=
      match pathToSolution with
      | Some p => (let* identity := get_field _identity in openPath p identity) w
      | None => (Resolved tt, w)
      end in
    match opened with
    | (Rejected e, w1) => Settled (Rejected e) w1 w1
    | (Resolved _, w1) =>
        let promises :=
          map (λ diagram, saveDiagram diagram None) (diagrams solution) in
        let all := Promise_all sch promises w1 in
        Settled (match outcome all with
                 | Resolved _ => Resolved tt
                 | Rejected e => Rejected e
                 end)
                (at_settle all) (at_rest all)
    end.

(** The write of [saveDiagram], with its [try]/[catch]. *)
Definition write_diagram (pathToWriteDiagram : string) (diagramToSave : IDiagram)
    : M unit :=
  catch (_writeFile pathToWriteDiagram (xml diagramToSave))
        (λ e, throw (InternalServerError "Unable to save diagram." e)).

(** What [saveDiagram] does once the path is chosen: the directory check,
    then the write. *)
Definition save_at (pathToWriteDiagram : string) (diagramToSave : IDiagram)
    : M unit :=
  _checkWriteablity pathToWriteDiagram;;
  write_diagram pathToWriteDiagram diagramToSave.

(** The names that the search for a free trash name goes through: the
    desired name, then the desired name with .1, .2, ... appended. *)
Definition candidate (desiredName : string) (i : nat) : string :=
  match i with
  | O => desiredName
  | S _ => desiredName +:+ "." +:+ JS.show i
  end.

(** How the read of one listed file settles in [getDiagrams]. *)
Definition read_one (nameOf : string → string) (root : string) (t : Fs.tree)
    (file : string) : result IDiagram :=
  match Fs.readFile t (Path.join root file) with
  | inr xml => Resolved (Diagram (nameOf file) (Path.join root file) xml None)
  | inl e => Rejected (SystemError e)
  end.

(** What C5 asks of a [getDiagrams] on a root whose listing is [files]: it
    changes nothing; what it resolves to matches the listed file names that
    end with the suffix, one diagram for each, in name, uri and content; it
    resolves when every such file can be read and rejects when one
    cannot. *)
Definition lists_bpmn_files (getDiagrams : M (list IDiagram)) (w : world)
    (root : string) (files : list string) : Prop :=
  let bpmnFiles := List.filter (λ file, JS.endsWith file BPMN_FILE_SUFFIX) files in
  snd (getDiagrams w) = w ∧
  (∀ ds, fst (getDiagrams w) = Resolved ds →
     Forall2 (λ file d,
                file = name d +:+ BPMN_FILE_SUFFIX ∧
                uri d = Path.join root file ∧
                Fs.readFile (disk w) (uri d) = inr (xml d))
             bpmnFiles ds) ∧
  ((∀ file, file ∈ bpmnFiles →
      ∃ c, Fs.readFile (disk w) (Path.join root file) = inr c) →
   ∃ ds, fst (getDiagrams w) = Resolved ds) ∧
  (∀ file e, file ∈ bpmnFiles →
     Fs.readFile (disk w) (Path.join root file) = inl e →
     ∃ e', fst (getDiagrams w) = Rejected e').

(** How a started [saveDiagram(d)] stands: rejected, or with the write to
    the diagram's uri still to run. *)
Definition started_save (p : result (result (M unit))) (d : IDiagram) : Prop :=
  (∃ e, p = Rejected e) ∨ (∃ e, p = Resolved (Rejected e)) ∨
  p = Resolved (Resolved (write_diagram (uri d) d)).

(** What C7 asks of [saveSolution(s, newRoot)], whatever the schedule.  If
    re-opening the store at [newRoot] with the stored identity rejects, so
    does the call, and nothing is saved.  Otherwise the root is [newRoot]
    from then on, with the identity as it was, and [saveDiagram(d)] is
    called on the re-opened store for every diagram: the call resolves
    exactly when each of these saves resolves, and then nothing is left
    in flight; whether the call resolves or rejects, once things have
    come to rest every diagram whose save resolves is on disk, its uri
    holding its xml or that of another such diagram of the same location
    (its own if no other diagram shares the location); a location that
    is no diagram's uri is as before, at rest and when the call settles. *)
Definition reopens_then_saves
    (saveDiagram : IDiagram → option string → Async unit)
    (saveSolution : schedule → ISolution → option string → world → settled unit)
    (sch : schedule) (s : ISolution) (newRoot : string) (w : world) : Prop :=
  let out := saveSolution sch s (Some newRoot) w in
  match openPath newRoot (_identity (this w)) w with
  | (Rejected e, _) => out = Settled (Rejected e) w w
  | (Resolved _, w1) =>
      let saves d := fst (await (saveDiagram d None) w1) = Resolved tt in
      w1 = World (Repository (_trashFolderLocation (this w)) (Some newRoot)
                    (_identity (this w))) (disk w) ∧
      this (at_settle out) = this w1 ∧
      this (at_rest out) = this w1 ∧
      (outcome out = Resolved tt ↔ ∀ d, d ∈ diagrams s → saves d) ∧
      (outcome out = Resolved tt → at_settle out = at_rest out) ∧
      (∀ d, d ∈ diagrams s → saves d →
         ∃ d', d' ∈ diagrams s ∧ saves d' ∧
               Fs.components (uri d') = Fs.components (uri d) ∧
               Fs.readFile (disk (at_rest out)) (uri d) = inr (xml d')) ∧
      (∀ d, d ∈ diagrams s → saves d →
         (∀ d', d' ∈ diagrams s →
                Fs.components (uri d') = Fs.components (uri d) → xml d' = xml d) →
         Fs.readFile (disk (at_rest out)) (uri d) = inr (xml d)) ∧
      (∀ k, (∀ d, d ∈ diagrams s → Fs.components (uri d) ≠ k) →
            disk (at_rest out) !! k = disk w1 !! k ∧
            disk (at_settle out) !! k = disk w1 !! k)
  end.


End Shared.

(** ** RevB: src/src/SolutionExplorerFileSystemRepository.ts, lines 183-399 *)

Module RevB.
Import JS Shared.
Local Open Scope js_scope.

Definition getDiagrams (sch : schedule) : M (list IDiagram) :=
  getDiagrams_with sch (λ file, Path.basename file BPMN_FILE_SUFFIX).

Definition saveDiagram (diagramToSave : IDiagram) (newPathSpec : option string)
    : Async unit :=
  let* pathToWriteDiagram :=
    match newPathSpec with
    | Some newPath => ret newPath
    | None =>
        let* base := get_field _basePath in
        let* expectedUriForDiagram :=
          path_join base (name diagramToSave +:+ ".bpmn") in
        let uriOfDiagramWasChanged :=
          bool_decide (expectedUriForDiagram ≠ uri diagramToSave) in
        if uriOfDiagramWasChanged
        then throw (BadRequestError
               "Target Location (URI) of diagram was changed; Moving a diagram is currently not supported.")
        else ret (uri diagramToSave)
    end in
  await_then (_checkWriteablity pathToWriteDiagram)
    (λ _, write_diagram pathToWriteDiagram diagramToSave).

Definition saveSolution
    : schedule → ISolution → option string → world → settled unit :=
  saveSolution_with saveDiagram.

(** The [while] loop of [deleteDiagram]; [fuel] bounds its iterations. *)
Fixpoint trash_loop (fuel : nat) (t : Fs.tree) (orginalTargetFile : string)
    (targetFile : string) (fileAlreadyExists : bool) (attemptCount : nat)
    : option string :=
  match fuel with
  | O => None
  | S fuel' =>
      if fileAlreadyExists then
        let fileAlreadyExists' := Fs.existsSync t targetFile in
        let targetFile' := orginalTargetFile +:+ "." +:+ show attemptCount in
        trash_loop fuel' t orginalTargetFile targetFile' fileAlreadyExists'
          (S attemptCount)
      else Some targetFile
  end.

Definition find_trash_name (orginalTargetFile : string) : M string :=
  λ w, match trash_loop (size (disk w) + 3) (disk w) orginalTargetFile
               orginalTargetFile (Fs.existsSync (disk w) orginalTargetFile) 1 with
       | Some targetFile => (Resolved targetFile, w)
       | None => (Rejected LoopBound, w)
       end.

Definition deleteDiagram (diagram : IDiagram) : M unit :=
  let* _trashFolder := get_field _trashFolderLocation in
  catch (_checkForDirectory _trashFolder)
        (λ _, throw (BadRequestError "Trash folder is not writeable."));;
  let orginalTargetFile :=
    Path.join _trashFolder (name diagram +:+ BPMN_FILE_SUFFIX) in
  let* targetFile := find_trash_name orginalTargetFile in
  _rename (uri diagram) targetFile.

Definition renameDiagram (diagram : IDiagram) (newName : string) : M IDiagram :=
  let nameWithSuffix := newName +:+ BPMN_FILE_SUFFIX in
  let* base := get_field _basePath in
  let* newDiagramUri := path_join base nameWithSuffix in
  _checkWriteablity newDiagramUri;;
  let* fileAlreadyExists := existsSync newDiagramUri in
  if (fileAlreadyExists : bool)
  then throw (BadRequestError
         ("A file with the name " +:+ newDiagramUri +:+ " already exists."))
  else
    _rename (uri diagram) newDiagramUri;;
    let* renamedDiagram := getDiagramByName newName in
    ret renamedDiagram.


(** [saveSingleDiagram]; the identity is not used.  The call of
    [_writeFile] inside the [try] is not awaited: nothing is thrown
    there for the [catch] to take, and the method returns the diagram
    while the write is under way. *)
Definition saveSingleDiagram (sch : schedule) (diagramToSave : IDiagram)
    (identity : IIdentity) (pathToSave : option string)
    : world → settled IDiagram :=
  let pathToWrite :=
    match pathToSave with
    | Some newPath => newPath
    | None => uri diagramToSave
    end in
  λ w, match _checkWriteablity pathToWrite w with
       | (Rejected e, w1) => Settled (Rejected e) w1 w1
       | (Resolved _, w1) =>
           detach sch (_writeFile pathToWrite (xml diagramToSave))
             diagramToSave w1
       end.

End RevB.

(** ** RevA: src/src/SolutionExplorerFileSystemRepository.ts, lines 1-182 *)

Module RevA.
Import JS Shared.
Local Open Scope js_scope.

Definition getDiagrams (sch : schedule) : M (list IDiagram) :=
  getDiagrams_with sch (λ file, Path.basename file BPMN_FILE_SUFFIX).

Definition saveDiagram (diagramToSave : IDiagram) (newPathSpec : option string)
    : Async unit :=
  let pathToWriteDiagram :=
    match newPathSpec with
    | Some newPath => newPath
    | None => uri diagramToSave
    end in
  await_then (_checkWriteablity pathToWriteDiagram)
    (λ _, write_diagram pathToWriteDiagram diagramToSave).

Definition saveSolution
    : schedule → ISolution → option string → world → settled unit :=
  saveSolution_with saveDiagram.

(** The [while] loop of [_findUnusedFilename]; [fuel] bounds its
    iterations. *)
Fixpoint findUnused_loop (fuel : nat) (t : Fs.tree) (desiredName : string)
    (currentName : string) (attempt : nat) : option string :=
  match fuel with
  | O => None
  | S fuel' =>
      if Fs.existsSync t currentName then
        findUnused_loop fuel' t desiredName
          (desiredName +:+ "." +:+ show attempt) (S attempt)
      else Some currentName
  end.

Definition _findUnusedFilename (desiredName : string) : M string :=
  λ w, match findUnused_loop (size (disk w) + 2) (disk w) desiredName
               desiredName 1 with
       | Some currentName => (Resolved currentName, w)
       | None => (Rejected LoopBound, w)
       end.

Definition deleteDiagram (diagram : IDiagram) : M unit :=
  let* _trashFolderLocation := get_field _trashFolderLocation in
  catch (_checkForDirectory _trashFolderLocation)
        (λ _, throw (BadRequestError "Trash folder is not writeable."));;
  let desiredName :=
    Path.join _trashFolderLocation (name diagram +:+ BPMN_FILE_SUFFIX) in
  let* targetFile := _findUnusedFilename desiredName in
  _rename (uri diagram) targetFile.

Definition renameDiagram (diagram : IDiagram) (newName : string) : M IDiagram :=
  let nameWithSuffix := newName +:+ BPMN_FILE_SUFFIX in
  let* base := get_field _basePath in
  let* newDiagramUri := path_join base nameWithSuffix in
  _checkWriteablity newDiagramUri;;
  let diagramNameChanged :=
    bool_decide (toLowerCase newName ≠ toLowerCase (name diagram)) in
  let* fileAlreadyExists := existsSync newDiagramUri in
  if fileAlreadyExists && diagramNameChanged
  then throw (BadRequestError
         ("A file named: " +:+ newName +:+ " already exists in location: "
          +:+ default "undefined" base +:+ "."))
  else
    _rename (uri diagram) newDiagramUri;;
    let* renamedDiagram := getDiagramByName newName in
    ret renamedDiagram.

End RevA.

(** ** RevC: src/unnamed/part_000 *)

Module RevC.
Import JS Shared.
Local Open Scope js_scope.

Definition getDiagrams (sch : schedule) : M (list IDiagram) :=
  getDiagrams_with sch
    (λ file, substr0 file (String.length file - String.length BPMN_FILE_SUFFIX)).

Definition saveDiagram (diagramToSave : IDiagram) (newPathSpec : option string)
    : Async unit :=
  let* pathToWriteDiagram :=
    match newPathSpec with
    | Some newPath => ret newPath
    | None =>
        let* base := get_field _basePath in
        let* expectedUriForDiagram :=
          path_join base (name diagramToSave +:+ ".bpmn") in
        let uriOfDiagramWasChanged :=
          bool_decide (expectedUriForDiagram ≠ uri diagramToSave) in
        if uriOfDiagramWasChanged
        then throw (BadRequestError
               "Target Location (URI) of diagram was changed; Moving a diagram is currently not supported.")
        else ret (uri diagramToSave)
    end in
  await_then (_checkWriteablity pathToWriteDiagram)
    (λ _, write_diagram pathToWriteDiagram diagramToSave).

Definition saveSolution
    : schedule → ISolution → option string → world → settled unit :=
  saveSolution_with saveDiagram.

End RevC.

(** ** Worlds used in the examples *)

Module Examples.
Import Fs Shared.

(** /r holds x.bpmn and b.txt; /trash holds an older x.bpmn. *)
Definition tree0 : tree :=
  mkfile ["trash"; "x.bpmn"] "old"
    (mkfile ["r"; "b.txt"] "B"
       (mkfile ["r"; "x.bpmn"] "A"
          (mkdir ["trash"] (mkdir ["r"] empty_tree)))).

Definition alice : IIdentity := Identity "alice".

(** The store opened at /r, its trash folder at /trash. *)
Definition world0 : world :=
  World (Repository "/trash" (Some "/r") (Some alice)) tree0.

(** The same store with a trash folder that does not exist. *)
Definition world_no_trash : world :=
  World (Repository "/nowhere" (Some "/r") (Some alice)) tree0.

Definition x_diagram : IDiagram := Diagram "x" "/r/x.bpmn" "A" None.

(** The trash folder already holds x.bpmn and x.bpmn.2, not x.bpmn.1. *)
Definition tree_gap : tree := mkfile ["trash"; "x.bpmn.2"] "kept" tree0.

Definition world_gap : world :=
  World (Repository "/trash" (Some "/r") (Some alice)) tree_gap.

(** The store when the configured trash folder is a regular file. *)
Definition world_trash_file : world :=
  World (Repository "/r/b.txt" (Some "/r") (Some alice)) tree0.

(** /r holds x.bpmn and, under another name in capitals, X.bpmn. *)
Definition tree_caps : tree := mkfile ["r"; "X.bpmn"] "other" tree0.

Definition world_caps : world :=
  World (Repository "/trash" (Some "/r") (Some alice)) tree_caps.

(** [world0] after x.bpmn of /r has been moved to the trash folder as
    x.bpmn.1. *)
Definition tree_deleted : tree :=
  mkfile ["trash"; "x.bpmn.1"] "A" (delete ["r"; "x.bpmn"] tree0).

Definition world_deleted : world :=
  World (Repository "/trash" (Some "/r") (Some alice)) tree_deleted.

(** [world0] after x.bpmn of /r has been renamed to y.bpmn. *)
Definition tree_renamed : tree :=
  mkfile ["r"; "y.bpmn"] "A" (delete ["r"; "x.bpmn"] tree0).

Definition world_renamed : world :=
  World (Repository "/trash" (Some "/r") (Some alice)) tree_renamed.

(** A store that has been constructed and not opened. *)
Definition world_new : world := World (constructor "/trash") tree0.




(** A store that has never been opened, with an identity set. *)
Definition world_closed : world :=
  World (Repository "/trash" None (Some alice)) tree0.

(** A batch of three: the second diagram's uri lies in a directory that
    does not exist. *)
Definition batch : ISolution :=
  Solution [Diagram "x" "/r/x.bpmn" "N1" None;
            Diagram "y" "/q/y.bpmn" "N2" None;
            Diagram "z" "/r/z.bpmn" "N3" None].

(** The last of the waiting calls comes back first; one call has come
    back when a rejection reaches the caller. *)
Definition last_first : schedule := Schedule [1; 0] 1.

(** A diagram named x whose uri points into the trash folder. *)
Definition moved_diagram : IDiagram := Diagram "x" "/trash/x.bpmn" "NEW" None.

End Examples.

(** * Facts *)

(** ** Running the monad *)

Module Run.
Import Shared.

(** Closed decidable statements are settled by evaluation. *)
Ltac by_evaluation := apply (bool_decide_unpack _); vm_compute; exact I.

Ltac unfold_js :=
  unfold await, Promise_all, _checkWriteablity, _checkForDirectory, openPath,
    getDiagramByName, write_diagram, _readFile, _writeFile, _rename,
    _readDirectory, path_join, existsSync, statSync, lift_read, lift_write,
    get_field, set_this, catch, bind, throw, ret in *.

Lemma checkForDirectory_run (p : string) (w : world) :
  _checkForDirectory p w =
    (match Fs.stat (disk w) p with
     | inl _ => Rejected (NotFoundError ("'" +:+ p +:+ "' does not exist."))
     | inr Fs.Directory => Resolved tt
     | inr (Fs.File _) =>
         Rejected (BadRequestError ("'" +:+ p +:+ "' is not a directory."))
     end, w).
Proof.
  unfold_js. unfold Fs.existsSync, Fs.statSync.
  destruct (Fs.stat (disk w) p) as [e|[c|]] eqn:E; simpl; rewrite ?E; reflexivity.
Qed.

Lemma checkForDirectory_keeps_world (p : string) (w : world) :
  snd (_checkForDirectory p w) = w.
Proof. rewrite checkForDirectory_run. reflexivity. Qed.

Lemma checkForDirectory_ok (p : string) (w : world) :
  Fs.is_dir (disk w) p = true → _checkForDirectory p w = (Resolved tt, w).
Proof.
  intros H. rewrite checkForDirectory_run.
  unfold Fs.is_dir, Fs.statSync in H.
  destruct (Fs.stat (disk w) p) as [e|[c|]]; done.
Qed.

Lemma checkForDirectory_fails (p : string) (w : world) :
  Fs.is_dir (disk w) p = false →
  ∃ e, _checkForDirectory p w = (Rejected e, w) ∧
       (is_NotFound e = negb (Fs.existsSync (disk w) p)) ∧
       (is_BadRequest e = Fs.existsSync (disk w) p).
Proof.
  intros H. rewrite checkForDirectory_run.
  unfold Fs.is_dir, Fs.statSync, Fs.existsSync in *.
  destruct (Fs.stat (disk w) p) as [e|[c|]]; try done; eauto.
Qed.

Lemma openPath_run (pathspec : string) (identity : option IIdentity) (w : world) :
  openPath pathspec identity w =
    if Fs.is_dir (disk w) pathspec
    then (Resolved tt,
          World (Repository (_trashFolderLocation (this w)) (Some pathspec) identity)
                (disk w))
    else (fst (_checkForDirectory pathspec w), w).
Proof.
  unfold openPath, bind. rewrite checkForDirectory_run.
  unfold Fs.is_dir, Fs.statSync.
  destruct (Fs.stat (disk w) pathspec) as [e|[c|]]; reflexivity.
Qed.

End Run.

(** ** openPath *)

Module OpenPath.
Import Shared Run.

(** C4.  [openPath] rejects a path that does not exist with NotFound and
    a path that exists without being a directory with BadRequest; both
    leave the root and the identity of the store as they were.  On a
    directory it resolves and sets the root and the identity. *)
Theorem openPath_validates
    (pathspec : string) (identity : option IIdentity) (w : world) :
  (Fs.existsSync (disk w) pathspec = false →
     ∃ m, openPath pathspec identity w = (Rejected (NotFoundError m), w)) ∧
  (Fs.existsSync (disk w) pathspec = true →
   Fs.is_dir (disk w) pathspec = false →
     ∃ m, openPath pathspec identity w = (Rejected (BadRequestError m), w)) ∧
  (Fs.is_dir (disk w) pathspec = true →
     openPath pathspec identity w =
       (Resolved tt,
        World (Repository (_trashFolderLocation (this w)) (Some pathspec) identity)
              (disk w))).
Proof.
  unfold openPath, bind. rewrite checkForDirectory_run.
  unfold Fs.existsSync, Fs.is_dir, Fs.statSync.
  destruct (Fs.stat (disk w) pathspec) as [e|[c|]]; simpl;
    repeat split; intros; try discriminate; eauto.
Qed.

Lemma openPath_validates_witness :
  (∃ m, openPath "/nowhere" None Examples.world0
        = (Rejected (NotFoundError m), Examples.world0)) ∧
  (∃ m, openPath "/r/b.txt" None Examples.world0
        = (Rejected (BadRequestError m), Examples.world0)) ∧
  openPath "/trash" None Examples.world0
    = (Resolved tt,
       World (Repository "/trash" (Some "/trash") None) Examples.tree0).
Proof.
  split; [|split].
  - apply (openPath_validates "/nowhere" None Examples.world0).
    by_evaluation.
  - apply (openPath_validates "/r/b.txt" None Examples.world0);
      by_evaluation.
  - apply (openPath_validates "/trash" None Examples.world0).
    by_evaluation.
Defined.

End OpenPath.


(** ** Strings *)

Module JSFacts.
Import JS.

Lemma append_nil_l (s : string) : "" +:+ s = s.
Proof. reflexivity. Qed.

Lemma append_cons (c : ascii) (a b : string) :
  String c a +:+ b = String c (a +:+ b).
Proof. reflexivity. Qed.

Ltac app_simpl := rewrite ?append_nil_l, ?append_cons in *; simpl in *.

Lemma append_nil_r (s : string) : s +:+ "" = s.
Proof. induction s as [|c s IH]; app_simpl; [done|]. by rewrite IH. Qed.

Lemma append_assoc (a b c : string) : (a +:+ b) +:+ c = a +:+ (b +:+ c).
Proof. induction a as [|x a IH]; app_simpl; [done|]. by rewrite IH. Qed.

Lemma length_append (a b : string) :
  String.length (a +:+ b) = String.length a + String.length b.
Proof. induction a as [|x a IH]; app_simpl; [done|]. by rewrite IH. Qed.

Lemma append_inv_head (a b c : string) : a +:+ b = a +:+ c → b = c.
Proof. induction a as [|x a IH]; app_simpl; [done|]. intros [=]. auto. Qed.

Lemma substring_0_append (a b : string) :
  substring 0 (String.length a) (a +:+ b) = a.
Proof.
  induction a as [|x a IH]; app_simpl.
  - by destruct b.
  - by rewrite IH.
Qed.

Lemma endsWith_append (f suffix : string) : endsWith (f +:+ suffix) suffix = true.
Proof.
  induction f as [|c f IH]; app_simpl.
  - destruct suffix; simpl; [done|].
    rewrite Ascii.eqb_refl, String.eqb_refl. done.
  - rewrite IH. by rewrite orb_true_r.
Qed.

Lemma endsWith_inv (s suffix : string) :
  endsWith s suffix = true → ∃ f, s = f +:+ suffix.
Proof.
  induction s as [|c s IH]; cbn [endsWith].
  - rewrite orb_false_r. intros H%String.eqb_eq. by exists "".
  - intros [H|H]%orb_true_iff.
    + apply String.eqb_eq in H. by exists "".
    + destruct (IH H) as [f ->]. by exists (String c f).
Qed.

(** What [file.substr(0, file.length - suffix.length)] leaves of a file
    name that ends with the suffix. *)
Lemma substr0_strips (f suffix : string) :
  substr0 (f +:+ suffix) (String.length (f +:+ suffix) - String.length suffix) = f.
Proof.
  unfold substr0. rewrite length_append.
  replace (String.length f + String.length suffix - String.length suffix)
    with (String.length f) by lia.
  apply substring_0_append.
Qed.

Lemma has_slash_append (a b : string) :
  has_slash (a +:+ b) = has_slash a || has_slash b.
Proof.
  induction a as [|c a IH]; app_simpl; [done|].
  rewrite IH. by rewrite orb_assoc.
Qed.

Lemma split_slash_nonempty (s : string) : split_slash s ≠ [].
Proof.
  induction s as [|c s IH]; simpl; [done|].
  destruct (Ascii.eqb c slash); [done|].
  by destruct (split_slash s).
Qed.

Lemma split_slash_free (s : string) :
  has_slash s = false → split_slash s = [s].
Proof.
  induction s as [|c s IH]; simpl; [done|].
  intros [Hc Hs]%orb_false_iff. rewrite Hc, (IH Hs). done.
Qed.

Lemma split_slash_segments_free (s : string) :
  Forall (λ seg, has_slash seg = false) (split_slash s).
Proof.
  induction s as [|c s IH]; simpl; [by repeat constructor|].
  destruct (Ascii.eqb c slash) eqn:E.
  - by constructor.
  - pose proof (split_slash_nonempty s) as Hne.
    destruct (split_slash s) as [|seg segs]; [done|].
    inversion IH; subst. constructor; [|done]. simpl. by rewrite E.
Qed.

(** Appending a slash-free string extends the last segment. *)
Lemma split_slash_append_free (a b : string) (init : list string) (l : string) :
  split_slash a = init ++ [l] → has_slash b = false →
  split_slash (a +:+ b) = init ++ [l +:+ b].
Proof.
  revert init l. induction a as [|c a IH]; intros init l Ha Hb; app_simpl.
  - destruct init as [|x [|y init]]; simplify_eq/=. by apply split_slash_free.
  - destruct (Ascii.eqb c slash).
    + destruct init as [|x init]; simplify_eq/=.
      * by destruct (split_slash_nonempty a).
      * by rewrite (IH _ _ H0 Hb).
    + pose proof (split_slash_nonempty a) as Hne.
      destruct (split_slash a) as [|seg segs] eqn:E; [done|].
      destruct init as [|x init]; simplify_eq/=.
      * by rewrite (IH [] seg eq_refl Hb).
      * by rewrite (IH (seg :: init) l eq_refl Hb).
Qed.

Lemma split_slash_last (a : string) : ∃ init l, split_slash a = init ++ [l].
Proof.
  pose proof (split_slash_nonempty a) as H.
  destruct (split_slash a) as [|x xs _] using rev_ind; [done|]. eauto.
Qed.

(** A '/' between two strings separates their segments. *)
Lemma split_slash_append_slash (a b : string) :
  split_slash (a +:+ String slash b) = split_slash a ++ split_slash b.
Proof.
  induction a as [|c a IH]; app_simpl.
  - reflexivity.
  - destruct (Ascii.eqb c slash); rewrite IH; [done|].
    pose proof (split_slash_nonempty a) as Hne.
    by destruct (split_slash a).
Qed.

Lemma show_inj (n m : nat) : show n = show m → n = m.
Proof. unfold show. apply (inj pretty). Qed.

End JSFacts.

(** ** The file tree *)

Module FsFacts.
Import JS Fs JSFacts.

(** *** The walk *)

Lemma walk_foldl (t : tree) (segs cur k : list string) :
  walk t cur segs = inr k → k = foldl resolve_step cur segs.
Proof.
  revert cur. induction segs as [|seg segs IH]; intros cur; simpl.
  - by intros [= <-].
  - case_decide as Hs.
    + subst seg. intros H. by rewrite (IH _ H).
    + destruct (t !! cur) as [[c|]|]; [done| |done]. apply IH.
Qed.

Lemma resolve_inr (t : tree) (p : string) (k : list string) :
  resolve t p = inr k → p ≠ "" ∧ k = components p.
Proof.
  unfold resolve. case_decide as Hp; [done|]. intros Hw. split; [done|].
  by apply walk_foldl in Hw.
Qed.

(** A path that can be walked leads where its text says. *)
Lemma resolve_components (t : tree) (p : string) (k : list string) :
  resolve t p = inr k → resolve t p = inr (components p).
Proof. intros H. by destruct (resolve_inr _ _ _ H) as [_ <-]. Qed.

Lemma walk_app (t : tree) (a b cur : list string) :
  walk t cur (a ++ b)
  = match walk t cur a with
    | inl e => inl e
    | inr k => walk t k b
    end.
Proof.
  revert cur. induction a as [|seg a IH]; intros cur; simpl; [done|].
  case_decide; [apply IH|].
  destruct (t !! cur) as [[c|]|]; [done| |done]. apply IH.
Qed.

Lemma dirs_above_nil (t : tree) : dirs_above t [].
Proof. intros i Hi. simpl in Hi. lia. Qed.

Lemma dirs_above_snoc (t : tree) (k : list string) (x : string) :
  dirs_above t k → t !! k = Some Directory → dirs_above t (k ++ [x]).
Proof.
  intros Hk Hd i Hi. rewrite length_app in Hi. simpl in Hi.
  destruct (decide (i = length k)) as [->|Hne].
  - by rewrite take_app_length.
  - rewrite take_app_le by lia. apply Hk. lia.
Qed.

Lemma dirs_above_removelast (t : tree) (k : list string) :
  dirs_above t k → dirs_above t (removelast k).
Proof.
  destruct k as [|x k _] using rev_ind; [done|].
  rewrite removelast_last. intros H i Hi.
  specialize (H i). rewrite length_app in H. simpl in H.
  rewrite take_app_le in H by lia. apply H. lia.
Qed.

Lemma dirs_above_last (t : tree) (k : list string) (x : string) :
  dirs_above t (k ++ [x]) → dirs_above t k ∧ t !! k = Some Directory.
Proof.
  intros H. split.
  - apply dirs_above_removelast in H. by rewrite removelast_last in H.
  - specialize (H (length k)). rewrite take_app_length in H. apply H.
    rewrite length_app. simpl. lia.
Qed.

Lemma dirs_above_root (t : tree) (k : list string) :
  dirs_above t k → k ≠ [] → t !! [] = Some Directory.
Proof.
  intros H Hk. specialize (H 0). rewrite take_0 in H. apply H.
  destruct k; [done|simpl; lia].
Qed.

(** The walk has found a directory at every place it left. *)
Lemma walk_dirs_above (t : tree) (segs cur k : list string) :
  dirs_above t cur → walk t cur segs = inr k → dirs_above t k.
Proof.
  revert cur. induction segs as [|seg segs IH]; intros cur Hcur; simpl.
  - by intros [= <-].
  - case_decide; [by apply IH|].
    destruct (t !! cur) as [[c|]|] eqn:Hl; [done| |done].
    apply IH. unfold resolve_step. repeat case_decide; [done| |].
    + by apply dirs_above_removelast.
    + by apply dirs_above_snoc.
Qed.

Lemma resolve_dirs_above (t : tree) (p : string) (k : list string) :
  resolve t p = inr k → dirs_above t k.
Proof.
  unfold resolve. case_decide; [done|].
  apply walk_dirs_above, dirs_above_nil.
Qed.

(** Entry names are walked one directory after the other. *)
Lemma walk_names (t : tree) (names cur : list string) :
  Forall entry_name names → dirs_above t (cur ++ names) →
  walk t cur names = inr (cur ++ names).
Proof.
  intros Hall. revert cur.
  induction Hall as [|n names (H1 & H2 & H3) _ IH]; intros cur Hd; simpl.
  - by rewrite app_nil_r.
  - rewrite decide_False by done.
    assert (t !! cur = Some Directory) as ->.
    { specialize (Hd (length cur)). rewrite take_app_length in Hd.
      apply Hd. rewrite length_app. simpl. lia. }
    unfold resolve_step. rewrite decide_False by (intros [?|?]; congruence).
    rewrite decide_False by done.
    rewrite IH; [by rewrite <- app_assoc|]. by rewrite <- app_assoc.
Qed.

Lemma walk_dotdots (t : tree) (k : nat) (rest : list string) :
  t !! [] = Some Directory →
  walk t [] (replicate k ".." ++ rest) = walk t [] rest.
Proof.
  intros Hroot. induction k as [|k IH]; [done|].
  simpl. by rewrite Hroot.
Qed.

(** What [path.normalize] keeps of a path can be walked when the
    directories along the location it denotes are there. *)
Lemma walk_kept (t : tree) (accN accR : list string) :
  kept accN accR → t !! [] = Some Directory → dirs_above t accR →
  walk t [] accN = inr accR.
Proof.
  intros (k & -> & Hall) Hroot Hd.
  rewrite walk_dotdots by done. by apply (walk_names t accR []).
Qed.

(** Two trees with the same directories are walked alike. *)
Lemma walk_same_dirs (t t' : tree) (segs cur k : list string) :
  same_dirs t t' → walk t cur segs = inr k → walk t' cur segs = inr k.
Proof.
  intros Hsame. revert cur.
  induction segs as [|seg segs IH]; intros cur; simpl; [done|].
  case_decide; [apply IH|].
  destruct (t !! cur) as [[c|]|] eqn:Hl; [done| |done].
  apply Hsame in Hl. rewrite Hl. apply IH.
Qed.

Lemma same_dirs_sym (t t' : tree) : same_dirs t t' → same_dirs t' t.
Proof. intros H q. by rewrite (H q). Qed.

Lemma same_dirs_trans (t1 t2 t3 : tree) :
  same_dirs t1 t2 → same_dirs t2 t3 → same_dirs t1 t3.
Proof. intros H1 H2 q. by rewrite (H1 q), (H2 q). Qed.

Lemma resolve_same_dirs (t t' : tree) (p : string) (k : list string) :
  same_dirs t t' → resolve t p = inr k → resolve t' p = inr k.
Proof.
  unfold resolve. intros Hsame. case_decide; [done|]. by apply walk_same_dirs.
Qed.

Lemma same_dirs_insert_file (t : tree) (k : list string) (c : string) :
  t !! k ≠ Some Directory → same_dirs t (<[k := File c]> t).
Proof.
  intros Hk q. destruct (decide (k = q)) as [->|Hne].
  - rewrite lookup_insert_eq. split; [done|]. by intros [=].
  - by rewrite lookup_insert_ne.
Qed.

Lemma same_dirs_delete_file (t : tree) (k : list string) :
  t !! k ≠ Some Directory → same_dirs t (delete k t).
Proof.
  intros Hk q. destruct (decide (k = q)) as [->|Hne].
  - rewrite lookup_delete_eq. split; [done|]. by intros [=].
  - by rewrite lookup_delete_ne.
Qed.

(** *** stat and what is built on it *)

Lemma stat_inr (t : tree) (p : string) (v : node) :
  stat t p = inr v ↔
  resolve t p = inr (components p) ∧ t !! components p = Some v ∧
  (wants_directory p = true → v = Directory).
Proof.
  unfold stat. destruct (resolve t p) as [e|k] eqn:Hr.
  - split; [done|]. by intros [? _].
  - destruct (resolve_inr _ _ _ Hr) as [_ ->].
    destruct (t !! components p) as [[c|]|]; [destruct (wants_directory p)|..];
      split; try done.
    + intros (_ & [= <-] & H). by specialize (H eq_refl).
    + intros [= <-]. done.
    + intros (_ & [= <-] & _). done.
    + intros [= <-]. done.
    + intros (_ & [= <-] & _). done.
    + by intros (_ & [=] & _).
Qed.

Lemma existsSync_reaches (t : tree) (p : string) :
  existsSync t p = true → resolve t p = inr (components p).
Proof.
  unfold existsSync. destruct (stat t p) as [|v] eqn:E; [done|].
  intros _. by apply stat_inr in E as [? _].
Qed.

Lemma existsSync_lookup (t : tree) (p : string) :
  existsSync t p = true → p ≠ "" ∧ is_Some (t !! components p).
Proof.
  unfold existsSync. destruct (stat t p) as [|v] eqn:E; [done|].
  intros _. apply stat_inr in E as (Hr & Hl & _).
  destruct (resolve_inr _ _ _ Hr). eauto.
Qed.

(** A path that can be walked and does not exist has nothing at its
    place. *)
Lemma existsSync_false (t : tree) (p : string) :
  existsSync t p = false → resolve t p = inr (components p) →
  wants_directory p = false → t !! components p = None.
Proof.
  unfold existsSync, stat. intros Hex Hr Hw. rewrite Hr in Hex.
  destruct (t !! components p) as [[c|]|]; try done. by rewrite Hw in Hex.
Qed.

Lemma is_dir_iff (t : tree) (p : string) :
  is_dir t p = true ↔
  resolve t p = inr (components p) ∧ t !! components p = Some Directory.
Proof.
  unfold is_dir, statSync. destruct (stat t p) as [e|v] eqn:E.
  - split; [done|]. intros [Hr Hl].
    assert (stat t p = inr Directory) as E' by (by apply stat_inr).
    congruence.
  - apply stat_inr in E as (Hr & Hl & _). destruct v; simpl.
    + split; [done|]. intros [_ ?]. congruence.
    + done.
Qed.

Lemma is_dir_lookup (t : tree) (p : string) :
  is_dir t p = true → p ≠ "" ∧ t !! components p = Some Directory.
Proof.
  intros [Hr Hl]%is_dir_iff. by destruct (resolve_inr _ _ _ Hr).
Qed.

Lemma is_dir_exists (t : tree) (p : string) :
  is_dir t p = true → existsSync t p = true.
Proof.
  unfold is_dir, statSync, existsSync. by destruct (stat t p).
Qed.

(** Where a directory is found, the root is one, and so is every place
    above it. *)
Lemma is_dir_dirs_above (t : tree) (p : string) :
  is_dir t p = true →
  t !! [] = Some Directory ∧ dirs_above t (components p).
Proof.
  intros [Hr Hl]%is_dir_iff. pose proof (resolve_dirs_above _ _ _ Hr) as Hd.
  split; [|done].
  destruct (components p) as [|x k] eqn:E; [done|].
  by apply (dirs_above_root t (x :: k)).
Qed.

Lemma is_dir_same_dirs (t t' : tree) (p : string) :
  same_dirs t t' → is_dir t' p = is_dir t p.
Proof.
  intros Hsame. apply eq_true_iff_eq. rewrite !is_dir_iff. split.
  - intros [Hr Hl]. split.
    + by apply (resolve_same_dirs t' t); [apply same_dirs_sym|].
    + by apply Hsame.
  - intros [Hr Hl]. split.
    + by apply (resolve_same_dirs t t').
    + by apply Hsame.
Qed.

Lemma readFile_iff (t : tree) (p c : string) :
  readFile t p = inr c ↔
  resolve t p = inr (components p) ∧ wants_directory p = false ∧
  t !! components p = Some (File c).
Proof.
  unfold readFile. destruct (stat t p) as [e|v] eqn:E.
  - split; [done|]. intros (Hr & Hw & Hl).
    assert (stat t p = inr (File c)) as E'.
    { apply stat_inr. repeat split; try done. by rewrite Hw. }
    congruence.
  - apply stat_inr in E as (Hr & Hl & Hw). destruct v as [c'|].
    + split.
      * intros [= <-]. repeat split; try done.
        destruct (wants_directory p); [by specialize (Hw eq_refl)|done].
      * intros (_ & _ & ?). congruence.
    + split; [done|]. intros (_ & _ & ?). congruence.
Qed.

Lemma readFile_lookup (t : tree) (p c : string) :
  readFile t p = inr c →
  p ≠ "" ∧ wants_directory p = false ∧ t !! components p = Some (File c).
Proof.
  intros (Hr & Hw & Hl)%readFile_iff. by destruct (resolve_inr _ _ _ Hr).
Qed.


Lemma readFile_not_dir (t : tree) (p c : string) :
  readFile t p = inr c → is_dir t p = false.
Proof.
  unfold readFile, is_dir, statSync. by destruct (stat t p) as [|[|]].
Qed.

(** A path that does not ask for a directory ends in an entry name. *)
Lemma wants_directory_false (p : string) :
  wants_directory p = false →
  ∃ init l, split_slash p = init ++ [l] ∧ entry_name l.
Proof.
  unfold wants_directory. intros H.
  destruct (split_slash p) as [|x segs _] eqn:E using rev_ind.
  { by destruct (split_slash_nonempty p). }
  exists segs, x. split; [done|]. rewrite last_snoc in H.
  apply bool_decide_eq_false in H.
  repeat split; intros ->; apply H; auto.
Qed.

Lemma components_entry (p : string) (init : list string) (l : string) :
  split_slash p = init ++ [l] → entry_name l →
  components p = foldl resolve_step [] init ++ [l].
Proof.
  intros Hp (H1 & H2 & H3). unfold components.
  rewrite Hp, foldl_app. simpl. unfold resolve_step at 1.
  rewrite decide_False by (intros [?|?]; congruence). by rewrite decide_False.
Qed.

Lemma wants_directory_false_components (p : string) :
  wants_directory p = false → components p ≠ [].
Proof.
  intros (init & l & Hp & Hl)%wants_directory_false.
  rewrite (components_entry _ _ _ Hp Hl). by destruct (foldl _ _ _).
Qed.

Lemma ends_in_dots_wants (p : string) :
  wants_directory p = false → ends_in_dots p = false.
Proof.
  unfold wants_directory, ends_in_dots.
  destruct (last (split_slash p)); [|done].
  intros H%bool_decide_eq_false. apply bool_decide_eq_false.
  intros [?|?]; apply H; auto.
Qed.

(** *** writeFile *)

Lemma writeFile_inv (t t' : tree) (p data : string) :
  writeFile t p data = inr t' →
  resolve t p = inr (components p) ∧ wants_directory p = false ∧
  t !! components p ≠ Some Directory ∧
  t' = <[components p := File data]> t.
Proof.
  unfold writeFile. destruct (resolve t p) as [e|k] eqn:Hr; [done|].
  destruct (resolve_inr _ _ _ Hr) as [_ ->].
  destruct (wants_directory p); [done|].
  destruct (t !! components p) as [[c|]|] eqn:E; [|done|];
    by intros [= <-].
Qed.

Lemma writeFile_ok (t : tree) (p data : string) :
  resolve t p = inr (components p) → wants_directory p = false →
  t !! components p ≠ Some Directory →
  writeFile t p data = inr (<[components p := File data]> t).
Proof.
  intros Hr Hw Hl. unfold writeFile. rewrite Hr, Hw.
  by destruct (t !! components p) as [[c|]|].
Qed.

Lemma writeFile_nonempty (t t' : tree) (p data : string) :
  writeFile t p data = inr t' → p ≠ "".
Proof.
  intros (Hr & _)%writeFile_inv. by destruct (resolve_inr _ _ _ Hr).
Qed.

Lemma writeFile_same_dirs (t t' : tree) (p data : string) :
  writeFile t p data = inr t' → same_dirs t t'.
Proof.
  intros (_ & _ & Hnd & ->)%writeFile_inv. by apply same_dirs_insert_file.
Qed.

Lemma writeFile_read (t t' : tree) (p data : string) :
  writeFile t p data = inr t' → readFile t' p = inr data.
Proof.
  intros Hw. pose proof (writeFile_same_dirs _ _ _ _ Hw) as Hsame.
  apply writeFile_inv in Hw as (Hr & Hw & _ & ->).
  apply readFile_iff. split; [|split; [done|]].
  - by apply (resolve_same_dirs t).
  - by rewrite lookup_insert_eq.
Qed.



(** A write leaves every other location as it was. *)
Lemma writeFile_other (t t' : tree) (p data : string) (k : list string) :
  writeFile t p data = inr t' → k ≠ components p → t' !! k = t !! k.
Proof.
  intros (_ & _ & _ & ->)%writeFile_inv Hk. by rewrite lookup_insert_ne.
Qed.

(** *** rename of a regular file *)

Lemma rename_file_inv (t t' : tree) (old new c : string) :
  readFile t old = inr c → rename t old new = inr t' →
  components old = components new ∧ t' = t ∨
  components old ≠ components new ∧
  t' = <[components new := File c]> (delete (components old) t).
Proof.
  intros (Hro & Hwo & Hlo)%readFile_iff. unfold rename. rewrite Hro.
  destruct (resolve t new) as [e|kn] eqn:Hrn; [done|].
  destruct (resolve_inr _ _ _ Hrn) as [_ ->].
  destruct (_ || _); [done|]. rewrite Hlo, Hwo. simpl.
  destruct (wants_directory new); [done|].
  case_decide; [intros [= <-]; by left|].
  intros H1. right. split; [done|].
  destruct (t !! components new) as [[c'|]|]; by simplify_eq.
Qed.

(** What a rename of a regular file that went through found at the new
    path. *)
Lemma rename_file_target (t t' : tree) (old new c : string) :
  readFile t old = inr c → rename t old new = inr t' →
  resolve t new = inr (components new) ∧ wants_directory new = false ∧
  (components old ≠ components new → t !! components new ≠ Some Directory).
Proof.
  intros (Hro & Hwo & Hlo)%readFile_iff. unfold rename. rewrite Hro.
  destruct (resolve t new) as [e|kn] eqn:Hrn; [done|].
  destruct (resolve_inr _ _ _ Hrn) as [_ ->].
  destruct (_ || _); [done|]. rewrite Hlo, Hwo. simpl.
  destruct (wants_directory new); [done|].
  case_decide; [done|].
  destruct (t !! components new) as [[c'|]|]; by simplify_eq.
Qed.

(** A rename that went through from a path that is no directory moved a
    regular file. *)
Lemma rename_source_file (t t' : tree) (old new : string) :
  is_dir t old = false → rename t old new = inr t' →
  ∃ c, readFile t old = inr c.
Proof.
  intros Hnd. unfold rename.
  destruct (resolve t old) as [e|ko] eqn:Hro; [done|].
  destruct (resolve_inr _ _ _ Hro) as [_ ->].
  destruct (resolve t new) as [e|kn]; [done|].
  destruct (_ || _); [done|].
  destruct (t !! components old) as [[c|]|] eqn:Hl; [| |done].
  - destruct (wants_directory old) eqn:Hwo; [done|].
    intros _. exists c. by apply readFile_iff.
  - intros _. assert (is_dir t old = true) by (by apply is_dir_iff).
    congruence.
Qed.


(** After the move the source is gone and the target holds the file. *)
Lemma rename_file_moved (t : tree) (old new c : string) :
  readFile t old = inr c → resolve t new = inr (components new) →
  wants_directory new = false →
  t !! components new ≠ Some Directory →
  components old ≠ components new →
  let t' := <[components new := File c]> (delete (components old) t) in
  existsSync t' old = false ∧ readFile t' new = inr c.
Proof.
  intros (Hro & Hwo & Hlo)%readFile_iff Hrn Hw Hnd Hk t'.
  assert (same_dirs t t') as Hsame.
  { apply (same_dirs_trans _ (delete (components old) t)).
    - apply same_dirs_delete_file. by rewrite Hlo.
    - apply same_dirs_insert_file. rewrite lookup_delete_ne by done. done. }
  split.
  - unfold existsSync, stat.
    destruct (resolve t' old) as [e|k] eqn:Hr'; [done|].
    destruct (resolve_inr _ _ _ Hr') as [_ ->].
    unfold t'. rewrite lookup_insert_ne by done. by rewrite lookup_delete_eq.
  - apply readFile_iff. split; [|split; [done|]].
    + by apply (resolve_same_dirs t).
    + unfold t'. by rewrite lookup_insert_eq.
Qed.

(** *** Directory listings *)

Lemma child_name_Some (dir k : list string) (n : string) :
  child_name dir k = Some n ↔ k = dir ++ [n].
Proof.
  unfold child_name. split.
  - destruct (last k) as [x|]; [|done]. case_decide; [|done]. by intros [= <-].
  - intros ->. rewrite last_snoc. by rewrite decide_True.
Qed.

(** The listing of a directory names exactly its entries. *)
Lemma elem_of_children (t : tree) (dir : list string) (n : string) :
  n ∈ children t dir ↔ is_Some (t !! (dir ++ [n])).
Proof.
  unfold children. rewrite list_elem_of_omap. split.
  - intros ([k v] & Hin & Hc). simpl in Hc.
    apply child_name_Some in Hc as ->.
    apply elem_of_map_to_list in Hin. eauto.
  - intros [v Hv]. exists (dir ++ [n], v). split.
    + by apply elem_of_map_to_list.
    + by apply child_name_Some.
Qed.

(** It names each entry once. *)
Lemma NoDup_children (t : tree) (dir : list string) : NoDup (children t dir).
Proof.
  unfold children.
  pose proof (NoDup_fst_map_to_list t) as Hnd.
  induction (map_to_list t) as [|[k v] l IH]; simpl; [constructor|].
  inversion Hnd as [|? ? Hk Hl]; subst.
  destruct (child_name dir k) as [n|] eqn:E; simpl; [|by apply IH].
  constructor; [|by apply IH].
  intros ([k' v'] & Hin & Hc)%list_elem_of_omap. simpl in Hc.
  apply child_name_Some in E, Hc. subst. apply Hk.
  apply list_elem_of_fmap. by exists (dir ++ [n], v').
Qed.

Lemma wf_entry_of (t : tree) (k : list string) (v : node) :
  wf t = true → t !! k = Some v →
  Forall (λ seg, proper_name seg = true) k ∧
  t !! removelast k = Some Directory.
Proof.
  unfold wf. intros [_ Hall]%andb_true_iff Hk.
  rewrite forallb_forall in Hall.
  specialize (Hall (k, v)). unfold wf_entry in Hall. simpl in Hall.
  destruct (andb_true_iff (forallb proper_name k)
             (bool_decide (t !! removelast k = Some Directory))) as [Hsplit _].
  destruct Hsplit as [Hnames Hpar].
  { apply Hall. apply list_elem_of_In. by apply elem_of_map_to_list. }
  split.
  - apply Forall_forall. intros seg Hseg.
    rewrite forallb_forall in Hnames. apply Hnames. by apply list_elem_of_In.
  - by apply bool_decide_eq_true in Hpar.
Qed.

(** In a well-formed tree every entry lies below directories only. *)
Lemma wf_dirs_above (t : tree) (k : list string) (v : node) :
  wf t = true → t !! k = Some v → dirs_above t k.
Proof.
  intros Hwf. revert v.
  induction k as [|x k IH] using rev_ind; intros v Hk; [apply dirs_above_nil|].
  destruct (wf_entry_of _ _ _ Hwf Hk) as [_ Hpar].
  rewrite removelast_last in Hpar.
  apply dirs_above_snoc; [by apply (IH Directory)|done].
Qed.

(** In a well-formed tree the entries of a directory are file names. *)
Lemma children_proper (t : tree) (dir : list string) (n : string) :
  wf t = true → n ∈ children t dir → proper_name n = true.
Proof.
  intros Hwf [v Hv]%elem_of_children.
  destruct (wf_entry_of _ _ _ Hwf Hv) as [Hall _].
  rewrite Forall_app, Forall_singleton in Hall. tauto.
Qed.

Lemma readdir_inv (t : tree) (p : string) (files : list string) :
  readdir t p = inr files →
  is_dir t p = true ∧ files = children t (components p).
Proof.
  unfold readdir. destruct (resolve t p) as [e|k] eqn:Hr; [done|].
  destruct (resolve_inr _ _ _ Hr) as [_ ->].
  destruct (t !! components p) as [[c|]|] eqn:Hl; [done| |done].
  intros [= <-]. split; [|done]. by apply is_dir_iff.
Qed.

End FsFacts.

(** ** Paths *)

Module PathFacts.
Import JS Path JSFacts.
Import Fs (entry_name, kept).

Lemma chars_append (a b : string) :
  list_ascii_of_string (a +:+ b) = list_ascii_of_string a ++ list_ascii_of_string b.
Proof. induction a as [|c a IH]; app_simpl; [done|]. by rewrite IH. Qed.

Lemma chars_length (a : string) :
  length (list_ascii_of_string a) = String.length a.
Proof. induction a as [|c a IH]; simpl; [done|]. by rewrite IH. Qed.

Lemma chars_free (a : string) :
  has_slash a = false →
  Forall (λ c, Ascii.eqb c slash = false) (list_ascii_of_string a).
Proof.
  induction a as [|c a IH]; simpl; [constructor|].
  intros [Hc Ha]%orb_false_iff. constructor; auto.
Qed.

Lemma rev_chars_free (a : string) :
  has_slash a = false →
  Forall (λ c, Ascii.eqb c slash = false) (rev (list_ascii_of_string a)).
Proof. intros H. apply Forall_rev. by apply chars_free. Qed.

(** *** basename *)

Lemma basename_scan_bpmn (cs : list ascii) (i : nat) :
  basename_scan ".bpmn"
    ("n"%char :: "m"%char :: "p"%char :: "b"%char :: "."%char :: cs) i
    (Scan 0 None true (Some 4) None)
  = basename_scan ".bpmn" cs (i - 1 - 1 - 1 - 1 - 1)
      (Scan 0 (Some (i - 1 - 1 - 1 - 1)) false None (Some (i + 1))).
Proof. reflexivity. Qed.

Lemma basename_scan_rest (suffix : string) (cs : list ascii) (i s : nat)
    (e : option nat) (m : bool) (x : nat) :
  Forall (λ c, Ascii.eqb c slash = false) cs →
  basename_scan suffix cs i (Scan s e m None (Some x)) = Scan s e m None (Some x).
Proof.
  intros Hcs. revert i. induction Hcs as [|c cs Hc _ IH]; intros i.
  - reflexivity.
  - simpl. rewrite Hc. apply IH.
Qed.

(** [path.basename(file, '.bpmn')] strips the suffix off a file name. *)
Lemma basename_strips (f : string) :
  has_slash f = false → basename (f +:+ ".bpmn") ".bpmn" = f.
Proof.
  intros Hf. unfold basename.
  rewrite bool_decide_eq_true_2
    by (rewrite length_append; simpl; lia).
  destruct (decide (".bpmn" = f +:+ ".bpmn")) as [E|E].
  - apply (f_equal String.length) in E. rewrite length_append in E.
    simpl in E. destruct f; [done|simpl in E; lia].
  - assert (f ≠ "") as Hne by (by intros ->).
    rewrite chars_append, rev_app_distr.
    change (rev (list_ascii_of_string ".bpmn"))
      with ["n"%char; "m"%char; "p"%char; "b"%char; "."%char].
    cbn [app]. rewrite basename_scan_bpmn.
    rewrite basename_scan_rest.
    2:{ by apply rev_chars_free. }
    cbn [s_start s_end s_firstNonSlashEnd].
    rewrite length_append. cbn [String.length].
    replace (String.length f + 5 - 1 - 1 - 1 - 1 - 1) with (String.length f) by lia.
    rewrite decide_False.
    2:{ intros [=]. destruct f; [done|simpl in *; lia]. }
    unfold slice.
    replace (String.length f - 0) with (String.length f) by lia.
    apply substring_0_append.
Qed.

(** *** dirname *)

Lemma dirname_end_free (cs : list ascii) (i : nat) (m : bool) :
  Forall (λ c, Ascii.eqb c slash = false) cs →
  dirname_end cs i m = None.
Proof.
  intros Hcs. revert i m. induction Hcs as [|c cs Hc _ IH]; intros i m; simpl.
  - reflexivity.
  - rewrite Hc. apply IH.
Qed.

Lemma dirname_end_skip (cs rest : list ascii) (i : nat) (m : bool) :
  Forall (λ c, Ascii.eqb c slash = false) cs → cs ≠ [] →
  dirname_end (cs ++ slash :: rest) i m = Some (i - length cs).
Proof.
  intros Hcs. revert i m.
  induction Hcs as [|c cs Hc Hcs IH]; intros i m Hne; [done|].
  simpl. rewrite Hc. destruct cs as [|c' cs'].
  - simpl. f_equal.
  - rewrite IH by done. f_equal. simpl. lia.
Qed.

Lemma split_slash_singleton (q l : string) :
  split_slash q = [l] → q = l ∧ has_slash l = false.
Proof.
  revert l. induction q as [|c q IH]; intros l; simpl.
  - by intros [= <-].
  - destruct (Ascii.eqb c slash) eqn:E.
    + intros [= <- Hq]. by destruct (split_slash_nonempty q).
    + destruct (split_slash q) as [|seg segs] eqn:Es.
      { by destruct (split_slash_nonempty q). }
      intros [= <- ->]. destruct (IH seg eq_refl) as [-> Hs].
      split; [done|]. simpl. by rewrite E.
Qed.

Lemma split_slash_snoc (q : string) (init : list string) (l : string) :
  split_slash q = init ++ [l] → init ≠ [] →
  ∃ pre, q = pre +:+ String slash l ∧ split_slash pre = init ∧
         has_slash l = false.
Proof.
  revert init. induction q as [|c q IH]; intros init; simpl.
  - destruct init as [|x [|y init]]; done.
  - destruct (Ascii.eqb c slash) eqn:E.
    + apply Ascii.eqb_eq in E as ->.
      destruct init as [|x init]; [done|]. intros [= <- Hq] _.
      destruct init as [|y init].
      * apply split_slash_singleton in Hq as [-> Hl]. by exists "".
      * destruct (IH (y :: init) Hq) as (pre & -> & Hpre & Hl); [done|].
        exists (String slash pre). rewrite append_cons. simpl.
        rewrite ?Ascii.eqb_refl, Hpre. done.
    + destruct (split_slash q) as [|seg segs] eqn:Es.
      { by destruct (split_slash_nonempty q). }
      destruct init as [|x init]; [done|]. intros [= <- Hs] _.
      destruct init as [|y init].
      * simpl in Hs. subst segs.
        destruct (IH [seg]) as (pre & -> & Hpre & Hl); [done..|].
        exists (String c pre). rewrite append_cons. simpl.
        rewrite E, Hpre. done.
      * destruct (IH (seg :: y :: init)) as (pre & -> & Hpre & Hl);
          [by rewrite Hs|done|].
        exists (String c pre). rewrite append_cons. simpl.
        rewrite E, Hpre. done.
Qed.

(** What [path.dirname] gives for a path whose last segment names an
    entry: "." when that is the only segment, else what comes before the
    last '/', or "/" or "//" when nothing but that comes before. *)
Lemma dirname_split (q : string) (init : list string) (l : string) :
  split_slash q = init ++ [l] → entry_name l →
  (init = [] ∧ dirname q = ".") ∨
  (init ≠ [] ∧ dirname q ≠ "" ∧
   (split_slash (dirname q) = init ∨ split_slash (dirname q) = init ++ [""])).
Proof.
  intros Hq (Hl1 & Hl2 & Hl3).
  destruct init as [|x init].
  - left. split; [done|].
    apply split_slash_singleton in Hq as [-> Hl].
    destruct l as [|c0 tail]; [done|]. simpl in Hl.
    apply orb_false_iff in Hl as [Hc0 Htail].
    unfold dirname. rewrite dirname_end_free.
    + by rewrite Hc0.
    + by apply rev_chars_free.
  - right. split; [done|].
    destruct (split_slash_snoc q (x :: init) l Hq) as (pre & -> & Hpre & Hl);
      [done|].
    rewrite <- Hpre.
    assert (list_ascii_of_string l ≠ []) as Hlne by (by destruct l).
    destruct pre as [|c0 pre'].
    + rewrite append_nil_l. unfold dirname.
      rewrite dirname_end_free.
      * rewrite Ascii.eqb_refl. split; [done|]. by right.
      * by apply rev_chars_free.
    + rewrite append_cons. unfold dirname.
      rewrite chars_append. cbn [list_ascii_of_string].
      rewrite rev_app_distr. cbn [rev]. rewrite <- app_assoc. cbn [app].
      rewrite dirname_end_skip.
      2:{ by apply rev_chars_free. }
      2:{ intros E. apply (f_equal (@length _)) in E.
          rewrite length_rev in E. by destruct (list_ascii_of_string l). }
      rewrite length_rev, chars_length, length_append. cbn [String.length].
      replace (String.length pre' + S (String.length l) - String.length l)
        with (S (String.length pre')) by lia.
      destruct (Ascii.eqb c0 slash && (S (String.length pre') =? 1)) eqn:E.
      * apply andb_true_iff in E as [Ec Elen].
        apply Ascii.eqb_eq in Ec as ->. apply Nat.eqb_eq in Elen.
        destruct pre'; [|simpl in Elen; lia]. split; [done|]. by right.
      * unfold slice.
        replace (S (String.length pre') - 0) with (S (String.length pre')) by lia.
        change (S (String.length pre')) with (String.length (String c0 pre')).
        rewrite <- append_cons. rewrite substring_0_append.
        split; [done|]. by left.
Qed.

(** The directory part of a path whose last segment names an entry denotes
    the location one level above the path's. *)
Lemma components_dirname (q : string) (init : list string) (l : string) :
  split_slash q = init ++ [l] → entry_name l →
  Fs.components (dirname q) = foldl Fs.resolve_step [] init.
Proof.
  intros Hq Hl.
  destruct (dirname_split q init l Hq Hl) as [[-> ->]|(_ & _ & [E|E])];
    unfold Fs.components; [done|by rewrite E|].
  rewrite E, foldl_app. done.
Qed.

Lemma dirname_end_pos (cs : list ascii) (i : nat) (m : bool) (e : nat) :
  dirname_end cs i m = Some e → length cs ≤ i → 1 ≤ e.
Proof.
  revert i m. induction cs as [|c cs IH]; intros i m; simpl; [done|].
  destruct (Ascii.eqb c slash).
  - destruct m.
    + intros H Hi. apply (IH _ _ H). lia.
    + intros [= <-] Hi. lia.
  - intros H Hi. apply (IH _ _ H). lia.
Qed.

Lemma dirname_nonempty (p : string) : dirname p ≠ "".
Proof.
  unfold dirname. destruct p as [|c0 tail]; [done|].
  destruct (dirname_end _ _ _) as [e|] eqn:E.
  - destruct (Ascii.eqb c0 slash && (e =? 1)); [done|].
    apply dirname_end_pos in E.
    2:{ by rewrite length_rev, chars_length. }
    unfold slice. destruct e as [|e]; [lia|]. done.
  - by destruct (Ascii.eqb c0 slash).
Qed.

Lemma components_snoc (q : string) (init : list string) (l : string) :
  split_slash q = init ++ [l] → entry_name l →
  Fs.components q = foldl Fs.resolve_step [] init ++ [l].
Proof.
  intros Hq (Hl1 & Hl2 & Hl3). unfold Fs.components.
  rewrite Hq, foldl_app. simpl. unfold Fs.resolve_step at 1.
  rewrite decide_False by (intros [?|?]; congruence). by rewrite decide_False.
Qed.

Lemma wants_directory_entry (q : string) (init : list string) (l : string) :
  split_slash q = init ++ [l] → entry_name l → Fs.wants_directory q = false.
Proof.
  intros Hq (Hl1 & Hl2 & Hl3). unfold Fs.wants_directory.
  rewrite Hq, last_snoc. apply bool_decide_eq_false.
  intros [?|[?|?]]; congruence.
Qed.

(** *** normalize and join *)

Lemma slash_append (s : string) : "/" +:+ s = String slash s.
Proof. reflexivity. Qed.

Lemma split_slash_join_slash (segs : list string) :
  segs ≠ [] → Forall (λ seg, has_slash seg = false) segs →
  split_slash (join_slash segs) = segs.
Proof.
  induction segs as [|seg [|seg' rest] IH]; intros Hne Hall; [done| |].
  - simpl. apply split_slash_free. by inversion Hall.
  - change (join_slash (seg :: seg' :: rest))
      with (seg +:+ "/" +:+ join_slash (seg' :: rest)).
    rewrite slash_append, split_slash_append_slash.
    inversion Hall as [|? ? Hseg Hrest]; subst.
    rewrite IH by done. by rewrite (split_slash_free seg).
Qed.

Lemma join_slash_snoc_nonempty (segs : list string) (l : string) :
  l ≠ "" → join_slash (segs ++ [l]) ≠ "".
Proof.
  intros Hl. induction segs as [|seg [|seg' rest] IH]; [done| |].
  - change (join_slash ([seg] ++ [l])) with (seg +:+ "/" +:+ l).
    destruct seg; by app_simpl.
  - change (join_slash ((seg :: seg' :: rest) ++ [l]))
      with (seg +:+ "/" +:+ join_slash ((seg' :: rest) ++ [l])).
    destruct seg; by app_simpl.
Qed.

Lemma last_char_entry (p : string) (init : list string) (l : string) :
  split_slash p = init ++ [l] → l ≠ "" → trailingSeparator p = false.
Proof.
  intros Hp Hl. unfold trailingSeparator, last_char.
  assert (∃ pre, p = pre +:+ l ∧ has_slash l = false) as (pre & -> & Hfree).
  { destruct init as [|x init].
    - apply split_slash_singleton in Hp as [-> ?]. by exists "".
    - destruct (split_slash_snoc p (x :: init) l Hp) as (pre & -> & _ & ?);
        [done|].
      exists (pre +:+ "/"). by rewrite append_assoc. }
  rewrite chars_append.
  pose proof (chars_free l Hfree) as Hall.
  destruct (list_ascii_of_string l) as [|c cs] eqn:E using rev_ind.
  { by destruct l. }
  rewrite app_assoc, last_snoc.
  rewrite Forall_app, Forall_singleton in Hall. tauto.
Qed.

Lemma kept_step (allow : bool) (accN accR : list string) (seg : string) :
  kept accN accR →
  kept (normalize_step allow accN seg) (Fs.resolve_step accR seg).
Proof.
  intros (k & -> & Hall). unfold normalize_step, Fs.resolve_step.
  destruct (decide (seg = "" ∨ seg = ".")) as [|Hs]; [by exists k|].
  destruct (decide (seg = "..")) as [->|Hd].
  - destruct accR as [|x accR _] using rev_ind.
    + rewrite app_nil_r. destruct k as [|k].
      * simpl. destruct allow; [by exists 1|by exists 0].
      * replace (replicate (S k) "..") with (replicate k ".." ++ [".."])
          by (by rewrite <- replicate_S_end).
        rewrite last_snoc. rewrite decide_True by done. destruct allow.
        -- exists (S (S k)). split; [|done].
           rewrite app_nil_r. by rewrite <- !replicate_S_end.
        -- exists (S k). split; [|done].
           rewrite app_nil_r. by rewrite <- !replicate_S_end.
    + rewrite Forall_app, Forall_singleton in Hall. destruct Hall as [Hall Hx].
      rewrite app_assoc, last_snoc.
      rewrite decide_False by (destruct Hx as (_ & _ & ?); done).
      rewrite !removelast_last. by exists k.
  - exists k. split; [by rewrite app_assoc|].
    rewrite Forall_app, Forall_singleton. split; [done|].
    unfold entry_name. naive_solver.
Qed.

Lemma kept_foldl (allow : bool) (segs accN accR : list string) :
  kept accN accR →
  kept (foldl (normalize_step allow) accN segs) (foldl Fs.resolve_step accR segs).
Proof.
  revert accN accR. induction segs as [|seg segs IH]; intros accN accR H; [done|].
  simpl. apply IH. by apply kept_step.
Qed.

Lemma resolve_entries (acc names : list string) :
  Forall entry_name names → foldl Fs.resolve_step acc names = acc ++ names.
Proof.
  intros H. revert acc. induction H as [|n names (H1 & H2 & H3) _ IH]; intros acc.
  - by rewrite app_nil_r.
  - simpl. unfold Fs.resolve_step at 2.
    rewrite decide_False by (intros [?|?]; congruence).
    rewrite decide_False by done.
    rewrite IH. by rewrite <- app_assoc.
Qed.

Lemma resolve_kept (accN accR : list string) :
  kept accN accR → foldl Fs.resolve_step [] accN = accR.
Proof.
  intros (k & -> & Hall). rewrite foldl_app.
  assert (foldl Fs.resolve_step [] (replicate k "..") = []) as ->.
  { induction k as [|k IH]; [done|]. by simpl. }
  by rewrite resolve_entries.
Qed.

Lemma normalize_step_free (allow : bool) (acc : list string) (seg : string) :
  Forall (λ s, has_slash s = false) acc → has_slash seg = false →
  Forall (λ s, has_slash s = false) (normalize_step allow acc seg).
Proof.
  intros Hacc Hseg. unfold normalize_step.
  repeat case_decide; try done.
  - destruct (last acc) as [x|]; [case_decide|]; destruct allow; try done.
    + rewrite Forall_app, Forall_singleton. done.
    + destruct acc as [|y acc _] using rev_ind; [done|].
      rewrite removelast_last. rewrite Forall_app in Hacc. tauto.
    + destruct acc as [|y acc _] using rev_ind; [done|].
      rewrite removelast_last. rewrite Forall_app in Hacc. tauto.
    + by repeat constructor.
  - rewrite Forall_app, Forall_singleton. done.
Qed.

Lemma normalize_foldl_free (allow : bool) (segs acc : list string) :
  Forall (λ s, has_slash s = false) acc →
  Forall (λ s, has_slash s = false) segs →
  Forall (λ s, has_slash s = false) (foldl (normalize_step allow) acc segs).
Proof.
  revert acc. induction segs as [|seg segs IH]; intros acc Hacc Hsegs; [done|].
  inversion Hsegs; subst. simpl. apply IH; [|done].
  by apply normalize_step_free.
Qed.

(** Normalizing a path whose last segment names an entry keeps that
    segment last and keeps the location of what comes before it. *)
Lemma normalize_entry (p : string) (init : list string) (l : string) :
  split_slash p = init ++ [l] → entry_name l →
  ∃ init', split_slash (normalize p) = init' ++ [l] ∧
           foldl Fs.resolve_step [] init' = foldl Fs.resolve_step [] init.
Proof.
  intros Hp Hl. pose proof Hl as (Hl1 & Hl2 & Hl3).
  unfold normalize.
  assert (p ≠ "") as Hpne.
  { intros ->. simpl in Hp. destruct init as [|? [|? ?]]; simplify_eq/=. }
  rewrite decide_False by done.
  rewrite (last_char_entry p init l Hp Hl1).
  unfold normalizeString. rewrite Hp, foldl_app.
  set (allow := negb (isAbsolute p)).
  set (S0 := foldl (normalize_step allow) [] init).
  assert (foldl (normalize_step allow) S0 [l] = S0 ++ [l]) as ->.
  { simpl. unfold normalize_step.
    rewrite decide_False by (intros [?|?]; congruence).
    by rewrite decide_False. }
  rewrite decide_False by (by apply join_slash_snoc_nonempty).
  pose proof (split_slash_segments_free p) as Hfree.
  rewrite Hp, Forall_app, Forall_singleton in Hfree. destruct Hfree as [Hinit Hlf].
  assert (Forall (λ s, has_slash s = false) (S0 ++ [l])) as HS.
  { rewrite Forall_app, Forall_singleton. split; [|done].
    by apply normalize_foldl_free. }
  assert (kept S0 (foldl Fs.resolve_step [] init)) as HK.
  { apply kept_foldl. by exists 0. }
  destruct (isAbsolute p).
  - exists ("" :: S0). split.
    + rewrite slash_append. simpl.
      rewrite split_slash_join_slash; [done| by destruct S0 | done].
    + simpl. by apply resolve_kept.
  - exists S0. split.
    + rewrite split_slash_join_slash; [done| by destruct S0 | done].
    + by apply resolve_kept.
Qed.

(** Moreover the normalized path can be walked up to that segment as soon
    as the directories along the location are there: it goes through
    them and through nothing else. *)
Lemma normalize_entry_walk (p : string) (init : list string) (l : string) :
  split_slash p = init ++ [l] → entry_name l →
  ∃ init', split_slash (normalize p) = init' ++ [l] ∧
           foldl Fs.resolve_step [] init' = foldl Fs.resolve_step [] init ∧
           ∀ t, t !! [] = Some Fs.Directory →
                Fs.dirs_above t (foldl Fs.resolve_step [] init) →
                Fs.walk t [] init' = inr (foldl Fs.resolve_step [] init).
Proof.
  intros Hp Hl. pose proof Hl as (Hl1 & Hl2 & Hl3).
  unfold normalize.
  assert (p ≠ "") as Hpne.
  { intros ->. simpl in Hp. destruct init as [|? [|? ?]]; simplify_eq/=. }
  rewrite decide_False by done.
  rewrite (last_char_entry p init l Hp Hl1).
  unfold normalizeString. rewrite Hp, foldl_app.
  set (allow := negb (isAbsolute p)).
  set (S0 := foldl (normalize_step allow) [] init).
  assert (foldl (normalize_step allow) S0 [l] = S0 ++ [l]) as ->.
  { simpl. unfold normalize_step.
    rewrite decide_False by (intros [?|?]; congruence).
    by rewrite decide_False. }
  rewrite decide_False by (by apply join_slash_snoc_nonempty).
  pose proof (split_slash_segments_free p) as Hfree.
  rewrite Hp, Forall_app, Forall_singleton in Hfree. destruct Hfree as [Hinit Hlf].
  assert (Forall (λ s, has_slash s = false) (S0 ++ [l])) as HS.
  { rewrite Forall_app, Forall_singleton. split; [|done].
    by apply normalize_foldl_free. }
  assert (kept S0 (foldl Fs.resolve_step [] init)) as HK.
  { apply kept_foldl. by exists 0. }
  destruct (isAbsolute p).
  - exists ("" :: S0). split; [|split].
    + rewrite slash_append. simpl.
      rewrite split_slash_join_slash; [done| by destruct S0 | done].
    + simpl. by apply resolve_kept.
    + intros t Hroot Hd. simpl. by apply FsFacts.walk_kept.
  - exists S0. split; [|split].
    + rewrite split_slash_join_slash; [done| by destruct S0 | done].
    + by apply resolve_kept.
    + intros t Hroot Hd. by apply FsFacts.walk_kept.
Qed.

Lemma bpmn_entry (l : string) : entry_name (l +:+ ".bpmn").
Proof.
  repeat split; intros E; apply (f_equal String.length) in E;
    rewrite length_append in E; simpl in E; lia.
Qed.

(** What [path.join(root, name + '.bpmn')] is made of. *)
Lemma join_bpmn (root y : string) :
  ∃ p init l, Path.join root (y +:+ ".bpmn") = normalize p ∧
              split_slash p = init ++ [l +:+ ".bpmn"] ∧
              (has_slash y = false → init = match root with
                                             | "" => []
                                             | _ => split_slash root
                                             end ∧ l = y).
Proof.
  destruct (split_slash_last y) as (yi & yl & Hy).
  pose proof (split_slash_append_free y ".bpmn" yi yl Hy eq_refl) as Hyb.
  unfold Path.join.
  destruct (decide (root = "")) as [->|Hroot].
  - rewrite decide_False by (destruct y; by app_simpl).
    exists (y +:+ ".bpmn"), yi, yl. split; [done|]. split; [done|].
    intros Hfree. rewrite (split_slash_free y Hfree) in Hy.
    destruct yi as [|? [|? ?]]; by simplify_eq/=.
  - rewrite decide_False by (destruct y; by app_simpl).
    exists (root +:+ "/" +:+ y +:+ ".bpmn"), (split_slash root ++ yi), yl.
    split; [done|]. split.
    + rewrite slash_append, split_slash_append_slash, Hyb.
      by rewrite app_assoc.
    + intros Hfree. rewrite (split_slash_free y Hfree) in Hy.
      destruct yi as [|? [|? ?]]; simplify_eq/=.
      rewrite app_nil_r. by destruct root.
Qed.

(** A joined diagram path is a proper file path: not empty, not asking
    for a directory ... *)
Lemma join_bpmn_file (root y : string) :
  Path.join root (y +:+ ".bpmn") ≠ "" ∧
  Fs.wants_directory (Path.join root (y +:+ ".bpmn")) = false.
Proof.
  destruct (join_bpmn root y) as (p & init & l & -> & Hp & _).
  destruct (normalize_entry p init _ Hp (bpmn_entry l)) as (init' & Hn & _).
  split.
  - intros E. rewrite E in Hn. simpl in Hn.
    destruct (bpmn_entry l) as (Hne & _).
    destruct init' as [|? [|? ?]]; simplify_eq/=.
  - eapply wants_directory_entry; [done|apply bpmn_entry].
Qed.

(** ... and what [path.dirname] gives for it is the directory that holds
    its location. *)
Lemma join_bpmn_dirname (root y : string) :
  Fs.components (dirname (Path.join root (y +:+ ".bpmn")))
  = removelast (Fs.components (Path.join root (y +:+ ".bpmn"))).
Proof.
  destruct (join_bpmn root y) as (p & init & l & -> & Hp & _).
  destruct (normalize_entry p init _ Hp (bpmn_entry l)) as (init' & Hn & _).
  rewrite (components_dirname _ _ _ Hn (bpmn_entry l)).
  rewrite (components_snoc _ _ _ Hn (bpmn_entry l)).
  by rewrite removelast_last.
Qed.

(** A slash-free name is joined to the location of the root. *)
Lemma join_bpmn_components (root y : string) :
  has_slash y = false →
  Fs.components (Path.join root (y +:+ ".bpmn"))
  = Fs.components root ++ [y +:+ ".bpmn"].
Proof.
  intros Hy.
  destruct (join_bpmn root y) as (p & init & l & -> & Hp & Hinit).
  destruct (Hinit Hy) as [-> ->].
  destruct (normalize_entry p _ _ Hp (bpmn_entry y)) as (init' & Hn & Hres).
  rewrite (components_snoc _ _ _ Hn (bpmn_entry y)). rewrite Hres.
  by destruct root.
Qed.

(** *** Walking to a path and to its directory *)

Lemma walk_entry (t : Fs.tree) (init cur : list string) (l : string) :
  entry_name l →
  Fs.walk t cur (init ++ [l])
  = match Fs.walk t cur init with
    | inl e => inl e
    | inr k0 =>
        match t !! k0 with
        | Some Fs.Directory => inr (k0 ++ [l])
        | Some (Fs.File _) => inl Fs.ENOTDIR
        | None => inl Fs.ENOENT
        end
    end.
Proof.
  intros (H1 & H2 & H3). rewrite FsFacts.walk_app.
  destruct (Fs.walk t cur init) as [e|k0]; [done|]. simpl.
  rewrite decide_False by done.
  destruct (t !! k0) as [[c|]|]; [done| |done].
  unfold Fs.resolve_step. rewrite decide_False by (intros [?|?]; congruence).
  by rewrite decide_False.
Qed.

(** A path whose last segment names an entry can be walked exactly when
    what comes before that segment leads to a directory. *)
Lemma reaches_iff_init (t : Fs.tree) (q : string) (init : list string)
    (l : string) :
  split_slash q = init ++ [l] → entry_name l →
  Fs.resolve t q = inr (Fs.components q) ↔
  ∃ k0, Fs.walk t [] init = inr k0 ∧ t !! k0 = Some Fs.Directory.
Proof.
  intros Hq Hl.
  assert (q ≠ "") as Hne.
  { intros ->. simpl in Hq. destruct init as [|? [|? ?]]; simplify_eq/=.
    by destruct Hl. }
  unfold Fs.resolve. rewrite decide_False by done.
  rewrite Hq, (walk_entry _ _ _ _ Hl).
  rewrite (FsFacts.components_entry _ _ _ Hq Hl).
  destruct (Fs.walk t [] init) as [e|k0] eqn:Hw.
  - split; [done|]. by intros (? & [=] & _).
  - pose proof (FsFacts.walk_foldl _ _ _ _ Hw) as <-.
    destruct (t !! k0) as [[c|]|] eqn:Hk; split; try done; eauto;
      by intros (? & [= <-] & ?); simplify_eq.
Qed.

(** Two such paths that differ in the last segment only can be walked
    alike. *)
Lemma reaches_same_init (t : Fs.tree) (q q' : string) (init : list string)
    (l l' : string) :
  split_slash q = init ++ [l] → entry_name l →
  split_slash q' = init ++ [l'] → entry_name l' →
  Fs.resolve t q = inr (Fs.components q) →
  Fs.resolve t q' = inr (Fs.components q').
Proof.
  intros Hq Hl Hq' Hl' H.
  apply (reaches_iff_init t q' init l' Hq' Hl').
  by apply (reaches_iff_init t q init l Hq Hl).
Qed.

(** A path whose last segment names an entry can be walked exactly when
    its directory part exists and is a directory: what
    [_checkWriteablity] checks is what the write needs. *)
Lemma reaches_iff_dirname (t : Fs.tree) (q : string) :
  Fs.wants_directory q = false →
  Fs.resolve t q = inr (Fs.components q) ↔ Fs.is_dir t (dirname q) = true.
Proof.
  intros (init & l & Hq & Hl)%FsFacts.wants_directory_false.
  assert (q ≠ "") as Hne.
  { intros ->. simpl in Hq. destruct init as [|? [|? ?]]; simplify_eq/=.
    by destruct Hl. }
  rewrite (reaches_iff_init t q init l Hq Hl).
  rewrite FsFacts.is_dir_iff, (components_dirname _ _ _ Hq Hl).
  unfold Fs.resolve.
  destruct (dirname_split q init l Hq Hl) as [[-> ->]|(Hi & Hd & [E|E])].
  - simpl. destruct (t !! []) as [[c|]|] eqn:Hr; split.
    + by intros (? & [= <-] & ?); simplify_eq.
    + by intros [[=] _].
    + intros _. done.
    + intros _. eauto.
    + by intros (? & [= <-] & ?); simplify_eq.
    + by intros [[=] _].
  - rewrite decide_False by done. rewrite E. split.
    + intros (k0 & Hw & Hk). pose proof (FsFacts.walk_foldl _ _ _ _ Hw) as <-.
      done.
    + intros [Hw Hk]. eauto.
  - rewrite decide_False by done. rewrite E, FsFacts.walk_app.
    destruct (Fs.walk t [] init) as [e|k0] eqn:Hw; simpl.
    + split; [by intros (? & [=] & _)|by intros [[=] _]].
    + pose proof (FsFacts.walk_foldl _ _ _ _ Hw) as <-. split.
      * intros (? & [= <-] & ?). done.
      * intros [_ ?]. eauto.
Qed.

(** A joined diagram path can be walked when the directories along its
    location are there. *)
Lemma join_bpmn_reaches (t : Fs.tree) (root y : string) :
  t !! [] = Some Fs.Directory →
  Fs.dirs_above t (Fs.components (Path.join root (y +:+ ".bpmn"))) →
  Fs.resolve t (Path.join root (y +:+ ".bpmn"))
  = inr (Fs.components (Path.join root (y +:+ ".bpmn"))).
Proof.
  intros Hroot Hd.
  destruct (join_bpmn_file root y) as [Hne _].
  destruct (join_bpmn root y) as (p & init & l & E & Hp & _).
  rewrite E in *.
  destruct (normalize_entry_walk p init _ Hp (bpmn_entry l))
    as (init' & Hn & Hres & Hwalk).
  rewrite (components_snoc _ _ _ Hn (bpmn_entry l)) in *. rewrite Hres in *.
  apply FsFacts.dirs_above_last in Hd as [Hd Hl].
  unfold Fs.resolve. rewrite decide_False by done.
  rewrite Hn, (walk_entry _ _ _ _ (bpmn_entry l)).
  rewrite (Hwalk t Hroot Hd). by rewrite Hl.
Qed.

(** Below a directory that was found, a slash-free name can be walked
    to. *)
Lemma join_bpmn_in_dir (t : Fs.tree) (root y : string) :
  has_slash y = false → Fs.is_dir t root = true →
  Fs.resolve t (Path.join root (y +:+ ".bpmn"))
  = inr (Fs.components root ++ [y +:+ ".bpmn"]).
Proof.
  intros Hy Hdir.
  destruct (FsFacts.is_dir_dirs_above _ _ Hdir) as [Hroot Hd].
  apply FsFacts.is_dir_lookup in Hdir as [_ Hl].
  rewrite <- (join_bpmn_components root y Hy).
  apply join_bpmn_reaches; [done|].
  rewrite (join_bpmn_components root y Hy).
  by apply FsFacts.dirs_above_snoc.
Qed.

End PathFacts.

(** ** saveDiagram *)

Module Save.
Import JS Shared Run FsFacts.

Lemma save_at_ok (p : string) (d : IDiagram) (w : world) (t' : Fs.tree) :
  Fs.is_dir (disk w) (Path.dirname p) = true →
  Fs.writeFile (disk w) p (xml d) = inr t' →
  save_at p d w = (Resolved tt, World (this w) t').
Proof.
  intros Hdir Hw. unfold save_at, _checkWriteablity, bind.
  rewrite (checkForDirectory_ok _ _ Hdir).
  unfold write_diagram, catch, _writeFile, lift_write. by rewrite Hw.
Qed.

Lemma save_at_write_fails (p : string) (d : IDiagram) (w : world) (e : Fs.errno) :
  Fs.is_dir (disk w) (Path.dirname p) = true →
  Fs.writeFile (disk w) p (xml d) = inl e →
  save_at p d w =
    (Rejected (InternalServerError "Unable to save diagram." (SystemError e)), w).
Proof.
  intros Hdir Hw. unfold save_at, _checkWriteablity, bind.
  rewrite (checkForDirectory_ok _ _ Hdir).
  unfold write_diagram, catch, _writeFile, lift_write. by rewrite Hw.
Qed.

Lemma save_at_check_fails (p : string) (d : IDiagram) (w : world) :
  Fs.is_dir (disk w) (Path.dirname p) = false →
  ∃ e, save_at p d w = (Rejected e, w) ∧
       is_InternalServerError e = false.
Proof.
  intros Hdir. unfold save_at, _checkWriteablity, bind.
  destruct (checkForDirectory_fails _ _ Hdir) as (e & -> & H1 & H2).
  exists e. split; [done|]. destruct e; try done.
  simpl in *. by destruct (Fs.existsSync _ _).
Qed.

(** A failed save writes nothing. *)
Lemma save_at_rejected (p : string) (d : IDiagram) (w w' : world) (e : error) :
  save_at p d w = (Rejected e, w') → w' = w.
Proof.
  destruct (Fs.is_dir (disk w) (Path.dirname p)) eqn:Hdir.
  - destruct (Fs.writeFile (disk w) p (xml d)) as [e'|t'] eqn:Hw.
    + rewrite (save_at_write_fails _ _ _ _ Hdir Hw). by intros [= _ <-].
    + by rewrite (save_at_ok _ _ _ _ Hdir Hw).
  - destruct (save_at_check_fails _ d _ Hdir) as (e' & -> & _). by intros [= _ <-].
Qed.

Lemma save_at_resolved (p : string) (d : IDiagram) (w w' : world) :
  save_at p d w = (Resolved tt, w') →
  Fs.is_dir (disk w) (Path.dirname p) = true ∧
  Fs.writeFile (disk w) p (xml d) = inr (disk w') ∧ this w' = this w.
Proof.
  destruct (Fs.is_dir (disk w) (Path.dirname p)) eqn:Hdir.
  - destruct (Fs.writeFile (disk w) p (xml d)) as [e'|t'] eqn:Hw.
    + by rewrite (save_at_write_fails _ _ _ _ Hdir Hw).
    + rewrite (save_at_ok _ _ _ _ Hdir Hw). by intros [= <-].
  - by destruct (save_at_check_fails _ d _ Hdir) as (e' & -> & _).
Qed.


(** How the three revisions choose the path. *)
Lemma RevA_save_run (d : IDiagram) (newPathSpec : option string) (w : world) :
  await (RevA.saveDiagram d newPathSpec) w
  = save_at (default (uri d) newPathSpec) d w.
Proof.
  unfold RevA.saveDiagram, save_at, await, await_then, bind, ret.
  destruct newPathSpec; simpl;
    by destruct (_checkWriteablity _ w) as [[[]|e] w'].
Qed.

Lemma RevB_save_newPath (d : IDiagram) (newPath : string) (w : world) :
  await (RevB.saveDiagram d (Some newPath)) w = save_at newPath d w.
Proof.
  unfold RevB.saveDiagram, save_at, await, await_then, bind, ret.
  by destruct (_checkWriteablity _ w) as [[[]|e] w'].
Qed.

Lemma RevB_save_kept (d : IDiagram) (w : world) (root : string) :
  _basePath (this w) = Some root →
  Path.join root (name d +:+ ".bpmn") = uri d →
  await (RevB.saveDiagram d None) w = save_at (uri d) d w.
Proof.
  intros Hroot Huri.
  unfold RevB.saveDiagram, save_at, await, await_then, bind, ret, get_field,
    path_join.
  rewrite Hroot. unfold ret. rewrite bool_decide_eq_false_2 by (by intros ?).
  by destruct (_checkWriteablity _ w) as [[[]|e] w'].
Qed.

Lemma RevB_save_moved (d : IDiagram) (w : world) (root : string) :
  _basePath (this w) = Some root →
  Path.join root (name d +:+ ".bpmn") ≠ uri d →
  await (RevB.saveDiagram d None) w =
    (Rejected (BadRequestError
       "Target Location (URI) of diagram was changed; Moving a diagram is currently not supported."),
     w).
Proof.
  intros Hroot Huri.
  unfold RevB.saveDiagram, await, bind, ret, get_field, path_join.
  rewrite Hroot. unfold ret. by rewrite bool_decide_eq_true_2.
Qed.

(** RevC's [saveDiagram] is RevB's, word for word. *)
Lemma RevC_save_is_RevB : RevC.saveDiagram = RevB.saveDiagram.
Proof. reflexivity. Qed.

(** C1 (as amended).  With a root opened and no newPath: RevB and RevC
    reject a diagram whose uri differs from join(root, name + '.bpmn') with
    BadRequest and leave the world as it was.  In every revision, once the
    path is chosen (the newPath if given; else the uri, which RevB and RevC
    take only if it equals the joined path), and the directory of that path
    is a directory and the file system takes the write, the save resolves
    and the path holds the diagram's xml, whatever it held before. *)
Theorem saveDiagram_guard_and_write (d : IDiagram) (w : world) (root : string) :
  _basePath (this w) = Some root →
  (Path.join root (name d +:+ ".bpmn") ≠ uri d →
     ∃ m, await (RevB.saveDiagram d None) w = (Rejected (BadRequestError m), w) ∧
          await (RevC.saveDiagram d None) w = (Rejected (BadRequestError m), w)) ∧
  (∀ target t',
     Fs.is_dir (disk w) (Path.dirname target) = true →
     Fs.writeFile (disk w) target (xml d) = inr t' →
     Fs.readFile t' target = inr (xml d) ∧
     await (RevA.saveDiagram d (Some target)) w = (Resolved tt, World (this w) t') ∧
     await (RevB.saveDiagram d (Some target)) w = (Resolved tt, World (this w) t') ∧
     await (RevC.saveDiagram d (Some target)) w = (Resolved tt, World (this w) t') ∧
     (target = uri d →
        await (RevA.saveDiagram d None) w = (Resolved tt, World (this w) t')) ∧
     (target = uri d → Path.join root (name d +:+ ".bpmn") = uri d →
        await (RevB.saveDiagram d None) w = (Resolved tt, World (this w) t') ∧
        await (RevC.saveDiagram d None) w = (Resolved tt, World (this w) t'))).
Proof.
  intros Hroot. split.
  - intros Hmoved. eexists. rewrite RevC_save_is_RevB.
    split; by apply (RevB_save_moved d w root).
  - intros target t' Hdir Hw.
    pose proof (save_at_ok _ _ _ _ Hdir Hw) as Hsave.
    rewrite RevC_save_is_RevB.
    repeat split.
    + by apply writeFile_read in Hw.
    + by rewrite RevA_save_run.
    + by rewrite RevB_save_newPath.
    + by rewrite RevB_save_newPath.
    + intros ->. by rewrite RevA_save_run.
    + subst target. by rewrite (RevB_save_kept d w root).
    + subst target. by rewrite (RevB_save_kept d w root).
Qed.

Lemma saveDiagram_guard_and_write_witness :
  (∃ m, await (RevB.saveDiagram Examples.moved_diagram None) Examples.world0
        = (Rejected (BadRequestError m), Examples.world0)) ∧
  await (RevB.saveDiagram (Diagram "x" "/r/x.bpmn" "NEW" None) None) Examples.world0
  = (Resolved tt,
     World (this Examples.world0)
       (Fs.mkfile ["r"; "x.bpmn"] "NEW" Examples.tree0)).
Proof.
  split.
  - destruct (saveDiagram_guard_and_write Examples.moved_diagram Examples.world0
                "/r" eq_refl) as [Hguard _].
    destruct Hguard as (m & Hm & _); [by_evaluation|]. by exists m.
  - destruct (saveDiagram_guard_and_write (Diagram "x" "/r/x.bpmn" "NEW" None)
                Examples.world0 "/r" eq_refl) as [_ Hwrite].
    destruct (Hwrite "/r/x.bpmn" (Fs.mkfile ["r"; "x.bpmn"] "NEW" Examples.tree0))
      as (_ & _ & _ & _ & _ & HB); [by_evaluation..|].
    apply HB; by_evaluation.
Defined.

(** C1, as stated, fails on RevA: it has no comparison.  A diagram named x
    whose uri points into the trash folder, saved with no newPath on a
    store opened at /r, is written to its uri.  And where the comparison is
    bypassed by a newPath, the write still depends on the directory: into
    a directory that does not exist nothing is written. *)
Lemma saveDiagram_guard_counterexample :
  Path.join "/r" (name Examples.moved_diagram +:+ ".bpmn")
    ≠ uri Examples.moved_diagram ∧
  await (RevA.saveDiagram Examples.moved_diagram None) Examples.world0
  = (Resolved tt,
     World (this Examples.world0)
       (Fs.mkfile ["trash"; "x.bpmn"] "NEW" Examples.tree0)) ∧
  Fs.readFile Examples.tree0 "/trash/x.bpmn" = inr "old" ∧
  Fs.readFile (Fs.mkfile ["trash"; "x.bpmn"] "NEW" Examples.tree0) "/trash/x.bpmn"
  = inr "NEW" ∧
  await (RevB.saveDiagram Examples.x_diagram (Some "/nowhere/x.bpmn")) Examples.world0
  = (Rejected (NotFoundError "'/nowhere' does not exist."), Examples.world0).
Proof. by_evaluation. Qed.






End Save.

(** ** The search for a free trash name *)

Module Unused.
Import JS Shared JSFacts FsFacts PathFacts.
Import Fs (entry_name).

Lemma pretty_N_go_suffix (x : N) (s : string) :
  ∃ pre, pretty_N_go x s = pre +:+ s.
Proof.
  revert s. induction (N.lt_wf_0 x) as [x _ IH]; intros s.
  assert (x = 0 ∨ 0 < x)%N as [->|?] by lia.
  - exists "". by rewrite pretty_N_go_0.
  - rewrite pretty_N_go_step by done.
    destruct (IH (x `div` 10)%N (N.div_lt x 10 ltac:(done) ltac:(done))
                (String (pretty_N_char (x `mod` 10)) s)) as [pre ->].
    exists (pre +:+ String (pretty_N_char (x `mod` 10)) "").
    by rewrite append_assoc.
Qed.

(** A printed number is neither empty nor a dot. *)
Lemma show_plain (n : nat) : show n ≠ "" ∧ show n ≠ ".".
Proof.
  unfold show, pretty, pretty_nat, pretty, pretty_N.
  case_decide; [done|].
  rewrite pretty_N_go_step by lia.
  destruct (pretty_N_go_suffix (N.of_nat n `div` 10)
              (String (pretty_N_char (N.of_nat n `mod` 10)) "")) as [pre ->].
  split.
  - destruct pre; by app_simpl.
  - destruct pre as [|c pre]; app_simpl.
    + intros E. apply (f_equal (String.get 0)) in E. simpl in E.
      revert E. unfold pretty_N_char. by repeat case_match.
    + intros E. apply (f_equal String.length) in E.
      simpl in E. rewrite length_append in E. simpl in E. lia.
Qed.

Lemma numbered_entry (l : string) (n : nat) : entry_name (l +:+ "." +:+ show n).
Proof.
  destruct (show_plain n) as [H1 H2].
  assert (String.length (show n) ≠ 0) as Hlen by (by destruct (show n)).
  repeat split; intros E.
  - destruct l; by app_simpl.
  - apply (f_equal String.length) in E. rewrite !length_append in E.
    simpl in E. lia.
  - destruct l as [|c l].
    + app_simpl. by simplify_eq.
    + apply (f_equal String.length) in E. rewrite !length_append in E.
      simpl in E. lia.
Qed.

Lemma has_slash_show (n : nat) : has_slash ("." +:+ show n) = false.
Proof.
  assert (∀ x s, has_slash s = false → has_slash (pretty_N_go x s) = false) as Hgo.
  { intros x. induction (N.lt_wf_0 x) as [x _ IH]; intros s Hs.
    assert (x = 0 ∨ 0 < x)%N as [->|?] by lia.
    - by rewrite pretty_N_go_0.
    - rewrite pretty_N_go_step by done. apply IH.
      + by apply N.div_lt.
      + simpl. rewrite Hs, orb_false_r.
        unfold pretty_N_char. by repeat case_match. }
  app_simpl. unfold show, pretty, pretty_nat, pretty, pretty_N.
  case_decide; [done|]. by apply Hgo.
Qed.

(** Where the numbered candidates lie: next to the desired name. *)
Lemma candidate_components (desired : string) (init : list string) (l : string)
    (n : nat) :
  split_slash desired = init ++ [l] →
  split_slash (candidate desired (S n)) = init ++ [l +:+ "." +:+ show (S n)].
Proof.
  intros Hd. unfold candidate.
  by apply split_slash_append_free; [|apply has_slash_show].
Qed.

Lemma candidate_inj (desired : string) (n m : nat) :
  Fs.components (candidate desired (S n)) = Fs.components (candidate desired (S m)) →
  n = m.
Proof.
  destruct (split_slash_last desired) as (init & l & Hd).
  rewrite (components_snoc _ _ _ (candidate_components _ _ _ n Hd)
             (numbered_entry l (S n))).
  rewrite (components_snoc _ _ _ (candidate_components _ _ _ m Hd)
             (numbered_entry l (S m))).
  intros [_ E]%app_inj_tail.
  apply append_inv_head in E. apply append_inv_head in E.
  apply show_inj in E. lia.
Qed.

(** A finite tree leaves one of the first [size + 1] numbered names free. *)
Lemma some_candidate_free (t : Fs.tree) (desired : string) :
  ∃ n, n ≤ size t + 1 ∧ Fs.existsSync t (candidate desired n) = false.
Proof.
  set (used := λ i, Fs.existsSync t (candidate desired (S i)) = true).
  set (free := λ i, Fs.existsSync t (candidate desired (S i)) = false).
  destruct (Forall_Exists_dec used free
              (λ i, match Fs.existsSync t (candidate desired (S i)) as b
                          return {b = true} + {b = false} with
                    | true => left eq_refl
                    | false => right eq_refl
                    end) (seq 0 (size t + 1))) as [Hall|Hex].
  - exfalso.
    set (keys := (λ i, Fs.components (candidate desired (S i))) <$> seq 0 (size t + 1)).
    assert (NoDup keys) as Hnd.
    { apply NoDup_fmap_2_strong; [|apply NoDup_seq].
      intros x y _ _. apply candidate_inj. }
    assert (keys ⊆+ (map_to_list t).*1) as Hsub.
    { apply NoDup_submseteq; [done|]. intros k Hk.
      apply list_elem_of_fmap in Hk as (i & -> & Hi).
      rewrite Forall_forall in Hall.
      destruct (existsSync_lookup _ _ (Hall i Hi)) as [_ [v Hv]].
      apply list_elem_of_fmap. exists (Fs.components (candidate desired (S i)), v).
      split; [done|]. by apply elem_of_map_to_list. }
    apply submseteq_length in Hsub.
    unfold keys in Hsub.
    rewrite !length_fmap, length_seq, length_map_to_list in Hsub. lia.
  - apply Exists_exists in Hex as (i & Hi & Hfree).
    apply elem_of_seq in Hi. exists (S i). split; [lia|done].
Qed.

Lemma least_free (P : nat → bool) (n : nat) :
  P n = false → ∃ m, m ≤ n ∧ P m = false ∧ ∀ i, i < m → P i = true.
Proof.
  induction n as [n IH] using lt_wf_ind. intros Hn.
  destruct (Forall_Exists_dec (λ i, P i = true) (λ i, P i = false)
              (λ i, match P i as b return {b = true} + {b = false} with
                    | true => left eq_refl
                    | false => right eq_refl
                    end) (seq 0 n)) as [Hall|Hex].
  - exists n. split; [done|]. split; [done|].
    intros i Hi. rewrite Forall_forall in Hall. apply Hall.
    apply elem_of_seq. lia.
  - apply Exists_exists in Hex as (i & Hi & Hfree).
    apply elem_of_seq in Hi.
    destruct (IH i ltac:(lia) Hfree) as (m & Hm & Hmf & Hlow).
    exists m. split; [lia|done].
Qed.

(** The lowest free candidate, which exists. *)
Lemma lowest_candidate (t : Fs.tree) (desired : string) :
  ∃ n, n ≤ size t + 1 ∧
       Fs.existsSync t (candidate desired n) = false ∧
       ∀ i, i < n → Fs.existsSync t (candidate desired i) = true.
Proof.
  destruct (some_candidate_free t desired) as (n & Hn & Hfree).
  destruct (least_free (λ i, Fs.existsSync t (candidate desired i)) n Hfree)
    as (m & Hm & Hmf & Hlow).
  exists m. split; [lia|done].
Qed.

(** The loop of [_findUnusedFilename] stops at the lowest free candidate. *)
Lemma findUnused_loop_finds (t : Fs.tree) (desired : string) (n : nat) :
  Fs.existsSync t (candidate desired n) = false →
  (∀ i, i < n → Fs.existsSync t (candidate desired i) = true) →
  ∀ fuel j, j ≤ n → n - j < fuel →
  RevA.findUnused_loop fuel t desired (candidate desired j) (S j)
  = Some (candidate desired n).
Proof.
  intros Hfree Hused fuel.
  induction fuel as [|fuel IH]; intros j Hj Hfuel; [lia|].
  simpl. destruct (decide (j = n)) as [->|Hne].
  - by rewrite Hfree.
  - rewrite Hused by lia. apply (IH (S j)); lia.
Qed.

(** [_findUnusedFilename] returns, and what it returns is the lowest free
    candidate. *)
Lemma findUnusedFilename_lowest (desired : string) (w : world) :
  ∃ n, RevA._findUnusedFilename desired w = (Resolved (candidate desired n), w) ∧
       Fs.existsSync (disk w) (candidate desired n) = false ∧
       ∀ i, i < n → Fs.existsSync (disk w) (candidate desired i) = true.
Proof.
  destruct (lowest_candidate (disk w) desired) as (n & Hn & Hfree & Hused).
  exists n. split; [|done].
  unfold RevA._findUnusedFilename.
  change desired with (candidate desired 0) at 2.
  rewrite (findUnused_loop_finds _ _ n Hfree Hused); [done|lia..].
Qed.

End Unused.

(** ** deleteDiagram *)

Module Delete.
Import JS Shared Run JSFacts FsFacts PathFacts Unused.

Lemma RevA_delete_rejected (d : IDiagram) (w : world) (e : error) :
  fst (_checkForDirectory (_trashFolderLocation (this w)) w) = Rejected e →
  RevA.deleteDiagram d w = (Rejected (BadRequestError "Trash folder is not writeable."), w).
Proof.
  intros H. unfold RevA.deleteDiagram, bind, get_field, catch, throw.
  rewrite checkForDirectory_run in *. simpl in *. by rewrite H.
Qed.

Lemma RevB_delete_rejected (d : IDiagram) (w : world) (e : error) :
  fst (_checkForDirectory (_trashFolderLocation (this w)) w) = Rejected e →
  RevB.deleteDiagram d w = (Rejected (BadRequestError "Trash folder is not writeable."), w).
Proof.
  intros H. unfold RevB.deleteDiagram, bind, get_field, catch, throw.
  rewrite checkForDirectory_run in *. simpl in *. by rewrite H.
Qed.

(** C8.  Whatever makes the check of the trash folder fail, [deleteDiagram]
    rejects with BadRequest, and the world is as before: nothing was
    renamed. *)
Theorem deleteDiagram_trash_check (d : IDiagram) (w : world) (e : error) :
  fst (_checkForDirectory (_trashFolderLocation (this w)) w) = Rejected e →
  RevA.deleteDiagram d w = (Rejected (BadRequestError "Trash folder is not writeable."), w) ∧
  RevB.deleteDiagram d w = (Rejected (BadRequestError "Trash folder is not writeable."), w).
Proof.
  intros H. split.
  - by apply (RevA_delete_rejected d w e).
  - by apply (RevB_delete_rejected d w e).
Qed.

(** The check fails with NotFound on a missing trash folder and with
    BadRequest on one that is a regular file; both end as BadRequest. *)
Lemma deleteDiagram_trash_check_witness :
  is_NotFound (NotFoundError "'/nowhere' does not exist.") = true ∧
  (RevA.deleteDiagram Examples.x_diagram Examples.world_no_trash
   = (Rejected (BadRequestError "Trash folder is not writeable."), Examples.world_no_trash) ∧
   RevB.deleteDiagram Examples.x_diagram Examples.world_no_trash
   = (Rejected (BadRequestError "Trash folder is not writeable."), Examples.world_no_trash)) ∧
  (RevA.deleteDiagram Examples.x_diagram Examples.world_trash_file
   = (Rejected (BadRequestError "Trash folder is not writeable."), Examples.world_trash_file) ∧
   RevB.deleteDiagram Examples.x_diagram Examples.world_trash_file
   = (Rejected (BadRequestError "Trash folder is not writeable."), Examples.world_trash_file)).
Proof.
  split; [reflexivity|]. split.
  - apply (deleteDiagram_trash_check Examples.x_diagram Examples.world_no_trash
             (NotFoundError "'/nowhere' does not exist.")).
    by_evaluation.
  - apply (deleteDiagram_trash_check Examples.x_diagram Examples.world_trash_file
             (BadRequestError "'/r/b.txt' is not a directory.")).
    by_evaluation.
Defined.

(** Every candidate for a diagram's trash name is a file path in the
    directory of the desired name. *)
Lemma candidate_file (trash y : string) (n : nat) :
  let desired := Path.join trash (y +:+ ".bpmn") in
  candidate desired n ≠ "" ∧
  Fs.wants_directory (candidate desired n) = false ∧
  removelast (Fs.components (candidate desired n))
  = Fs.components (Path.dirname desired).
Proof.
  intros desired.
  destruct (join_bpmn trash y) as (p & init & l & Hj & Hp & _).
  destruct (normalize_entry p init _ Hp (bpmn_entry l)) as (init' & Hn & _).
  fold desired in Hj. rewrite <- Hj in Hn.
  pose proof (components_dirname _ _ _ Hn (bpmn_entry l)) as Hdir.
  destruct n as [|n].
  - simpl. destruct (join_bpmn_file trash y) as [H1 H2].
    split; [done|]. split; [done|].
    rewrite (components_snoc _ _ _ Hn (bpmn_entry l)), Hdir.
    by rewrite removelast_last.
  - pose proof (candidate_components _ _ _ n Hn) as Hc.
    pose proof (numbered_entry (l +:+ ".bpmn") (S n)) as He.
    split.
    { intros E. rewrite E in Hc. simpl in Hc.
      destruct He as (He & _). destruct init' as [|? [|? ?]]; simplify_eq/=. }
    split; [by eapply wants_directory_entry|].
    rewrite (components_snoc _ _ _ Hc He), Hdir. by rewrite removelast_last.
Qed.

(** A candidate can be walked to when the desired name can. *)
Lemma candidate_reaches (t : Fs.tree) (trash y : string) (n : nat) :
  let desired := Path.join trash (y +:+ ".bpmn") in
  Fs.is_dir t (Path.dirname desired) = true →
  Fs.resolve t (candidate desired n) = inr (Fs.components (candidate desired n)).
Proof.
  intros desired Hdir.
  destruct (join_bpmn_file trash y) as [_ Hwd]. fold desired in Hwd.
  apply (reaches_iff_dirname t desired Hwd) in Hdir.
  destruct n as [|n]; [done|].
  destruct (join_bpmn trash y) as (p & init & l & Hj & Hp & _).
  destruct (normalize_entry p init _ Hp (bpmn_entry l)) as (init' & Hn & _).
  fold desired in Hj. rewrite <- Hj in Hn.
  pose proof (candidate_components _ _ _ n Hn) as Hc.
  pose proof (numbered_entry (l +:+ ".bpmn") (S n)) as He.
  by apply (reaches_same_init t desired _ init' _ _ Hn (bpmn_entry l) Hc He).
Qed.



(** C2 on RevB.  With x.bpmn in the trash folder and x.bpmn.1 free, RevB
    moves the diagram to x.bpmn.2, where RevA moves it to x.bpmn.1; and
    when x.bpmn.2 is taken, RevB replaces it. *)
Theorem RevB_deleteDiagram_skips_free_name :
  Fs.existsSync Examples.tree0 "/trash/x.bpmn" = true ∧
  Fs.existsSync Examples.tree0 "/trash/x.bpmn.1" = false ∧
  RevB.deleteDiagram Examples.x_diagram Examples.world0
  = (Resolved tt,
     World (this Examples.world0)
       (Fs.mkfile ["trash"; "x.bpmn.2"] "A"
          (delete ["r"; "x.bpmn"] Examples.tree0))) ∧
  RevA.deleteDiagram Examples.x_diagram Examples.world0
  = (Resolved tt,
     World (this Examples.world0)
       (Fs.mkfile ["trash"; "x.bpmn.1"] "A"
          (delete ["r"; "x.bpmn"] Examples.tree0))) ∧
  Fs.readFile Examples.tree_gap "/trash/x.bpmn.2" = inr "kept" ∧
  RevB.deleteDiagram Examples.x_diagram Examples.world_gap
  = (Resolved tt,
     World (this Examples.world_gap)
       (Fs.mkfile ["trash"; "x.bpmn.2"] "A"
          (delete ["r"; "x.bpmn"] Examples.tree_gap))).
Proof. by_evaluation. Qed.

End Delete.

(** ** renameDiagram *)

Module Rename.
Import JS Shared Run JSFacts FsFacts PathFacts.

(** The directory of an existing diagram path is a directory: the walk
    to the path went through it. *)
Lemma exists_dirname_is_dir (t : Fs.tree) (root y : string) :
  Fs.existsSync t (Path.join root (y +:+ ".bpmn")) = true →
  Fs.is_dir t (Path.dirname (Path.join root (y +:+ ".bpmn"))) = true.
Proof.
  intros Hr%existsSync_reaches.
  destruct (join_bpmn_file root y) as [_ Hwd].
  by apply (reaches_iff_dirname t _ Hwd).
Qed.

(** A slash-free name is joined into the root directory. *)
Lemma is_dir_join_dirname (t : Fs.tree) (root y : string) :
  has_slash y = false → Fs.is_dir t root = true →
  Fs.is_dir t (Path.dirname (Path.join root (y +:+ ".bpmn"))) = true.
Proof.
  intros Hy Hroot.
  destruct (join_bpmn_file root y) as [_ Hwd].
  apply (reaches_iff_dirname t _ Hwd).
  rewrite (join_bpmn_in_dir t root y Hy Hroot).
  by rewrite (join_bpmn_components root y Hy).
Qed.






Lemma getDiagramByName_run (n : string) (w : world) (root c : string) :
  _basePath (this w) = Some root →
  Fs.readFile (disk w) (Path.join root (n +:+ ".bpmn")) = inr c →
  getDiagramByName n w =
    (Resolved (Diagram n (Path.join root (n +:+ ".bpmn")) c
                 (Some (Path.join root (n +:+ ".bpmn")))), w).
Proof.
  intros Hroot Hc.
  unfold getDiagramByName, bind, get_field, path_join. cbv beta iota.
  rewrite Hroot. unfold ret, _readFile, lift_read. cbv beta iota.
  by rewrite Hc.
Qed.




End Rename.

(** ** Promise.all *)

Module Batch.
Import Shared.

(** *** One call comes back *)

Lemma run_nth_step {A} (n : nat) (slots slots' : list (slot A)) (w w' : world)
    (r : result A) :
  run_nth n slots w = Some (r, slots', w') →
  ∃ l1 io l2, slots = l1 ++ Waiting io :: l2 ∧ io w = (r, w') ∧
              slots' = l1 ++ Done r :: l2.
Proof.
  revert n slots'. induction slots as [|[io|r0] slots IH]; intros n slots'; simpl.
  - done.
  - destruct n as [|n].
    + destruct (io w) as [r1 w1] eqn:E. intros [= <- <- <-].
      by exists [], io, slots.
    + destruct (run_nth n slots w) as [[[r1 s1] w1]|] eqn:E; [|done].
      intros [= <- <- <-].
      destruct (IH _ _ E) as (l1 & io' & l2 & -> & Hio & ->).
      by exists (Waiting io :: l1), io', l2.
  - destruct (run_nth n slots w) as [[[r1 s1] w1]|] eqn:E; [|done].
    intros [= <- <- <-].
    destruct (IH _ _ E) as (l1 & io' & l2 & -> & Hio & ->).
    by exists (Done r0 :: l1), io', l2.
Qed.

Lemma run_nth_0_None {A} (slots : list (slot A)) (w : world) :
  run_nth 0 slots w = None → count_waiting slots = 0.
Proof.
  induction slots as [|[io|r0] slots IH]; simpl; [done| |].
  - by destruct (io w).
  - destruct (run_nth 0 slots w) as [[[? ?] ?]|]; [done|]. auto.
Qed.

Lemma turn_step {A} (n : nat) (slots slots' : list (slot A)) (w w' : world)
    (r : result A) :
  turn n slots w = Some (r, slots', w') →
  ∃ l1 io l2, slots = l1 ++ Waiting io :: l2 ∧ io w = (r, w') ∧
              slots' = l1 ++ Done r :: l2.
Proof.
  unfold turn. destruct (run_nth n slots w) as [x|] eqn:E.
  - intros [= ->]. by apply (run_nth_step n).
  - apply run_nth_step.
Qed.

Lemma turn_None {A} (n : nat) (slots : list (slot A)) (w : world) :
  turn n slots w = None → count_waiting slots = 0.
Proof.
  unfold turn. destruct (run_nth n slots w); [done|]. apply run_nth_0_None.
Qed.

Lemma count_waiting_app {A} (l1 l2 : list (slot A)) :
  count_waiting (l1 ++ l2) = count_waiting l1 + count_waiting l2.
Proof.
  induction l1 as [|[io|r] l1 IH]; simpl; [done|by rewrite IH|done].
Qed.

Lemma count_waiting_0 {A} (slots : list (slot A)) :
  count_waiting slots = 0 ↔ ∀ io, Waiting io ∉ slots.
Proof.
  induction slots as [|[io|r] slots IH]; simpl.
  - split; [|done]. intros _ io. apply not_elem_of_nil.
  - split; [done|]. intros H. destruct (H io). left.
  - rewrite IH. split.
    + intros H io [?|?]%elem_of_cons; [done|]. by apply (H io).
    + intros H io Hin. apply (H io). by right.
Qed.

(** *** The turns *)

(** What every turn keeps is kept by the turns. *)
Lemma run_io_inv {A} (I : list (slot A) → world → Prop) :
  (∀ l1 io l2 w r w',
     I (l1 ++ Waiting io :: l2) w → io w = (r, w') →
     I (l1 ++ Done r :: l2) w') →
  ∀ turns order slots w rs slots' w',
    I slots w → run_io turns order slots w = (rs, slots', w') → I slots' w'.
Proof.
  intros Hstep turns.
  induction turns as [|turns IH]; intros order slots w rs slots' w' HI; simpl.
  - by intros [= _ <- <-].
  - destruct (turn (hd 0 order) slots w) as [[[r s1] w1]|] eqn:E.
    + destruct (turn_step _ _ _ _ _ _ E) as (l1 & io & l2 & -> & Hio & ->).
      destruct (run_io turns (tl order) _ w1) as [[rs2 s2] w2] eqn:E2.
      intros [= _ <- <-]. eapply IH; [|exact E2]. by eapply Hstep.
    + by intros [= _ <- <-].
Qed.

(** With a turn for every waiting call, none is left waiting. *)
Lemma run_io_all_done {A} (turns : nat) (order : list nat)
    (slots slots' : list (slot A)) (w w' : world) (rs : list (result A)) :
  count_waiting slots ≤ turns →
  run_io turns order slots w = (rs, slots', w') →
  count_waiting slots' = 0.
Proof.
  revert order slots w rs slots' w'.
  induction turns as [|turns IH]; intros order slots w rs slots' w' Hn; simpl.
  - intros [= _ <- _]. lia.
  - destruct (turn (hd 0 order) slots w) as [[[r s1] w1]|] eqn:E.
    + destruct (turn_step _ _ _ _ _ _ E) as (l1 & io & l2 & -> & Hio & ->).
      destruct (run_io turns (tl order) _ w1) as [[rs2 s2] w2] eqn:E2.
      intros [= _ <- _]. eapply IH; [|exact E2].
      rewrite count_waiting_app in *. simpl in *. lia.
    + intros [= _ <- _]. by apply turn_None in E.
Qed.

(** A promise that is settled stays as it is. *)
Lemma run_io_keeps_done {A} (turns : nat) (order : list nat)
    (slots slots' : list (slot A)) (w w' : world) (rs : list (result A))
    (i : nat) (r : result A) :
  slots !! i = Some (Done r) →
  run_io turns order slots w = (rs, slots', w') →
  slots' !! i = Some (Done r).
Proof.
  intros Hi Hrun.
  eapply (run_io_inv (λ s _, s !! i = Some (Done r))); [|exact Hi|exact Hrun].
  intros l1 io l2 w0 r0 w0' H _. simpl in *.
  destruct (decide (i < length l1)) as [Hlt|Hge].
  - rewrite lookup_app_l in * by done. done.
  - rewrite lookup_app_r in * by lia.
    by destruct (i - length l1) as [|k].
Qed.

(** The outcomes that came are those of promises that are settled
    now. *)
Lemma run_io_outcomes {A} (turns : nat) (order : list nat)
    (slots slots' : list (slot A)) (w w' : world) (rs : list (result A))
    (r : result A) :
  run_io turns order slots w = (rs, slots', w') →
  r ∈ rs → Done r ∈ slots'.
Proof.
  revert order slots w rs slots' w'.
  induction turns as [|turns IH]; intros order slots w rs slots' w'; simpl.
  - intros [= <- _ _] Hin. by apply elem_of_nil in Hin.
  - destruct (turn (hd 0 order) slots w) as [[[r1 s1] w1]|] eqn:E.
    + destruct (turn_step _ _ _ _ _ _ E) as (l1 & io & l2 & -> & Hio & ->).
      destruct (run_io turns (tl order) _ w1) as [[rs2 s2] w2] eqn:E2.
      intros [= <- <- <-] [->|Hin]%elem_of_cons.
      * apply (list_elem_of_lookup_2 _ (length l1)).
        apply (run_io_keeps_done _ _ _ _ _ _ _ _ _ (list_lookup_middle _ _ _ _ eq_refl) E2).
      * by apply (IH _ _ _ _ _ _ E2).
    + intros [= <- _ _] Hin. by apply elem_of_nil in Hin.
Qed.

(** A promise that was waiting and is settled now has had its turn: its
    outcome is among those that came. *)
Lemma run_io_covers {A} (turns : nat) (order : list nat)
    (slots slots' : list (slot A)) (w w' : world) (rs : list (result A))
    (i : nat) (io : M A) (r : result A) :
  run_io turns order slots w = (rs, slots', w') →
  slots !! i = Some (Waiting io) → slots' !! i = Some (Done r) → r ∈ rs.
Proof.
  revert order slots w rs slots' w'.
  induction turns as [|turns IH]; intros order slots w rs slots' w'; simpl.
  - intros [= <- <- _] H1 H2. congruence.
  - destruct (turn (hd 0 order) slots w) as [[[r1 s1] w1]|] eqn:E.
    + destruct (turn_step _ _ _ _ _ _ E) as (l1 & io1 & l2 & -> & Hio & ->).
      destruct (run_io turns (tl order) _ w1) as [[rs2 s2] w2] eqn:E2.
      intros [= <- <- <-] H1 H2.
      destruct (decide (i = length l1)) as [->|Hne].
      * pose proof (run_io_keeps_done _ _ _ _ _ _ _ _ _
                      (list_lookup_middle _ _ _ _ eq_refl) E2) as H3.
        assert (r = r1) as -> by congruence. left.
      * right. apply (IH _ _ _ _ _ _ E2); [|done].
        destruct (decide (i < length l1)) as [Hlt|Hge].
        -- rewrite lookup_app_l in * by done. done.
        -- rewrite lookup_app_r in * by lia.
           destruct (i - length l1) as [|k] eqn:Ek; [lia|done].
    + intros [= <- <- _] H1 H2. congruence.
Qed.

(** *** The outcome *)

Lemma first_rejection_None {A} (rs : list (result A)) :
  first_rejection rs = None ↔ Forall (λ r, is_Resolved r = true) rs.
Proof.
  induction rs as [|[a|e] rs IH]; simpl.
  - split; [constructor|done].
  - destruct (first_rejection rs) as [[k e]|].
    + split; [done|]. intros H. inversion H; subst.
      assert (Some (k, e) = None) by (by apply IH). done.
    + split; [|done]. constructor; [done|]. by apply IH.
  - split; [done|]. intros H. by inversion H.
Qed.

Lemma first_rejection_Some {A} (rs : list (result A)) (k : nat) (e : error) :
  first_rejection rs = Some (k, e) → Rejected e ∈ rs ∧ 1 ≤ k ≤ length rs.
Proof.
  revert k. induction rs as [|[a|e'] rs IH]; intros k; simpl; [done| |].
  - destruct (first_rejection rs) as [[k' e'']|]; [|done].
    intros [= <- <-]. destruct (IH _ eq_refl) as [H1 H2].
    split; [by right|lia].
  - intros [= <- <-]. split; [left|lia].
Qed.

Lemma values_done {A} (l : list A) :
  values (map (λ a, Done (Resolved a)) l) = l.
Proof.
  unfold values. induction l as [|a l IH]; simpl; [done|]. f_equal. apply IH.
Qed.

(** How the started calls stand, none of them rejected before its
    I/O. *)
Lemma early_rejections_nil {A} (ios : list (M A)) :
  early_rejections (map (λ io, Resolved (Resolved io)) ios) = [].
Proof.
  unfold early_rejections.
  assert (∀ f : result (result (M A)) → option error,
            (∀ io, f (Resolved (Resolved io)) = None) →
            omap f (map (λ io, Resolved (Resolved io)) ios) = []) as H.
  { intros f Hf. induction ios as [|io ios IH]; simpl; [done|].
    rewrite Hf. apply IH. }
  by rewrite !H.
Qed.

End Batch.

(** ** getDiagrams *)

Module GetDiagrams.
Import JS Shared Run JSFacts FsFacts PathFacts Batch.

(** A batch of calls that go to their I/O at once and whose I/O changes
    nothing, as the reads of [getDiagrams]: the world is as before when
    the batch settles and when it has come to rest; the batch resolves
    to the values in the order of the calls if every call resolves, and
    rejects with the rejection of one of the calls if not. *)
Lemma Promise_all_reads {A B} (sch : schedule) (call : B → Async A)
    (rest : B → M A) (res : B → result A) (files : list B) (w : world) :
  (∀ f w', call f w' = (Resolved (Resolved (rest f)), w')) →
  (∀ f, rest f w = (res f, w)) →
  at_settle (Promise_all sch (map call files) w) = w ∧
  at_rest (Promise_all sch (map call files) w) = w ∧
  ((∃ l, map res files = map Resolved l ∧
         outcome (Promise_all sch (map call files) w) = Resolved l) ∨
   (∃ f e, f ∈ files ∧ res f = Rejected e ∧
           outcome (Promise_all sch (map call files) w) = Rejected e)).
Proof.
  intros Hcall Hrest.
  assert (∀ l w', start_all (map call l) w'
                  = (map (λ io, Resolved (Resolved io)) (map rest l), w')) as Hstart.
  { induction l as [|f l IH]; intros w'; [done|].
    cbn [map start_all]. by rewrite Hcall, IH. }
  unfold Promise_all. rewrite Hstart, early_rejections_nil.
  set (slots := map to_slot _).
  set (I := λ (s : list (slot A)) (w' : world),
         w' = w ∧ Forall2 (λ x f, x = Waiting (rest f) ∨ x = Done (res f)) s files).
  assert (I slots w) as HI.
  { split; [done|]. unfold slots. clear.
    induction files as [|f files IH]; simpl; constructor; auto. }
  assert (∀ l1 io l2 w0 r w0',
            I (l1 ++ Waiting io :: l2) w0 → io w0 = (r, w0') →
            I (l1 ++ Done r :: l2) w0') as Hstep.
  { intros l1 io l2 w0 r w0' [-> Hall] Hio.
    apply Forall2_app_inv_l in Hall as (f1 & f2' & H1 & H2 & ->).
    inversion H2 as [|? f ? f2 Hf H3]; subst.
    destruct Hf as [[= ->]|]; [|done].
    rewrite Hrest in Hio. injection Hio as <- <-.
    split; [done|]. apply Forall2_app; [done|]. constructor; auto. }
  assert (∀ turns, snd (run_io turns (order sch) slots w) = w) as Hafter.
  { intros turns.
    destruct (run_io turns (order sch) slots w) as [[rs1 s1] w1] eqn:E.
    by destruct (run_io_inv I Hstep _ _ _ _ _ _ _ HI E). }
  destruct (run_io (count_waiting slots) (order sch) slots w)
    as [[rs slots'] w2] eqn:E.
  destruct (run_io_inv I Hstep _ _ _ _ _ _ _ HI E) as [-> Hall].
  pose proof (run_io_all_done _ _ _ _ _ _ _ (le_n _) E) as Hdone.
  assert (Forall2 (λ x f, x = Done (res f)) slots' files) as Hall'.
  { rewrite count_waiting_0 in Hdone. clear -Hall Hdone.
    induction Hall as [|x f sl fl Hx Hs IH]; constructor.
    - destruct Hx as [-> | ->]; [|done]. destruct (Hdone (rest f)). left.
    - apply IH. intros io Hin. apply (Hdone io). by right. }
  clear Hall.
  assert (∀ r, r ∈ rs → ∃ f, f ∈ files ∧ res f = r) as Hrs.
  { intros r Hr. pose proof (run_io_outcomes _ _ _ _ _ _ _ _ E Hr) as Hin.
    apply list_elem_of_lookup in Hin as [i Hi].
    destruct (Forall2_lookup_l _ _ _ _ _ Hall' Hi) as (f & Hf & [= ->]).
    exists f. split; [by eapply list_elem_of_lookup_2|done]. }
  destruct (first_rejection rs) as [[k e]|] eqn:Hfirst; simpl.
  - rewrite Hafter. split; [done|]. split; [done|]. right.
    apply first_rejection_Some in Hfirst as [Hin _].
    destruct (Hrs _ Hin) as (f & Hf & Hres). by exists f, e.
  - split; [done|]. split; [done|]. left.
    apply first_rejection_None in Hfirst. rewrite Forall_forall in Hfirst.
    assert (∀ i f, files !! i = Some f → is_Resolved (res f) = true) as Hok.
    { intros i f Hf.
      destruct (Forall2_lookup_r _ _ _ _ _ Hall' Hf) as (x & Hx & ->).
      apply Hfirst.
      apply (run_io_covers _ _ _ _ _ _ _ i (rest f) _ E); [|done].
      unfold slots. rewrite !list_lookup_fmap, Hf. done. }
    clear -Hall' Hok. revert slots' Hall'.
    induction files as [|f files IH]; intros slots' Hall'.
    + inversion Hall'; subst. by exists [].
    + inversion Hall' as [|? ? s' ? -> Hrest']; subst.
      destruct (IH (λ i, Hok (S i)) _ Hrest') as (l & Hl & Hv).
      pose proof (Hok 0 f eq_refl) as Hf.
      destruct (res f) as [a|] eqn:Ef; [|done].
      exists (a :: l). split; [simpl; by rewrite Ef, Hl|].
      simpl in *. injection Hv as Hv. unfold values in *. simpl.
      by rewrite Hv.
Qed.

Lemma getDiagrams_with_run (sch : schedule) (nameOf : string → string)
    (w : world) (root : string) (files : list string) :
  _basePath (this w) = Some root →
  Fs.readdir (disk w) root = inr files →
  let bpmn := List.filter (λ file, endsWith file BPMN_FILE_SUFFIX) files in
  (∃ ds, map (read_one nameOf root (disk w)) bpmn = map Resolved ds ∧
         getDiagrams_with sch nameOf w = (Resolved ds, w)) ∨
  (∃ f e, f ∈ bpmn ∧ read_one nameOf root (disk w) f = Rejected e ∧
          getDiagrams_with sch nameOf w = (Rejected e, w)).
Proof.
  intros Hroot Hfiles bpmn.
  set (call := λ file : string,
         bind (path_join (Some root) file) (λ fullPathToFile,
           await_io (bind (_readFile fullPathToFile) (λ xml,
             ret (Diagram (nameOf file) fullPathToFile xml None))))).
  set (rest := λ file,
         bind (_readFile (Path.join root file)) (λ xml,
           ret (Diagram (nameOf file) (Path.join root file) xml None))).
  assert (getDiagrams_with sch nameOf w
          = (outcome (Promise_all sch (map call bpmn) w),
             at_settle (Promise_all sch (map call bpmn) w))) as ->.
  { unfold getDiagrams_with, bind at 1 2, get_field. cbv beta iota.
    rewrite Hroot. unfold _readDirectory, lift_read. by rewrite Hfiles. }
  assert (∀ f w', call f w' = (Resolved (Resolved (rest f)), w')) as Hcall
    by done.
  assert (∀ f, rest f w = (read_one nameOf root (disk w) f, w)) as Hrest.
  { intros f. unfold rest, read_one, bind, _readFile, lift_read, ret.
    by destruct (Fs.readFile (disk w) (Path.join root f)). }
  destruct (Promise_all_reads sch call rest (read_one nameOf root (disk w))
              bpmn w Hcall Hrest)
    as (Hs & _ & [(l & Hl & Ho)|(f & e & Hf & He & Ho)]).
  - left. exists l. split; [done|]. exact (f_equal2 pair Ho Hs).
  - right. exists f, e. split; [done|]. split; [done|].
    exact (f_equal2 pair Ho Hs).
Qed.

(** [getDiagrams] changes nothing, whatever it comes to. *)
Lemma getDiagrams_with_keeps_world (sch : schedule) (nameOf : string → string)
    (w : world) :
  snd (getDiagrams_with sch nameOf w) = w.
Proof.
  destruct (_basePath (this w)) as [root|] eqn:Hroot.
  - destruct (Fs.readdir (disk w) root) as [e|files] eqn:Hfiles.
    + unfold getDiagrams_with, bind, get_field. cbv beta iota.
      rewrite Hroot. unfold _readDirectory, lift_read. by rewrite Hfiles.
    + destruct (getDiagrams_with_run sch nameOf _ _ _ Hroot Hfiles)
        as [(ds & _ & ->)|(f & e & _ & _ & ->)]; done.
  - unfold getDiagrams_with, bind, get_field. cbv beta iota.
    by rewrite Hroot.
Qed.

(** The general form of C5, over the way the suffix is stripped. *)
Lemma getDiagrams_with_lists (sch : schedule) (nameOf : string → string)
    (w : world) (root : string) (files : list string) :
  _basePath (this w) = Some root →
  Fs.readdir (disk w) root = inr files →
  (∀ file, file ∈ files → endsWith file BPMN_FILE_SUFFIX = true →
     file = nameOf file +:+ BPMN_FILE_SUFFIX) →
  lists_bpmn_files (getDiagrams_with sch nameOf) w root files.
Proof.
  intros Hroot Hfiles Hname. unfold lists_bpmn_files.
  pose proof (getDiagrams_with_run sch nameOf _ _ _ Hroot Hfiles) as Hrun.
  simpl in Hrun.
  set (bpmn := List.filter _ files) in *.
  assert (∀ f, f ∈ bpmn → f = nameOf f +:+ BPMN_FILE_SUFFIX) as Hbpmn.
  { intros f Hf. unfold bpmn in Hf.
    apply list_elem_of_In, filter_In in Hf as [Hin Hends].
    apply Hname; [by apply list_elem_of_In|done]. }
  clearbody bpmn. clear Hname Hfiles.
  assert (∀ ds, map (read_one nameOf root (disk w)) bpmn = map Resolved ds →
                Forall2 (λ file d,
                           file = name d +:+ BPMN_FILE_SUFFIX ∧
                           uri d = Path.join root file ∧
                           Fs.readFile (disk w) (uri d) = inr (xml d))
                        bpmn ds) as Hlist.
  { clear Hrun. intros ds Hds.
    revert ds Hds. induction bpmn as [|f l IH]; intros ds Hds.
    + destruct ds; [constructor|done].
    + destruct ds as [|d ds]; [done|]. simpl in Hds.
      injection Hds as Hd Hl. constructor.
      * unfold read_one in Hd.
        destruct (Fs.readFile (disk w) (Path.join root f)) as [|c] eqn:E; [done|].
        injection Hd as <-. simpl. rewrite E.
        split; [apply Hbpmn; left|done].
      * apply IH; [|done]. intros f' Hf'. apply Hbpmn. by right. }
  assert (∀ ds f, map (read_one nameOf root (disk w)) bpmn = map Resolved ds →
                  f ∈ bpmn → is_Resolved (read_one nameOf root (disk w) f) = true)
    as Hall.
  { intros ds f Hds Hf.
    assert (read_one nameOf root (disk w) f ∈ map Resolved ds) as Hin.
    { rewrite <- Hds. by apply (list_elem_of_fmap_2 (read_one nameOf root (disk w))). }
    by apply list_elem_of_fmap in Hin as (? & -> & _). }
  destruct Hrun as [(ds & Hds & ->)|(f & e & Hf & He & ->)]; simpl;
    repeat split.
  - intros ds' [= <-]. by apply Hlist.
  - intros _. by eexists.
  - intros f e Hf He. specialize (Hall ds f Hds Hf).
    unfold read_one in Hall. by rewrite He in Hall.
  - done.
  - intros Hread. destruct (Hread f Hf) as [c Hc].
    unfold read_one in He. by rewrite Hc in He.
  - intros _ _ _ _. by eexists.
Qed.

(** The listing of a directory of a well-formed tree names each of its
    entries once, by a proper file name. *)
Lemma readdir_entries (t : Fs.tree) (root : string) (files : list string) :
  Fs.readdir t root = inr files →
  NoDup files ∧
  (∀ n, n ∈ files ↔ is_Some (t !! (Fs.components root ++ [n]))) ∧
  (Fs.wf t = true → ∀ n, n ∈ files → has_slash n = false).
Proof.
  intros [_ ->]%readdir_inv. split; [apply NoDup_children|]. split.
  - intros n. apply elem_of_children.
  - intros Hwf n Hn. pose proof (children_proper _ _ _ Hwf Hn) as Hp.
    unfold Fs.proper_name in Hp. apply andb_true_iff in Hp as [Hp _].
    by apply negb_true_iff in Hp.
Qed.

(** The three revisions list alike; RevA and RevB on well-formed trees. *)
Lemma getDiagrams_lists_bpmn_files_general (sch : schedule) (w : world)
    (root : string) (files : list string) :
  _basePath (this w) = Some root →
  Fs.readdir (disk w) root = inr files →
  lists_bpmn_files (RevC.getDiagrams sch) w root files ∧
  (Fs.wf (disk w) = true → lists_bpmn_files (RevA.getDiagrams sch) w root files).
Proof.
  intros Hroot Hfiles. split.
  - apply getDiagrams_with_lists; [done..|].
    intros f _ [g ->]%endsWith_inv. by rewrite substr0_strips.
  - intros Hwf.
    destruct (readdir_entries _ _ _ Hfiles) as (_ & _ & Hfree).
    apply getDiagrams_with_lists; [done..|].
    intros f Hf [g ->]%endsWith_inv.
    specialize (Hfree Hwf _ Hf). rewrite has_slash_append in Hfree.
    apply orb_false_iff in Hfree as [Hg _].
    unfold BPMN_FILE_SUFFIX. by rewrite basename_strips.
Qed.

(** C5.  With a root opened whose listing is [files], and whatever the
    order in which the reads come back: every revision's [getDiagrams]
    resolves to one diagram for each listed name that ends with '.bpmn'
    and to no other, the name being the file name without the suffix, the
    uri the joined path and the xml the content of the file; it rejects,
    with no list at all, when one of these files cannot be read.  RevA and
    RevB strip the suffix with [path.basename], which does so for the
    names of a well-formed tree; RevC uses [substr]. *)
Theorem getDiagrams_lists_bpmn_files (sch : schedule) (w : world)
    (root : string) (files : list string) :
  _basePath (this w) = Some root →
  Fs.readdir (disk w) root = inr files →
  lists_bpmn_files (RevC.getDiagrams sch) w root files ∧
  (Fs.wf (disk w) = true →
   lists_bpmn_files (RevA.getDiagrams sch) w root files ∧
   lists_bpmn_files (RevB.getDiagrams sch) w root files).
Proof.
  intros Hroot Hfiles. split.
  - apply getDiagrams_with_lists; [done..|].
    intros f _ [g ->]%endsWith_inv. by rewrite substr0_strips.
  - intros Hwf.
    destruct (readdir_entries _ _ _ Hfiles) as (_ & _ & Hfree).
    assert (lists_bpmn_files (RevA.getDiagrams sch) w root files) as HA.
    { apply getDiagrams_with_lists; [done..|].
      intros f Hf [g ->]%endsWith_inv.
      specialize (Hfree Hwf _ Hf). rewrite has_slash_append in Hfree.
      apply orb_false_iff in Hfree as [Hg _].
      unfold BPMN_FILE_SUFFIX. by rewrite basename_strips. }
    split; exact HA.
Qed.

Lemma getDiagrams_lists_bpmn_files_witness :
  lists_bpmn_files (RevC.getDiagrams (Schedule [1] 0)) Examples.world0 "/r"
    ["b.txt"; "x.bpmn"] ∧
  lists_bpmn_files (RevA.getDiagrams (Schedule [1] 0)) Examples.world0 "/r"
    ["b.txt"; "x.bpmn"] ∧
  lists_bpmn_files (RevB.getDiagrams (Schedule [1] 0)) Examples.world0 "/r"
    ["b.txt"; "x.bpmn"] ∧
  RevA.getDiagrams (Schedule [1] 0) Examples.world0
  = (Resolved [Diagram "x" "/r/x.bpmn" "A" None], Examples.world0).
Proof.
  destruct (getDiagrams_lists_bpmn_files (Schedule [1] 0) Examples.world0 "/r"
              ["b.txt"; "x.bpmn"])
    as [HC HAB]; [by_evaluation..|].
  destruct HAB as [HA HB]; [by_evaluation|].
  split; [exact HC|]. split; [exact HA|]. split; [exact HB|].
  by_evaluation.
Defined.

End GetDiagrams.

(** ** The id field *)

Module IdField.
Import JS Shared Run Batch GetDiagrams.

Lemma getDiagrams_with_no_id (sch : schedule) (nameOf : string → string)
    (w w' : world) (ds : list IDiagram) :
  getDiagrams_with sch nameOf w = (Resolved ds, w') →
  Forall (λ d, id d = None) ds.
Proof.
  destruct (_basePath (this w)) as [root|] eqn:Hroot.
  - destruct (Fs.readdir (disk w) root) as [e|files] eqn:Hfiles.
    + unfold getDiagrams_with, bind, get_field. cbv beta iota.
      rewrite Hroot. unfold _readDirectory, lift_read. by rewrite Hfiles.
    + destruct (getDiagrams_with_run sch nameOf _ _ _ Hroot Hfiles)
        as [(ds' & Hds & ->)|(f & e & _ & _ & ->)]; [|done].
      intros [= <- _].
      revert ds' Hds. induction (List.filter _ files) as [|f l IH]; intros ds Hds.
      * destruct ds; [constructor|done].
      * destruct ds as [|d ds]; [done|]. simpl in Hds. injection Hds as Hd Hl.
        constructor; [|by apply IH].
        unfold read_one in Hd. destruct (Fs.readFile _ _); [done|].
        by injection Hd as <-.
  - unfold getDiagrams_with, bind, get_field. cbv beta iota. by rewrite Hroot.
Qed.

Lemma getDiagramByName_id (n : string) (w w' : world) (d : IDiagram) :
  getDiagramByName n w = (Resolved d, w') →
  id d = Some (uri d) ∧
  ∃ root, _basePath (this w) = Some root ∧
          uri d = Path.join root (n +:+ ".bpmn").
Proof.
  unfold getDiagramByName, bind, get_field, path_join. cbv beta iota.
  destruct (_basePath (this w)) as [root|]; [|done].
  unfold ret, _readFile, lift_read. cbv beta iota.
  destruct (Fs.readFile (disk w) _); [done|].
  intros [= <- _]. simpl. eauto.
Qed.

(** What [renameDiagram] resolves to is what [getDiagramByName] read. *)
Lemma RevA_rename_returns (d0 : IDiagram) (y : string) (w w' : world)
    (d : IDiagram) :
  RevA.renameDiagram d0 y w = (Resolved d, w') →
  ∃ w1, getDiagramByName y w1 = (Resolved d, w').
Proof.
  unfold RevA.renameDiagram, bind at 1 2 3 4 5. 
  destruct (get_field _basePath w) as [[base|e] w0]; [|done].
  destruct (path_join base _ w0) as [[p|e] w1]; [|done].
  destruct (_checkWriteablity p w1) as [[[]|e] w2]; [|done].
  destruct (existsSync p w2) as [[b|e] w3]; [|done].
  destruct (b && _); [done|].
  unfold bind at 1.
  destruct (_rename (uri d0) p w3) as [[[]|e] w4]; [|done].
  unfold bind, ret.
  destruct (getDiagramByName y w4) as [[d'|e] w5] eqn:E; [|done].
  intros [= <- <-]. eauto.
Qed.

Lemma RevB_rename_returns (d0 : IDiagram) (y : string) (w w' : world)
    (d : IDiagram) :
  RevB.renameDiagram d0 y w = (Resolved d, w') →
  ∃ w1, getDiagramByName y w1 = (Resolved d, w').
Proof.
  unfold RevB.renameDiagram, bind at 1 2 3 4 5. 
  destruct (get_field _basePath w) as [[base|e] w0]; [|done].
  destruct (path_join base _ w0) as [[p|e] w1]; [|done].
  destruct (_checkWriteablity p w1) as [[[]|e] w2]; [|done].
  destruct (existsSync p w2) as [[b|e] w3]; [|done].
  destruct b; [done|].
  unfold bind at 1.
  destruct (_rename (uri d0) p w3) as [[[]|e] w4]; [|done].
  unfold bind, ret.
  destruct (getDiagramByName y w4) as [[d'|e] w5] eqn:E; [|done].
  intros [= <- <-]. eauto.
Qed.

(** C10.  The diagrams that [getDiagrams] resolves to have no id; the one
    that [getDiagramByName] resolves to, and so the one that
    [renameDiagram] resolves to, has its uri, the joined path, as id. *)
Theorem id_depends_on_read_operation (w : world) :
  (∀ sch ds w', RevA.getDiagrams sch w = (Resolved ds, w') →
     Forall (λ d, id d = None) ds) ∧
  (∀ sch ds w', RevB.getDiagrams sch w = (Resolved ds, w') →
     Forall (λ d, id d = None) ds) ∧
  (∀ sch ds w', RevC.getDiagrams sch w = (Resolved ds, w') →
     Forall (λ d, id d = None) ds) ∧
  (∀ n d w', getDiagramByName n w = (Resolved d, w') →
     id d = Some (uri d) ∧
     ∃ root, _basePath (this w) = Some root ∧
             uri d = Path.join root (n +:+ ".bpmn")) ∧
  (∀ d0 y d w', RevA.renameDiagram d0 y w = (Resolved d, w') →
     id d = Some (uri d)) ∧
  (∀ d0 y d w', RevB.renameDiagram d0 y w = (Resolved d, w') →
     id d = Some (uri d)).
Proof.
  split; [|split; [|split; [|split; [|split]]]].
  - intros sch ds w'. apply getDiagrams_with_no_id.
  - intros sch ds w'. apply getDiagrams_with_no_id.
  - intros sch ds w'. apply getDiagrams_with_no_id.
  - intros n d w'. apply getDiagramByName_id.
  - intros d0 y d w' [w1 H]%RevA_rename_returns.
    by apply getDiagramByName_id in H as [? _].
  - intros d0 y d w' [w1 H]%RevB_rename_returns.
    by apply getDiagramByName_id in H as [? _].
Qed.

Lemma id_depends_on_read_operation_witness :
  Forall (λ d, id d = None) [Diagram "x" "/r/x.bpmn" "A" None] ∧
  (id (Diagram "x" "/r/x.bpmn" "A" (Some "/r/x.bpmn"))
   = Some (uri (Diagram "x" "/r/x.bpmn" "A" (Some "/r/x.bpmn"))) ∧
   ∃ root, _basePath (this Examples.world0) = Some root ∧
           uri (Diagram "x" "/r/x.bpmn" "A" (Some "/r/x.bpmn"))
           = Path.join root ("x" +:+ ".bpmn")) ∧
  id (Diagram "y" "/r/y.bpmn" "A" (Some "/r/y.bpmn"))
  = Some (uri (Diagram "y" "/r/y.bpmn" "A" (Some "/r/y.bpmn"))).
Proof.
  destruct (id_depends_on_read_operation Examples.world0)
    as (HA & _ & _ & Hname & _ & HB).
  split; [|split].
  - apply (HA (Schedule [] 0) _ Examples.world0). by_evaluation.
  - apply (Hname "x" _ Examples.world0). by_evaluation.
  - apply (HB Examples.x_diagram "y" _
             (World (this Examples.world0)
                (Fs.mkfile ["r"; "y.bpmn"] "A"
                   (delete ["r"; "x.bpmn"] Examples.tree0)))).
    by_evaluation.
Defined.

End IdField.

(** ** saveSolution *)

Module SaveSolution.
Import JS Shared Run FsFacts Batch Save.

Lemma write_diagram_run (p : string) (d : IDiagram) (w : world) :
  write_diagram p d w
  = match Fs.writeFile (disk w) p (xml d) with
    | inr t' => (Resolved tt, World (this w) t')
    | inl e =>
        (Rejected (InternalServerError "Unable to save diagram." (SystemError e)),
         w)
    end.
Proof.
  unfold write_diagram, catch, _writeFile, lift_write, throw.
  by destruct (Fs.writeFile (disk w) p (xml d)).
Qed.

Lemma write_diagram_cases (p : string) (d : IDiagram) (w : world) :
  (∃ t', Fs.writeFile (disk w) p (xml d) = inr t' ∧
         write_diagram p d w = (Resolved tt, World (this w) t')) ∨
  (∃ e, write_diagram p d w = (Rejected e, w)).
Proof.
  rewrite write_diagram_run.
  destruct (Fs.writeFile (disk w) p (xml d)) as [e|t'] eqn:E; eauto.
Qed.

(** Whether a write goes through depends on where the directories are,
    not on the files. *)
Lemma writeFile_same_dirs_ok (t t' u : Fs.tree) (p data : string) :
  Fs.same_dirs t t' → Fs.writeFile t p data = inr u →
  Fs.writeFile t' p data = inr (<[Fs.components p := Fs.File data]> t').
Proof.
  intros Hsame (Hr & Hw & Hnd & _)%writeFile_inv.
  apply writeFile_ok; [by apply (resolve_same_dirs t)|done|].
  intros Hl. by apply Hsame in Hl.
Qed.

(** The three revisions start a save in the same way: they reject, at
    once or at the check of the directory, or go on to the write to the
    diagram's uri. *)
Lemma RevA_save_starts (d : IDiagram) (w : world) :
  ∃ p, RevA.saveDiagram d None w = (p, w) ∧ started_save p d.
Proof.
  unfold RevA.saveDiagram, await_then, _checkWriteablity.
  rewrite checkForDirectory_run.
  destruct (Fs.stat _ _) as [|[|]]; eexists; (split; [done|]);
    unfold started_save; eauto.
Qed.

Lemma RevB_save_starts (d : IDiagram) (w : world) :
  ∃ p, RevB.saveDiagram d None w = (p, w) ∧ started_save p d.
Proof.
  unfold RevB.saveDiagram, bind at 1 2 3, get_field, path_join. cbv beta iota.
  destruct (_basePath (this w)) as [root|].
  - unfold ret at 1. cbv beta iota. case_bool_decide.
    + eexists. split; [done|]. left. eauto.
    + unfold ret at 1, await_then, _checkWriteablity. cbv beta iota.
      rewrite checkForDirectory_run.
      destruct (Fs.stat _ _) as [|[|]]; eexists; (split; [done|]);
        unfold started_save; eauto.
  - eexists. split; [done|]. left. eauto.
Qed.

Lemma early_rejections_nil_iff {A} (ps : list (result (result (M A)))) :
  early_rejections ps = [] ↔
  Forall (λ p, thrown p = None ∧ failed p = None) ps.
Proof.
  unfold early_rejections. split.
  - intros [H1 H2]%app_eq_nil.
    induction ps as [|p ps IH]; [constructor|].
    simpl in H1, H2.
    destruct (thrown p) eqn:E1; [done|]. destruct (failed p) eqn:E2; [done|].
    constructor; [done|]. by apply IH.
  - intros H.
    assert (∀ (f : result (result (M A)) → option error) l,
              Forall (λ p, f p = None) l → omap f l = []) as Hnil.
    { clear. intros f l Hf. induction Hf as [|p l Hp _ IH]; simpl; [done|].
      rewrite Hp. apply IH. }
    rewrite !Hnil; [done|..]; eapply Forall_impl; eauto; by intros ? [? ?].
Qed.

Section Batch.
Variable saveDiagram : IDiagram → option string → Async unit.
Hypothesis save_starts :
  ∀ d w, ∃ p, saveDiagram d None w = (p, w) ∧ started_save p d.
Variable w1 : world.
Variable ds : list IDiagram.

(** The save of [d], alone on the store as it is at the start, goes
    through. *)
Local Abbreviation saves d := (fst (await (saveDiagram d None) w1) = Resolved tt).

(** The location of [d]'s uri holds the xml of a diagram of the batch
    with that location whose save goes through. *)
Local Abbreviation written t d :=
  (∃ d', d' ∈ ds ∧ saves d' ∧
         Fs.components (uri d') = Fs.components (uri d) ∧
         t !! Fs.components (uri d) = Some (Fs.File (xml d'))).

(** How a promise of the batch stands with respect to its diagram: it
    waits for the write, the call having come that far; or it is
    rejected, and the save does not go through; or it is resolved, the
    save goes through and the location is written. *)
Local Abbreviation stands t s d :=
  ((s = Waiting (write_diagram (uri d) d) ∧
    saveDiagram d None w1
    = (Resolved (Resolved (write_diagram (uri d) d)), w1)) ∨
   (∃ e, s = Done (Rejected e) ∧ ¬ saves d) ∨
   (s = Done (Resolved tt) ∧ saves d ∧ written t d)).

Lemma start_all_saves (l : list IDiagram) (w : world) :
  ∃ ps, start_all (map (λ d, saveDiagram d None) l) w = (ps, w) ∧
        Forall2 (λ p d, saveDiagram d None w = (p, w) ∧ started_save p d) ps l.
Proof.
  induction l as [|d l (ps & Hps & Hall)]; simpl.
  - by eexists.
  - destruct (save_starts d w) as (p & Hp & Hst). rewrite Hp, Hps.
    eexists. split; [done|]. by constructor.
Qed.

Lemma saves_write (d : IDiagram) :
  saveDiagram d None w1
  = (Resolved (Resolved (write_diagram (uri d) d)), w1) →
  saves d ↔ ∃ t', Fs.writeFile (disk w1) (uri d) (xml d) = inr t'.
Proof.
  intros Hp. unfold await. rewrite Hp, write_diagram_run.
  destruct (Fs.writeFile (disk w1) (uri d) (xml d)) as [e|t']; simpl.
  - split; [done|]. by intros [? ?].
  - split; [eauto|done].
Qed.

(** A save that goes through has come to its write, and writes to a path
    that can be walked and does not ask for a directory. *)
Lemma saves_path (d : IDiagram) :
  saves d →
  saveDiagram d None w1
  = (Resolved (Resolved (write_diagram (uri d) d)), w1) ∧
  Fs.resolve (disk w1) (uri d) = inr (Fs.components (uri d)) ∧
  Fs.wants_directory (uri d) = false.
Proof.
  destruct (save_starts d w1) as (p & Hp & [[e ->] | [[e ->] | ->]]);
    unfold await; rewrite Hp; [done..|].
  rewrite write_diagram_run.
  destruct (Fs.writeFile (disk w1) (uri d) (xml d)) as [e|t'] eqn:E; [done|].
  intros _. split; [done|]. by apply writeFile_inv in E as (? & ? & _).
Qed.

(** How a call that has been started stands. *)
Lemma started_stands (p : result (result (M unit))) (d : IDiagram) :
  saveDiagram d None w1 = (p, w1) → started_save p d →
  (to_slot p = Waiting (write_diagram (uri d) d) ∧
   thrown p = None ∧ failed p = None ∧
   saveDiagram d None w1
   = (Resolved (Resolved (write_diagram (uri d) d)), w1)) ∨
  (∃ e, to_slot p = Done (Rejected e) ∧
        (thrown p = Some e ∨ failed p = Some e) ∧ ¬ saves d).
Proof.
  intros Hp [[e ->] | [[e ->] | ->]].
  - right. exists e. split; [done|]. split; [by left|].
    unfold await. by rewrite Hp.
  - right. exists e. split; [done|]. split; [by right|].
    unfold await. by rewrite Hp.
  - left. done.
Qed.

(** What the turns keep: the fields of the store and the directories of
    the disk; every location is as at the start or holds the xml of a
    diagram with that location whose save goes through; and every
    promise stands as its diagram says. *)
Lemma run_io_saves (slots : list (slot unit)) :
  Forall2 (λ s d, stands (disk w1) s d) slots ds →
  ∀ turns order rs slots' w',
    run_io turns order slots w1 = (rs, slots', w') →
    this w' = this w1 ∧
    Fs.same_dirs (disk w1) (disk w') ∧
    (∀ k, disk w' !! k = disk w1 !! k ∨
          ∃ d, d ∈ ds ∧ saves d ∧ Fs.components (uri d) = k ∧
               disk w' !! k = Some (Fs.File (xml d))) ∧
    Forall2 (λ s d, stands (disk w') s d) slots' ds.
Proof.
  intros Hstart turns order rs slots' w' Hrun.
  eapply (run_io_inv
           (λ s w,
              this w = this w1 ∧
              Fs.same_dirs (disk w1) (disk w) ∧
              (∀ k, disk w !! k = disk w1 !! k ∨
                    ∃ d, d ∈ ds ∧ saves d ∧ Fs.components (uri d) = k ∧
                         disk w !! k = Some (Fs.File (xml d))) ∧
              Forall2 (λ s d, stands (disk w) s d) s ds));
    [| |exact Hrun].
  2:{ split; [done|]. split; [done|]. split; [by left|done]. }
  clear Hstart Hrun rs slots' w' turns order slots.
  intros l1 io l2 w r w' (Hthis & Hsame & Hframe & Hall) Hio.
  apply Forall2_app_inv_l in Hall as (ds1 & ds2' & H1 & H2 & Hds).
  inversion H2 as [|? d ? ds2 Hd H3]; subst ds2'.
  destruct Hd as [[[= ->] Hp]|[(e & [=] & _)|([=] & _)]].
  rewrite write_diagram_run in Hio.
  assert (d ∈ ds) as Hin.
  { rewrite Hds. apply elem_of_app. right. left. }
  destruct (Fs.writeFile (disk w) (uri d) (xml d)) as [e|t'] eqn:Hw.
  - (* the write fails here: it fails at the start as well *)
    injection Hio as <- <-.
    split; [done|]. split; [done|]. split; [done|].
    match goal with
    | |- Forall2 ?P ?l ds =>
        cut (Forall2 P l (ds1 ++ d :: ds2)); [by rewrite <- Hds|]
    end.
    apply Forall2_app; [done|]. constructor; [|done].
    right. left. eexists. split; [done|].
    intros [t1 Ht1]%(saves_write d Hp).
    pose proof (writeFile_same_dirs_ok _ _ _ _ _ Hsame Ht1). congruence.
  - (* the write goes through here: it does at the start as well *)
    injection Hio as <- <-.
    pose proof (writeFile_same_dirs _ _ _ _ Hw) as Hsame'.
    pose proof Hw as (Hr & Hwd & Hnd & ->)%writeFile_inv.
    assert (saves d) as Hs.
    { apply (saves_write d Hp). eexists.
      eapply (writeFile_same_dirs_ok (disk w)); [by apply same_dirs_sym|].
      exact Hw. }
    simpl. split; [done|]. split; [by apply (same_dirs_trans _ (disk w))|].
    split.
    + intros k. destruct (decide (k = Fs.components (uri d))) as [->|Hk].
      * right. exists d. rewrite lookup_insert_eq. done.
      * rewrite lookup_insert_ne by done. apply Hframe.
    + match goal with
      | |- Forall2 ?P ?l ds =>
          cut (Forall2 P l (ds1 ++ d :: ds2)); [by rewrite <- Hds|]
      end.
      assert (∀ s d0, stands (disk w) s d0 →
                stands (<[Fs.components (uri d) := Fs.File (xml d)]> (disk w)) s d0)
        as Hmono.
      { intros s d0 [?|[?|(? & ? & d' & Hd' & Hs' & Hc & Hl)]];
          [by left|by right; left|].
        right. right. split; [done|]. split; [done|].
        destruct (decide (Fs.components (uri d0) = Fs.components (uri d))) as [E|E].
        - exists d. rewrite E, lookup_insert_eq. done.
        - exists d'. rewrite lookup_insert_ne by done. done. }
      apply Forall2_app.
      * eapply Forall2_impl; [exact H1|]. apply Hmono.
      * constructor.
        -- right. right. split; [done|]. split; [done|].
           exists d. rewrite lookup_insert_eq. done.
        -- eapply Forall2_impl; [exact H3|]. apply Hmono.
Qed.

(** What [Promise.all] over the saves of the batch comes to, whatever
    the schedule. *)
Lemma Promise_all_saves (sch : schedule) :
  let out := Promise_all sch (map (λ d, saveDiagram d None) ds) w1 in
  this (at_settle out) = this w1 ∧
  this (at_rest out) = this w1 ∧
  (is_Resolved (outcome out) = true ↔ ∀ d, d ∈ ds → saves d) ∧
  (is_Resolved (outcome out) = true → at_settle out = at_rest out) ∧
  (∀ d, d ∈ ds → saves d →
     ∃ d', d' ∈ ds ∧ saves d' ∧
           Fs.components (uri d') = Fs.components (uri d) ∧
           Fs.readFile (disk (at_rest out)) (uri d) = inr (xml d')) ∧
  (∀ k, disk (at_rest out) !! k = disk w1 !! k ∨
        ∃ d, d ∈ ds ∧ saves d ∧ Fs.components (uri d) = k ∧
             disk (at_rest out) !! k = Some (Fs.File (xml d))) ∧
  (∀ k, disk (at_settle out) !! k = disk w1 !! k ∨
        ∃ d, d ∈ ds ∧ saves d ∧ Fs.components (uri d) = k ∧
             disk (at_settle out) !! k = Some (Fs.File (xml d))).
Proof.
  intros out.
  destruct (start_all_saves ds w1) as (ps & Hps & Hall).
  set (slots := map to_slot ps).
  assert (Forall2 (λ s d, stands (disk w1) s d) slots ds) as Hstart.
  { unfold slots. change (map to_slot ps) with (to_slot <$> ps).
    apply Forall2_fmap_l. eapply Forall2_impl; [exact Hall|].
    intros p d [Hp Hst]. simpl.
    destruct (started_stands p d Hp Hst) as [(-> & _ & _ & Hp')|(e & -> & _ & Hn)].
    - by left.
    - right. left. eauto. }
  pose proof (run_io_saves slots Hstart) as Hinv.
  assert (∀ turns,
            this (snd (run_io turns (order sch) slots w1)) = this w1 ∧
            ∀ k, disk (snd (run_io turns (order sch) slots w1)) !! k
                 = disk w1 !! k ∨
                 ∃ d, d ∈ ds ∧ saves d ∧ Fs.components (uri d) = k ∧
                      disk (snd (run_io turns (order sch) slots w1)) !! k
                      = Some (Fs.File (xml d))) as Hafter.
  { intros turns.
    destruct (run_io turns (order sch) slots w1) as [[rs0 s0] w0] eqn:E0.
    destruct (Hinv _ _ _ _ _ E0) as (? & _ & ? & _). done. }
  destruct (run_io (count_waiting slots) (order sch) slots w1)
    as [[rs slots'] w2] eqn:E.
  destruct (Hinv _ _ _ _ _ E) as (Hthis2 & Hsame2 & Hframe2 & Hall2).
  pose proof (run_io_all_done _ _ _ _ _ _ _ (le_n _) E) as Hdone.
  rewrite count_waiting_0 in Hdone.
  assert (∀ d, d ∈ ds → saves d →
            ∃ d', d' ∈ ds ∧ saves d' ∧
                  Fs.components (uri d') = Fs.components (uri d) ∧
                  Fs.readFile (disk w2) (uri d) = inr (xml d')) as Hwritten.
  { intros d [i Hi]%list_elem_of_lookup Hs.
    destruct (Forall2_lookup_r _ _ _ _ _ Hall2 Hi) as (x & Hx & Hst).
    destruct Hst as [[-> _]|[(e & _ & Hn)|(_ & _ & d' & Hd' & Hs' & Hc & Hl)]].
    - destruct (Hdone (write_diagram (uri d) d)).
      by eapply list_elem_of_lookup_2.
    - done.
    - exists d'. split; [done|]. split; [done|]. split; [done|].
      destruct (saves_path d Hs) as (_ & Hr & Hwd).
      apply readFile_iff. split; [|done].
      by apply (resolve_same_dirs (disk w1)). }
  assert (out = match early_rejections ps with
                | e :: _ =>
                    Settled (Rejected e)
                      (snd (run_io (min (landed sch) (count_waiting slots))
                              (order sch) slots w1)) w2
                | [] =>
                    match first_rejection rs with
                    | Some (k, e) =>
                        Settled (Rejected e)
                          (snd (run_io (max k (min (landed sch) (count_waiting slots)))
                                  (order sch) slots w1)) w2
                    | None => Settled (Resolved (values slots')) w2 w2
                    end
                end) as Hout.
  { unfold out, Promise_all. rewrite Hps. fold slots. by rewrite E. }
  assert (is_Resolved (outcome out) = true ↔
          early_rejections ps = [] ∧ first_rejection rs = None) as Hres.
  { rewrite Hout. destruct (early_rejections ps) as [|e l]; simpl.
    - destruct (first_rejection rs) as [[k e]|]; simpl; split; try done.
      by intros [_ ?].
    - split; [done|]. by intros [? _]. }
  assert (this (at_settle out) = this w1 ∧
          ∀ k, disk (at_settle out) !! k = disk w1 !! k ∨
               ∃ d, d ∈ ds ∧ saves d ∧ Fs.components (uri d) = k ∧
                    disk (at_settle out) !! k = Some (Fs.File (xml d)))
    as [Hts Hfs].
  { rewrite Hout. destruct (early_rejections ps) as [|e l]; simpl.
    - destruct (first_rejection rs) as [[k e]|]; simpl; [apply Hafter|done].
    - apply Hafter. }
  assert (at_rest out = w2) as Hrest.
  { rewrite Hout. destruct (early_rejections ps) as [|e l]; simpl; [|done].
    by destruct (first_rejection rs) as [[k e]|]. }
  rewrite Hrest.
  split; [done|]. split; [done|]. split; [|split; [|split; [done|done]]].
  - rewrite Hres, early_rejections_nil_iff, first_rejection_None. split.
    + intros [Hearly Hlate] d [i Hi]%list_elem_of_lookup.
      destruct (Forall2_lookup_r _ _ _ _ _ Hall Hi) as (p & Hpi & Hp & Hst).
      rewrite Forall_forall in Hearly.
      destruct (Hearly p (list_elem_of_lookup_2 _ _ _ Hpi)) as [Ht Hf].
      destruct (started_stands p d Hp Hst) as [(Hslot & _)|(e & _ & [?|?] & _)];
        [|congruence..].
      destruct (Forall2_lookup_r _ _ _ _ _ Hall2 Hi) as (x & Hx & Hx').
      destruct Hx' as [[-> _]|[(e & -> & Hn)|(_ & ? & _)]]; [| |done].
      * destruct (Hdone (write_diagram (uri d) d)).
        by eapply list_elem_of_lookup_2.
      * rewrite Forall_forall in Hlate.
        assert (Rejected e ∈ rs) as Hin.
        { apply (run_io_covers _ _ _ _ _ _ _ i (write_diagram (uri d) d) _ E);
            [|done].
          unfold slots. rewrite list_lookup_fmap, Hpi. simpl. by rewrite Hslot. }
        by specialize (Hlate _ Hin).
    + intros Hsaves. split.
      * apply Forall_forall. intros p [i Hpi]%list_elem_of_lookup.
        destruct (Forall2_lookup_l _ _ _ _ _ Hall Hpi) as (d & Hi & Hp & Hst).
        destruct (started_stands p d Hp Hst) as [(_ & ? & ? & _)|(e & _ & _ & Hn)];
          [done|].
        destruct Hn. apply Hsaves. by eapply list_elem_of_lookup_2.
      * apply Forall_forall. intros r Hr.
        pose proof (run_io_outcomes _ _ _ _ _ _ _ _ E Hr) as Hin.
        apply list_elem_of_lookup in Hin as [i Hi].
        destruct (Forall2_lookup_l _ _ _ _ _ Hall2 Hi) as (d & Hd & Hst).
        destruct Hst as [[[=] _]|[(e & _ & Hn)|([= ->] & _)]]; [|done].
        destruct Hn. apply Hsaves. by eapply list_elem_of_lookup_2.
  - intros Hr. rewrite Hout in *.
    destruct (early_rejections ps) as [|e l]; simpl in *; [|done].
    by destruct (first_rejection rs) as [[k e]|].
Qed.

End Batch.

Lemma saveSolution_with_run
    (saveDiagram : IDiagram → option string → Async unit) (sch : schedule)
    (s : ISolution) (w : world) :
  saveSolution_with saveDiagram sch s None w
  = Settled
      (match outcome (Promise_all sch
                        (map (λ d, saveDiagram d None) (diagrams s)) w) with
       | Resolved _ => Resolved tt
       | Rejected e => Rejected e
       end)
      (at_settle (Promise_all sch (map (λ d, saveDiagram d None) (diagrams s)) w))
      (at_rest (Promise_all sch (map (λ d, saveDiagram d None) (diagrams s)) w)).
Proof. reflexivity. Qed.

Lemma saveSolution_with_reopened
    (saveDiagram : IDiagram → option string → Async unit) (sch : schedule)
    (s : ISolution) (newRoot : string) (w : world) :
  Fs.is_dir (disk w) newRoot = true →
  saveSolution_with saveDiagram sch s (Some newRoot) w
  = saveSolution_with saveDiagram sch s None
      (World (Repository (_trashFolderLocation (this w)) (Some newRoot)
                (_identity (this w))) (disk w)).
Proof.
  intros Hdir. unfold saveSolution_with, bind, get_field.
  rewrite openPath_run, Hdir. done.
Qed.

Lemma outcome_unit (r : result (list unit)) :
  match r with
  | Resolved _ => Resolved tt
  | Rejected e => Rejected e
  end = Resolved tt ↔ is_Resolved r = true.
Proof. by destruct r. Qed.

Lemma saveSolution_with_reopens
    (saveDiagram : IDiagram → option string → Async unit) :
  (∀ d w, ∃ p, saveDiagram d None w = (p, w) ∧ started_save p d) →
  ∀ sch s newRoot w,
    reopens_then_saves saveDiagram (saveSolution_with saveDiagram) sch s newRoot w.
Proof.
  intros Hstarts sch s newRoot w. unfold reopens_then_saves.
  rewrite openPath_run.
  destruct (Fs.is_dir (disk w) newRoot) eqn:Hdir.
  - rewrite (saveSolution_with_reopened _ _ _ _ _ Hdir), saveSolution_with_run.
    set (w1 := World _ (disk w)).
    destruct (Promise_all_saves saveDiagram Hstarts w1 (diagrams s) sch)
      as (H1 & H2 & H3 & H4 & H5 & H6 & H7).
    cbn [outcome at_settle at_rest].
    split; [done|]. split; [done|]. split; [done|].
    split; [by rewrite outcome_unit|].
    split; [by rewrite outcome_unit|].
    split; [done|]. split.
    + intros d Hd Hs Huniq.
      destruct (H5 d Hd Hs) as (d' & Hd' & _ & Hc & Hread).
      by rewrite <- (Huniq d' Hd' Hc).
    + intros k Hk. split.
      * destruct (H6 k) as [?|(d & Hd & _ & Hc & _)]; [done|].
        by destruct (Hk d Hd).
      * destruct (H7 k) as [?|(d & Hd & _ & Hc & _)]; [done|].
        by destruct (Hk d Hd).
  - destruct (checkForDirectory_fails _ _ Hdir) as (e & He & _).
    rewrite He. simpl.
    unfold saveSolution_with, bind, get_field.
    rewrite openPath_run, Hdir, He. done.
Qed.

(** C7.  [saveSolution(s, newRoot)] re-opens the store at newRoot with
    the stored identity and then calls [saveDiagram] without newPath for
    every diagram, in the three revisions and whatever the schedule.  A
    failing re-open rejects the call with nothing saved.  Else the root is
    newRoot from then on; the call resolves exactly when every diagram's
    save resolves; and, resolved or rejected, every diagram whose save
    resolves is written to its own uri: nothing is rolled back, and
    nothing else on the disk is touched. *)
Theorem saveSolution_reopens_then_saves (sch : schedule) (s : ISolution)
    (newRoot : string) (w : world) :
  reopens_then_saves RevA.saveDiagram RevA.saveSolution sch s newRoot w ∧
  reopens_then_saves RevB.saveDiagram RevB.saveSolution sch s newRoot w ∧
  reopens_then_saves RevC.saveDiagram RevC.saveSolution sch s newRoot w.
Proof.
  split; [|split].
  - apply saveSolution_with_reopens. apply RevA_save_starts.
  - apply saveSolution_with_reopens. apply RevB_save_starts.
  - apply saveSolution_with_reopens. apply RevB_save_starts.
Qed.

(** The batch of three on a store re-opened at /r, the last call coming
    back first: the call rejects, the root is /r from then on, and the
    first and the third diagram are on disk when things have come to
    rest. *)
Lemma saveSolution_reopens_then_saves_witness :
  outcome (RevA.saveSolution Examples.last_first Examples.batch (Some "/r")
             Examples.world_closed) ≠ Resolved tt ∧
  _basePath (this (at_rest (RevA.saveSolution Examples.last_first Examples.batch
                              (Some "/r") Examples.world_closed))) = Some "/r" ∧
  _identity (this (at_rest (RevA.saveSolution Examples.last_first Examples.batch
                              (Some "/r") Examples.world_closed)))
  = Some Examples.alice ∧
  Fs.readFile (disk (at_rest (RevA.saveSolution Examples.last_first Examples.batch
                                (Some "/r") Examples.world_closed))) "/r/x.bpmn"
  = inr "N1" ∧
  Fs.readFile (disk (at_rest (RevA.saveSolution Examples.last_first Examples.batch
                                (Some "/r") Examples.world_closed))) "/r/z.bpmn"
  = inr "N3".
Proof.
  destruct (saveSolution_reopens_then_saves Examples.last_first Examples.batch
              "/r" Examples.world_closed) as [H _].
  unfold reopens_then_saves in H.
  assert (openPath "/r" (_identity (this Examples.world_closed))
            Examples.world_closed
          = (Resolved tt, World (Repository "/trash" (Some "/r")
                                   (Some Examples.alice)) Examples.tree0)) as E
    by by_evaluation.
  rewrite E in H. cbv zeta in H.
  destruct H as (_ & _ & Hthis & Hiff & _ & _ & Hown & _).
  assert (∀ d d' : IDiagram,
            d' ∈ diagrams Examples.batch →
            bool_decide (Fs.components (uri d') = Fs.components (uri d) →
                         xml d' = xml d) = true →
            Fs.components (uri d') = Fs.components (uri d) → xml d' = xml d)
    as Hdec by (intros d d' _ Hb; by apply bool_decide_eq_true in Hb).
  split; [|split; [|split; [|split]]].
  - intros Hall.
    assert (Diagram "y" "/q/y.bpmn" "N2" None ∈ diagrams Examples.batch) as Hin
      by (right; left).
    generalize (proj1 Hiff Hall _ Hin). by_evaluation.
  - by rewrite Hthis.
  - by rewrite Hthis.
  - apply (Hown (Diagram "x" "/r/x.bpmn" "N1" None)); [left|by_evaluation|].
    intros d' Hd'. apply (Hdec _ _ Hd').
    repeat (apply elem_of_cons in Hd' as [->|Hd']; [by_evaluation|]).
    by apply elem_of_nil in Hd'.
  - apply (Hown (Diagram "z" "/r/z.bpmn" "N3" None));
      [right; right; left|by_evaluation|].
    intros d' Hd'. apply (Hdec _ _ Hd').
    repeat (apply elem_of_cons in Hd' as [->|Hd']; [by_evaluation|]).
    by apply elem_of_nil in Hd'.
Defined.

(** The same batch evaluated: the check of /q fails before any write has
    come back, so the call rejects with its NotFound; with this schedule
    the third diagram is on disk by then and the first one is not yet. *)
Example saveSolution_partial :
  RevA.saveSolution Examples.last_first Examples.batch (Some "/r")
    Examples.world_closed
  = Settled (Rejected (NotFoundError "'/q' does not exist."))
      (World (Repository "/trash" (Some "/r") (Some Examples.alice))
         (Fs.mkfile ["r"; "z.bpmn"] "N3" Examples.tree0))
      (World (Repository "/trash" (Some "/r") (Some Examples.alice))
         (Fs.mkfile ["r"; "x.bpmn"] "N1"
            (Fs.mkfile ["r"; "z.bpmn"] "N3" Examples.tree0))).
Proof. by_evaluation. Qed.

(** Re-opening at a path that does not exist rejects and saves nothing. *)
Example saveSolution_reopen_fails :
  RevB.saveSolution Examples.last_first (Solution [Examples.x_diagram])
    (Some "/nowhere") Examples.world0
  = Settled (Rejected (NotFoundError "'/nowhere' does not exist."))
      Examples.world0 Examples.world0.
Proof. by_evaluation. Qed.

End SaveSolution.

(** * Further properties *)

(** ** The two searches for a trash name *)

Module TrashName.
Import JS Shared Run JSFacts FsFacts PathFacts Unused.

(** [_findUnusedFilename] always returns: it resolves to the lowest
    candidate that does not exist, which is among the first [size + 2],
    and it changes nothing. *)
Theorem findUnusedFilename_returns_lowest (desiredName : string) (w : world) :
  ∃ n, n ≤ size (disk w) + 1 ∧
       RevA._findUnusedFilename desiredName w
       = (Resolved (candidate desiredName n), w) ∧
       Fs.existsSync (disk w) (candidate desiredName n) = false ∧
       ∀ i, i < n → Fs.existsSync (disk w) (candidate desiredName i) = true.
Proof.
  destruct (lowest_candidate (disk w) desiredName) as (n & Hn & Hfree & Hused).
  exists n. split; [done|]. split; [|done].
  unfold RevA._findUnusedFilename.
  change desiredName with (candidate desiredName 0) at 2.
  rewrite (findUnused_loop_finds _ _ n Hfree Hused); [done|lia..].
Qed.

(** The loop of RevB's [deleteDiagram], from its second round on: it stops
    one candidate after the lowest free one. *)
Lemma trash_loop_finds (t : Fs.tree) (orginal : string) (n : nat) :
  Fs.existsSync t (candidate orginal n) = false →
  (∀ i, i < n → Fs.existsSync t (candidate orginal i) = true) →
  ∀ fuel j, j ≤ n → n - j < fuel →
  RevB.trash_loop fuel t orginal (candidate orginal (S j))
    (Fs.existsSync t (candidate orginal j)) (S (S j))
  = Some (candidate orginal (S n)).
Proof.
  intros Hfree Hused fuel.
  induction fuel as [|fuel IH]; intros j Hj Hfuel; [lia|].
  simpl. destruct (decide (j = n)) as [->|Hne].
  - by rewrite Hfree.
  - rewrite Hused by lia. apply (IH (S j)); lia.
Qed.

(** What RevB's search comes to, in terms of the lowest free candidate. *)
Lemma find_trash_name_run (orginalTargetFile : string) (w : world) :
  ∃ n, n ≤ size (disk w) + 1 ∧
       Fs.existsSync (disk w) (candidate orginalTargetFile n) = false ∧
       (∀ i, i < n → Fs.existsSync (disk w) (candidate orginalTargetFile i) = true) ∧
       RevB.find_trash_name orginalTargetFile w
       = (Resolved (candidate orginalTargetFile (match n with O => O | S _ => S n end)),
          w).
Proof.
  destruct (lowest_candidate (disk w) orginalTargetFile) as (n & Hn & Hfree & Hused).
  exists n. repeat split; try done.
  unfold RevB.find_trash_name.
  destruct n as [|n].
  - simpl in Hfree. rewrite Hfree.
    replace (size (disk w) + 3) with (S (size (disk w) + 2)) by lia. done.
  - pose proof (Hused 0 ltac:(lia)) as H0. simpl in H0. rewrite H0.
    replace (size (disk w) + 3) with (S (size (disk w) + 2)) by lia.
    cbn [RevB.trash_loop].
    pose proof (trash_loop_finds _ _ (S n) Hfree Hused (size (disk w) + 2) 0
                  ltac:(lia) ltac:(lia)) as E.
    cbn [candidate] in E. by rewrite E.
Qed.

(** RevB's search always returns as well, but not what RevA's returns:
    when the desired name is taken it resolves to the candidate after the
    lowest free one, a name whose existence it has not tested. *)
Theorem find_trash_name_one_too_far (orginalTargetFile : string) (w : world) :
  ∃ n, n ≤ size (disk w) + 1 ∧
       Fs.existsSync (disk w) (candidate orginalTargetFile n) = false ∧
       (∀ i, i < n → Fs.existsSync (disk w) (candidate orginalTargetFile i) = true) ∧
       RevB.find_trash_name orginalTargetFile w
       = (Resolved (candidate orginalTargetFile (match n with O => O | S _ => S n end)),
          w).
Proof.
  exact (find_trash_name_run orginalTargetFile w).
Qed.

End TrashName.

(** ** More on deleteDiagram *)

Module DeleteMore.
Import JS Shared Run JSFacts FsFacts PathFacts Unused Delete.

(** What a run of RevA's [deleteDiagram] comes to. *)
Lemma RevA_delete_inv (d : IDiagram) (w w' : world) (r : result unit) :
  let trash := _trashFolderLocation (this w) in
  let desired := Path.join trash (name d +:+ ".bpmn") in
  RevA.deleteDiagram d w = (r, w') →
  (Fs.is_dir (disk w) trash = false ∧ w' = w ∧
   r = Rejected (BadRequestError "Trash folder is not writeable.")) ∨
  (Fs.is_dir (disk w) trash = true ∧
   ∃ n, Fs.existsSync (disk w) (candidate desired n) = false ∧
        match Fs.rename (disk w) (uri d) (candidate desired n) with
        | inl e => r = Rejected (SystemError e) ∧ w' = w
        | inr t' => r = Resolved tt ∧ w' = World (this w) t'
        end).
Proof.
  intros trash desired H.
  destruct (Fs.is_dir (disk w) trash) eqn:Hdir.
  - right. split; [done|].
    destruct (findUnusedFilename_lowest desired w) as (n & Hfind & Hfree & _).
    exists n. split; [done|]. subst trash desired.
    unfold RevA.deleteDiagram, bind, get_field, catch, BPMN_FILE_SUFFIX in H.
    cbv beta iota in H. rewrite (checkForDirectory_ok _ _ Hdir) in H.
    cbv beta iota in H. rewrite Hfind in H.
    unfold _rename, lift_write in H.
    destruct (Fs.rename _ _ _); by simplify_eq.
  - left. split; [done|]. subst trash desired.
    destruct (checkForDirectory_fails _ _ Hdir) as (e & He & _).
    rewrite (RevA_delete_rejected d w e) in H by (by rewrite He).
    by simplify_eq.
Qed.

(** A rename of a regular file onto a free file path changes two
    locations, the old and the new. *)
Lemma rename_to_free (t t' : Fs.tree) (old new : string) :
  Fs.is_dir t old = false → Fs.rename t old new = inr t' →
  Fs.existsSync t new = false →
  ∃ c, Fs.readFile t old = inr c ∧
       Fs.resolve t new = inr (Fs.components new) ∧
       Fs.wants_directory new = false ∧
       t !! Fs.components new = None ∧
       Fs.components old ≠ Fs.components new ∧
       t' = <[Fs.components new := Fs.File c]> (delete (Fs.components old) t).
Proof.
  intros Hnd Hren Hfree.
  destruct (rename_source_file _ _ _ _ Hnd Hren) as [c Hc].
  destruct (rename_file_target _ _ _ _ _ Hc Hren) as (Hreach & Hwd & _).
  pose proof (existsSync_false _ _ Hfree Hreach Hwd) as Hnone.
  exists c. do 4 (split; [done|]).
  pose proof Hc as (_ & _ & Hl)%readFile_lookup.
  destruct (rename_file_inv _ _ _ _ _ Hc Hren) as [[E _]|[E ->]]; [congruence|done].
Qed.

(** A rename from a path that does not exist fails, and with the same
    error for any two targets that can be walked to. *)
Lemma rename_missing (t : Fs.tree) (old new : string) :
  Fs.existsSync t old = false → ∃ e, Fs.rename t old new = inl e.
Proof.
  unfold Fs.existsSync, Fs.stat, Fs.rename.
  destruct (Fs.resolve t old) as [e|ko]; [by exists e|].
  destruct (Fs.resolve t new) as [e|kn]; [by exists e|].
  destruct (_ || _); [by eexists|].
  destruct (t !! ko) as [[c|]|]; [|done|by eexists].
  destruct (Fs.wants_directory old); [by eexists|done].
Qed.

Lemma rename_missing_alike (t : Fs.tree) (old new new' : string) :
  Fs.existsSync t old = false →
  Fs.resolve t new = inr (Fs.components new) →
  Fs.resolve t new' = inr (Fs.components new') →
  Fs.wants_directory new = false → Fs.wants_directory new' = false →
  Fs.rename t old new = Fs.rename t old new'.
Proof.
  intros Hmissing Hr Hr' Hw Hw'.
  unfold Fs.existsSync, Fs.stat in Hmissing. unfold Fs.rename.
  destruct (Fs.resolve t old) as [e|ko]; [done|]. rewrite Hr, Hr'.
  rewrite (ends_in_dots_wants _ Hw), (ends_in_dots_wants _ Hw').
  rewrite (bool_decide_eq_false_2 (Fs.components new = []))
    by by apply wants_directory_false_components.
  rewrite (bool_decide_eq_false_2 (Fs.components new' = []))
    by by apply wants_directory_false_components.
  destruct (_ || _); [done|].
  destruct (t !! ko) as [[c|]|]; [|done..].
  by destruct (Fs.wants_directory old).
Qed.

(** RevA's [deleteDiagram] of anything but a directory spares the rest:
    whatever it comes to, the store's fields are as before and every entry
    of the tree other than the diagram's own is still there, unchanged; no
    file of the trash folder is replaced. *)
Theorem RevA_deleteDiagram_spares_the_rest (d : IDiagram) (w w' : world)
    (r : result unit) :
  Fs.is_dir (disk w) (uri d) = false →
  RevA.deleteDiagram d w = (r, w') →
  this w' = this w ∧
  ∀ k v, k ≠ Fs.components (uri d) → disk w !! k = Some v → disk w' !! k = Some v.
Proof.
  intros Hnd H.
  apply RevA_delete_inv in H as [(_ & -> & _)|(_ & n & Hfree & H)]; [done|].
  destruct (Fs.rename _ _ _) as [e|t'] eqn:Hren; destruct H as [-> ->]; [done|].
  split; [done|]. intros k v Hk Hv. simpl.
  destruct (rename_to_free _ _ _ _ Hnd Hren Hfree)
    as (c & _ & _ & _ & Hnone & _ & ->).
  rewrite lookup_insert_ne by congruence. by rewrite lookup_delete_ne.
Qed.

Lemma RevA_deleteDiagram_spares_the_rest_witness :
  this Examples.world_deleted = this Examples.world0 ∧
  ∀ k v, k ≠ Fs.components (uri Examples.x_diagram) →
         disk Examples.world0 !! k = Some v →
         disk Examples.world_deleted !! k = Some v.
Proof.
  apply (RevA_deleteDiagram_spares_the_rest Examples.x_diagram Examples.world0
           Examples.world_deleted (Resolved tt)); by_evaluation.
Defined.

(** Deleting a diagram whose uri does not exist, with a trash folder in
    place: both revisions reject with the error of [fs.rename] as it is,
    none of the typed errors, and change nothing. *)
Theorem deleteDiagram_missing_source (d : IDiagram) (w : world) :
  Fs.is_dir (disk w) (_trashFolderLocation (this w)) = true →
  Fs.existsSync (disk w) (uri d) = false →
  ∃ e, RevA.deleteDiagram d w = (Rejected (SystemError e), w) ∧
       RevB.deleteDiagram d w = (Rejected (SystemError e), w).
Proof.
  intros Hdir Hmissing.
  set (desired := Path.join (_trashFolderLocation (this w)) (name d +:+ ".bpmn")).
  destruct (findUnusedFilename_lowest desired w) as (n & Hfind & Hfree & Hlow).
  destruct (TrashName.find_trash_name_run desired w)
    as (n' & _ & Hfree' & Hlow' & Hfind').
  assert (n' = n) as ->.
  { destruct (lt_eq_lt_dec n n') as [[Hlt|]|Hlt]; [|done|].
    - apply Hlow' in Hlt. congruence.
    - apply Hlow in Hlt. congruence. }
  destruct (rename_missing (disk w) (uri d) (candidate desired n) Hmissing)
    as [e He].
  assert (Fs.rename (disk w) (uri d)
            (candidate desired (match n with O => O | S _ => S n end)) = inl e)
    as He'.
  { destruct n as [|n]; [done|]. rewrite <- He.
    assert (Fs.is_dir (disk w) (Path.dirname desired) = true) as Hd.
    { apply Rename.exists_dirname_is_dir. apply (Hlow 0). lia. }
    destruct (candidate_file (_trashFolderLocation (this w)) (name d) (S (S n)))
      as (_ & Hw1 & _).
    destruct (candidate_file (_trashFolderLocation (this w)) (name d) (S n))
      as (_ & Hw2 & _).
    apply rename_missing_alike; try done; by apply candidate_reaches. }
  exists e. split.
  - unfold RevA.deleteDiagram, bind, get_field, catch, BPMN_FILE_SUFFIX.
    cbv beta iota. rewrite (checkForDirectory_ok _ _ Hdir).
    cbv beta iota. fold desired. rewrite Hfind.
    unfold _rename, lift_write. by rewrite He.
  - unfold RevB.deleteDiagram, bind, get_field, catch, BPMN_FILE_SUFFIX.
    cbv beta iota. rewrite (checkForDirectory_ok _ _ Hdir).
    cbv beta iota. fold desired. rewrite Hfind'.
    unfold _rename, lift_write. by rewrite He'.
Qed.

Lemma deleteDiagram_missing_source_witness :
  ∃ e, RevA.deleteDiagram (Diagram "gone" "/r/gone.bpmn" "" None) Examples.world0
       = (Rejected (SystemError e), Examples.world0) ∧
       RevB.deleteDiagram (Diagram "gone" "/r/gone.bpmn" "" None) Examples.world0
       = (Rejected (SystemError e), Examples.world0).
Proof.
  apply (deleteDiagram_missing_source (Diagram "gone" "/r/gone.bpmn" "" None)
           Examples.world0); by_evaluation.
Defined.

(** Once RevA's [deleteDiagram] has resolved for a diagram of the opened
    root, the diagram can no longer be read by its name: the read rejects
    with the error of [fs.readFile]. *)
Theorem deleted_diagram_is_gone (d : IDiagram) (w w' : world) (root : string) :
  _basePath (this w) = Some root →
  Path.join root (name d +:+ ".bpmn") = uri d →
  Fs.is_dir (disk w) (uri d) = false →
  RevA.deleteDiagram d w = (Resolved tt, w') →
  Fs.existsSync (disk w') (uri d) = false ∧
  ∃ e, getDiagramByName (name d) w' = (Rejected (SystemError e), w').
Proof.
  intros Hroot Huri Hnd H.
  apply RevA_delete_inv in H as [(_ & _ & ?)|(_ & n & Hfree & H)]; [done|].
  destruct (Fs.rename _ _ _) as [e|t'] eqn:Hren; destruct H as [Hr ->]; [done|].
  destruct (rename_to_free _ _ _ _ Hnd Hren Hfree)
    as (c & Hc & Hreach & Hwd & Hnone & Hk & ->).
  destruct (rename_file_moved _ _ _ _ Hc Hreach Hwd) as [Hgone _];
    [congruence|done|].
  split; [done|].
  unfold getDiagramByName, bind, get_field, path_join. cbv beta iota.
  cbn [this disk]. rewrite Hroot. unfold ret, _readFile, lift_read.
  cbv beta iota. rewrite Huri. cbn [this disk].
  unfold Fs.existsSync in Hgone. unfold Fs.readFile.
  destruct (Fs.stat _ (uri d)) as [e|]; [|done]. by exists e.
Qed.

Lemma deleted_diagram_is_gone_witness :
  Fs.existsSync (disk Examples.world_deleted) (uri Examples.x_diagram) = false ∧
  ∃ e, getDiagramByName (name Examples.x_diagram) Examples.world_deleted
       = (Rejected (SystemError e), Examples.world_deleted).
Proof.
  apply (deleted_diagram_is_gone Examples.x_diagram Examples.world0
           Examples.world_deleted "/r"); by_evaluation.
Defined.

End DeleteMore.

(** ** More on saveDiagram *)

Module SaveMore.
Import JS Shared Run JSFacts FsFacts PathFacts Save.

(** What a [saveDiagram] of RevB (and of RevC) comes to. *)
Lemma RevB_save_cases (d : IDiagram) (newPathSpec : option string) (w : world) :
  (∃ target, await (RevB.saveDiagram d newPathSpec) w = save_at target d w ∧
             target = default (uri d) newPathSpec) ∨
  (newPathSpec = None ∧
   ∃ e, await (RevB.saveDiagram d newPathSpec) w = (Rejected e, w) ∧
        (e = TypeError ∨ is_BadRequest e = true)).
Proof.
  destruct newPathSpec as [p|].
  - left. exists p. by rewrite RevB_save_newPath.
  - destruct (_basePath (this w)) as [root|] eqn:Hroot.
    + destruct (decide (Path.join root (name d +:+ ".bpmn") = uri d)) as [E|E].
      * left. exists (uri d). by rewrite (RevB_save_kept d w root).
      * right. split; [done|]. eexists. split.
        -- by apply (RevB_save_moved d w root).
        -- by right.
    + right. split; [done|]. exists TypeError. split; [|by left].
      unfold RevB.saveDiagram, await, bind, get_field, path_join.
      cbv beta iota. by rewrite Hroot.
Qed.

Lemma save_at_error (p : string) (d : IDiagram) (w w' : world) (e : error) :
  save_at p d w = (Rejected e, w') →
  (Fs.is_dir (disk w) (Path.dirname p) = false ∧
   (is_NotFound e = true ∨ is_BadRequest e = true)) ∨
  (Fs.is_dir (disk w) (Path.dirname p) = true ∧
   ∃ code, Fs.writeFile (disk w) p (xml d) = inl code ∧
           e = InternalServerError "Unable to save diagram." (SystemError code)).
Proof.
  destruct (Fs.is_dir (disk w) (Path.dirname p)) eqn:Hdir.
  - destruct (Fs.writeFile (disk w) p (xml d)) as [code|t'] eqn:Hw.
    + rewrite (save_at_write_fails _ _ _ _ Hdir Hw). intros [= <- _].
      right. eauto.
    + by rewrite (save_at_ok _ _ _ _ Hdir Hw).
  - intros H. left. split; [done|].
    unfold save_at, _checkWriteablity, bind in H.
    destruct (checkForDirectory_fails _ _ Hdir) as (e' & He & H1 & H2).
    rewrite He in H. injection H as <- _.
    destruct (Fs.existsSync (disk w) (Path.dirname p)); simpl in *; auto.
Qed.

(** A [saveDiagram] that rejects has written nothing, in every revision
    and with or without a newPath. *)
Theorem rejected_save_writes_nothing (d : IDiagram) (newPathSpec : option string)
    (w : world) :
  (∀ e w', await (RevA.saveDiagram d newPathSpec) w = (Rejected e, w') → w' = w) ∧
  (∀ e w', await (RevB.saveDiagram d newPathSpec) w = (Rejected e, w') → w' = w) ∧
  (∀ e w', await (RevC.saveDiagram d newPathSpec) w = (Rejected e, w') → w' = w).
Proof.
  assert (∀ e w', await (RevB.saveDiagram d newPathSpec) w = (Rejected e, w') →
                  w' = w) as HB.
  { intros e w'.
    destruct (RevB_save_cases d newPathSpec w) as [(t & -> & _)|(_ & e' & -> & _)].
    - apply save_at_rejected.
    - by intros [= _ <-]. }
  split; [|split; exact HB].
  intros e w'. rewrite RevA_save_run. apply save_at_rejected.
Qed.

(** No revision of [saveDiagram] lets an error of the file system through
    as it is: a rejection is NotFound or BadRequest from the checks, a
    TypeError when there is no root to compare with, or an
    InternalServerError; and a write that fails with [code] once the
    directory check has passed gives the InternalServerError that carries
    [code]. *)
Theorem save_wraps_write_errors (d : IDiagram) (newPathSpec : option string)
    (w : world) :
  (∀ e w' code,
     await (RevA.saveDiagram d newPathSpec) w = (Rejected e, w') ∨
     await (RevB.saveDiagram d newPathSpec) w = (Rejected e, w') ∨
     await (RevC.saveDiagram d newPathSpec) w = (Rejected e, w') →
     e ≠ SystemError code) ∧
  (∀ target code,
     newPathSpec = Some target →
     Fs.is_dir (disk w) (Path.dirname target) = true →
     Fs.writeFile (disk w) target (xml d) = inl code →
     let e := InternalServerError "Unable to save diagram." (SystemError code) in
     await (RevA.saveDiagram d newPathSpec) w = (Rejected e, w) ∧
     await (RevB.saveDiagram d newPathSpec) w = (Rejected e, w) ∧
     await (RevC.saveDiagram d newPathSpec) w = (Rejected e, w)).
Proof.
  split.
  - intros e w' code H.
    assert (∃ t, save_at t d w = (Rejected e, w') ∨
                 e = TypeError ∨ is_BadRequest e = true) as [t Ht].
    { destruct H as [H|[H|H]].
      - rewrite RevA_save_run in H. eauto.
      - destruct (RevB_save_cases d newPathSpec w)
          as [(t & E & _)|(_ & e' & E & He)].
        + rewrite E in H. eauto.
        + rewrite E in H. injection H as <- _. exists "". by right.
      - rewrite RevC_save_is_RevB in H.
        destruct (RevB_save_cases d newPathSpec w)
          as [(t & E & _)|(_ & e' & E & He)].
        + rewrite E in H. eauto.
        + rewrite E in H. injection H as <- _. exists "". by right. }
    destruct Ht as [Ht|[->|Ht]]; [|done|by destruct e].
    apply save_at_error in Ht as [(_ & [He|He])|(_ & c & _ & ->)];
      try done; by destruct e.
  - intros target code -> Hdir Hw e.
    pose proof (save_at_write_fails _ _ _ _ Hdir Hw) as Hsave.
    rewrite RevC_save_is_RevB, RevA_save_run, RevB_save_newPath. done.
Qed.

Lemma save_wraps_write_errors_witness :
  await (RevA.saveDiagram Examples.x_diagram (Some "/r")) Examples.world0
  = (Rejected (InternalServerError "Unable to save diagram." (SystemError Fs.EISDIR)),
     Examples.world0) ∧
  await (RevB.saveDiagram Examples.x_diagram (Some "/r")) Examples.world0
  = (Rejected (InternalServerError "Unable to save diagram." (SystemError Fs.EISDIR)),
     Examples.world0) ∧
  await (RevC.saveDiagram Examples.x_diagram (Some "/r")) Examples.world0
  = (Rejected (InternalServerError "Unable to save diagram." (SystemError Fs.EISDIR)),
     Examples.world0).
Proof.
  destruct (save_wraps_write_errors Examples.x_diagram (Some "/r") Examples.world0)
    as [_ H].
  apply (H "/r" Fs.EISDIR); by_evaluation.
Defined.

(** With the comparison passed or absent, the revisions save alike: for a
    diagram whose uri is join(root, name + '.bpmn'), and for any diagram
    when a newPath is given, the three [saveDiagram] come to the same
    outcome and the same world. *)
Theorem revisions_save_alike (d : IDiagram) (w : world) (root : string) :
  _basePath (this w) = Some root →
  (∀ newPath,
     await (RevA.saveDiagram d (Some newPath)) w
     = await (RevB.saveDiagram d (Some newPath)) w ∧
     await (RevB.saveDiagram d (Some newPath)) w
     = await (RevC.saveDiagram d (Some newPath)) w) ∧
  (Path.join root (name d +:+ ".bpmn") = uri d →
     await (RevA.saveDiagram d None) w = await (RevB.saveDiagram d None) w ∧
     await (RevB.saveDiagram d None) w = await (RevC.saveDiagram d None) w).
Proof.
  intros Hroot. split.
  - intros p. by rewrite RevC_save_is_RevB, RevA_save_run, RevB_save_newPath.
  - intros Huri.
    by rewrite RevC_save_is_RevB, RevA_save_run, (RevB_save_kept d w root).
Qed.

Lemma revisions_save_alike_witness :
  await (RevA.saveDiagram Examples.x_diagram None) Examples.world0
  = await (RevB.saveDiagram Examples.x_diagram None) Examples.world0 ∧
  await (RevB.saveDiagram Examples.x_diagram None) Examples.world0
  = await (RevC.saveDiagram Examples.x_diagram None) Examples.world0.
Proof.
  destruct (revisions_save_alike Examples.x_diagram Examples.world0 "/r")
    as [_ H]; [by_evaluation|].
  apply H. by_evaluation.
Defined.

(** What has been saved can be read back by name: once a [saveDiagram] of
    a diagram of the opened root has resolved, [getDiagramByName] resolves
    to that diagram's name, uri and xml, with the uri as id. *)
Theorem saved_diagram_reads_back (d : IDiagram) (w w' : world) (root : string) :
  _basePath (this w) = Some root →
  Path.join root (name d +:+ ".bpmn") = uri d →
  await (RevA.saveDiagram d None) w = (Resolved tt, w') ∨
  await (RevB.saveDiagram d None) w = (Resolved tt, w') ∨
  await (RevC.saveDiagram d None) w = (Resolved tt, w') →
  getDiagramByName (name d) w'
  = (Resolved (Diagram (name d) (uri d) (xml d) (Some (uri d))), w').
Proof.
  intros Hroot Huri H.
  assert (save_at (uri d) d w = (Resolved tt, w')) as Hsave.
  { rewrite RevC_save_is_RevB, RevA_save_run,
      (RevB_save_kept d w root Hroot Huri) in H. simpl in H. tauto. }
  apply save_at_resolved in Hsave as (_ & Hw & Hthis).
  apply writeFile_read in Hw.
  rewrite <- Huri.
  apply (Rename.getDiagramByName_run (name d) w' root (xml d)).
  - by rewrite Hthis.
  - by rewrite Huri.
Qed.

Lemma saved_diagram_reads_back_witness :
  getDiagramByName "x"
    (World (this Examples.world0) (Fs.mkfile ["r"; "x.bpmn"] "NEW" Examples.tree0))
  = (Resolved (Diagram "x" "/r/x.bpmn" "NEW" (Some "/r/x.bpmn")),
     World (this Examples.world0) (Fs.mkfile ["r"; "x.bpmn"] "NEW" Examples.tree0)).
Proof.
  apply (saved_diagram_reads_back (Diagram "x" "/r/x.bpmn" "NEW" None)
           Examples.world0 _ "/r"); [by_evaluation..|].
  right. left. by_evaluation.
Defined.



End SaveMore.

(** ** More on renameDiagram *)

Module RenameMore.
Import JS Shared Run JSFacts FsFacts PathFacts Rename.





(** The rename and the re-read that end [renameDiagram]. *)
Lemma rename_then_read (d : IDiagram) (y : string) (w w' : world) (root : string)
    (r : result IDiagram) :
  _basePath (this w) = Some root →
  Fs.is_dir (disk w) (uri d) = false →
  bind (_rename (uri d) (Path.join root (y +:+ ".bpmn")))
       (λ _, bind (getDiagramByName y) (λ renamedDiagram, ret renamedDiagram)) w
  = (r, w') →
  (w' = w ∧ ∃ code, r = Rejected (SystemError code)) ∨
  (∃ c, Fs.readFile (disk w) (uri d) = inr c ∧
        Fs.readFile (disk w') (Path.join root (y +:+ ".bpmn")) = inr c ∧
        this w' = this w ∧
        r = Resolved (Diagram y (Path.join root (y +:+ ".bpmn")) c
                        (Some (Path.join root (y +:+ ".bpmn"))))).
Proof.
  intros Hroot Hnd. unfold bind at 1, _rename, lift_write.
  destruct (Fs.rename (disk w) (uri d) _) as [code|t1] eqn:Hren.
  { intros [= <- <-]. left. eauto. }
  intros H. right.
  destruct (rename_source_file _ _ _ _ Hnd Hren) as [c Hc].
  destruct (rename_file_target _ _ _ _ _ Hc Hren) as (Hreach & Hwd & Hfile).
  assert (Fs.readFile t1 (Path.join root (y +:+ ".bpmn")) = inr c) as Hread.
  { pose proof Hc as (Ho & Hwo & Hl)%readFile_lookup.
    destruct (rename_file_inv _ _ _ _ _ Hc Hren) as [[E ->]|[E ->]].
    - apply readFile_iff. split; [done|]. split; [done|]. by rewrite <- E.
    - by apply rename_file_moved; auto. }
  exists c. unfold bind in H.
  rewrite (getDiagramByName_run y (World (this w) t1) root c Hroot Hread) in H.
  unfold ret in H. by injection H as <- <-.
Qed.

(** A [renameDiagram] of anything but a directory is all or nothing: when
    it rejects, the world is as before; when it resolves, the new path
    holds what the diagram's file held and that is the xml returned. *)
Theorem rename_all_or_nothing (d : IDiagram) (y : string) (w w' : world)
    (r : result IDiagram) :
  Fs.is_dir (disk w) (uri d) = false →
  RevA.renameDiagram d y w = (r, w') ∨ RevB.renameDiagram d y w = (r, w') →
  (w' = w ∧ is_Resolved r = false) ∨
  (∃ root c, _basePath (this w) = Some root ∧
             Fs.readFile (disk w) (uri d) = inr c ∧
             Fs.readFile (disk w') (Path.join root (y +:+ ".bpmn")) = inr c ∧
             this w' = this w ∧
             r = Resolved (Diagram y (Path.join root (y +:+ ".bpmn")) c
                             (Some (Path.join root (y +:+ ".bpmn"))))).
Proof.
  intros Hnd H.
  destruct (_basePath (this w)) as [root|] eqn:Hroot.
  2:{ left. destruct H as [H|H];
        unfold RevA.renameDiagram, RevB.renameDiagram, bind, get_field, path_join in H;
        cbv beta iota in H; rewrite Hroot in H; by injection H as <- <-. }
  destruct (Fs.is_dir (disk w) (Path.dirname (Path.join root (y +:+ ".bpmn"))))
    eqn:Hdir.
  2:{ left. destruct (checkForDirectory_fails _ _ Hdir) as (e & He & _).
      destruct H as [H|H];
        unfold RevA.renameDiagram, RevB.renameDiagram, bind, get_field, path_join,
          BPMN_FILE_SUFFIX, _checkWriteablity in H;
        cbv beta iota in H; rewrite Hroot in H; unfold ret at 1 in H;
        cbv beta iota in H; rewrite He in H; by injection H as <- <-. }
  assert (bind (_rename (uri d) (Path.join root (y +:+ ".bpmn")))
               (λ _, bind (getDiagramByName y) (λ rd, ret rd)) w = (r, w') ∨
          (w' = w ∧ is_Resolved r = false)) as [Hrest|Hthrown].
  { destruct H as [H|H].
    - unfold RevA.renameDiagram, bind at 1 2 3 4, get_field, path_join,
        BPMN_FILE_SUFFIX, _checkWriteablity, existsSync in H.
      cbv beta iota in H. rewrite Hroot in H. unfold ret at 1 in H.
      cbv beta iota in H. rewrite (checkForDirectory_ok _ _ Hdir) in H.
      cbv beta iota in H.
      destruct (_ && _); [right|by left].
      unfold throw in H. by injection H as <- <-.
    - unfold RevB.renameDiagram, bind at 1 2 3 4, get_field, path_join,
        BPMN_FILE_SUFFIX, _checkWriteablity, existsSync in H.
      cbv beta iota in H. rewrite Hroot in H. unfold ret at 1 in H.
      cbv beta iota in H. rewrite (checkForDirectory_ok _ _ Hdir) in H.
      cbv beta iota in H.
      destruct (Fs.existsSync _ _); [right|by left].
      unfold throw in H. by injection H as <- <-. }
  - destruct (rename_then_read d y w w' root r Hroot Hnd Hrest)
      as [(-> & code & ->)|(c & H1 & H2 & H3 & H4)].
    + by left.
    + right. exists root, c. done.
  - by left.
Qed.

Lemma rename_all_or_nothing_witness :
  (Examples.world0 = Examples.world0 ∧
   is_Resolved (@Rejected IDiagram (SystemError Fs.ENOENT)) = false) ∨
  (∃ root c, _basePath (this Examples.world0) = Some root ∧
             Fs.readFile (disk Examples.world0) "/r/gone.bpmn" = inr c ∧
             Fs.readFile (disk Examples.world0) (Path.join root ("y" +:+ ".bpmn"))
             = inr c ∧
             this Examples.world0 = this Examples.world0 ∧
             @Rejected IDiagram (SystemError Fs.ENOENT)
             = Resolved (Diagram "y" (Path.join root ("y" +:+ ".bpmn")) c
                           (Some (Path.join root ("y" +:+ ".bpmn"))))).
Proof.
  apply (rename_all_or_nothing (Diagram "gone" "/r/gone.bpmn" "" None) "y"
           Examples.world0 Examples.world0 (Rejected (SystemError Fs.ENOENT)));
    [by_evaluation|].
  left. by_evaluation.
Defined.

End RenameMore.

(** ** More on the reads *)

Module ReadMore.
Import JS Shared Run JSFacts FsFacts PathFacts Batch GetDiagrams.





(** [getDiagramByName] reads and nothing else: whatever it comes to, the
    world is as before; and when it rejects, it is with the TypeError of a
    store without root or with the error of [fs.readFile] as it is, not
    with one of the typed errors. *)
Theorem getDiagramByName_rejects_raw (n : string) (w w' : world)
    (r : result IDiagram) :
  getDiagramByName n w = (r, w') →
  w' = w ∧
  ∀ e, r = Rejected e →
       (e = TypeError ∧ _basePath (this w) = None) ∨
       (∃ root code, _basePath (this w) = Some root ∧
                     Fs.readFile (disk w) (Path.join root (n +:+ ".bpmn")) = inl code ∧
                     e = SystemError code).
Proof.
  unfold getDiagramByName, bind, get_field, path_join. cbv beta iota.
  destruct (_basePath (this w)) as [root|].
  - unfold ret, _readFile, lift_read. cbv beta iota.
    destruct (Fs.readFile (disk w) _) as [code|c] eqn:E.
    + intros [= <- <-]. split; [done|]. intros e [= <-]. right. eauto.
    + intros [= <- <-]. split; [done|]. by intros e.
  - intros [= <- <-]. split; [done|]. intros e [= <-]. by left.
Qed.

Lemma getDiagramByName_rejects_raw_witness :
  Examples.world0 = Examples.world0 ∧
  ∀ e, @Rejected IDiagram (SystemError Fs.ENOENT) = Rejected e →
       (e = TypeError ∧ _basePath (this Examples.world0) = None) ∨
       (∃ root code, _basePath (this Examples.world0) = Some root ∧
                     Fs.readFile (disk Examples.world0)
                       (Path.join root ("gone" +:+ ".bpmn")) = inl code ∧
                     e = SystemError code).
Proof.
  apply (getDiagramByName_rejects_raw "gone" Examples.world0 Examples.world0
           (Rejected (SystemError Fs.ENOENT))).
  by_evaluation.
Defined.

Lemma getDiagrams_with_rejections (sch : schedule) (nameOf : string → string)
    (w : world) (e : error) :
  fst (getDiagrams_with sch nameOf w) = Rejected e →
  e = TypeError ∨ ∃ code, e = SystemError code.
Proof.
  destruct (_basePath (this w)) as [root|] eqn:Hroot.
  - destruct (Fs.readdir (disk w) root) as [code|files] eqn:Hfiles.
    + unfold getDiagrams_with, bind, get_field. cbv beta iota.
      rewrite Hroot. unfold _readDirectory, lift_read. rewrite Hfiles.
      intros [= <-]. right. eauto.
    + destruct (getDiagrams_with_run sch nameOf _ _ _ Hroot Hfiles)
        as [(ds & _ & ->)|(f & e' & _ & He & ->)]; [done|].
      intros [= <-]. right.
      unfold read_one in He. destruct (Fs.readFile _ _); [|done].
      injection He as <-. eauto.
  - unfold getDiagrams_with, bind, get_field. cbv beta iota.
    rewrite Hroot. intros [= <-]. by left.
Qed.

(** [getDiagrams] reads and nothing else, in every revision and whatever
    the order in which the reads come back: the world is as before whatever
    it comes to; and it rejects only with a TypeError (no root) or with an
    error of [fs.readdir] or [fs.readFile] as it is. *)
Theorem getDiagrams_read_only (sch : schedule) (w : world) :
  (snd (RevA.getDiagrams sch w) = w ∧
   snd (RevB.getDiagrams sch w) = w ∧
   snd (RevC.getDiagrams sch w) = w) ∧
  ∀ e, fst (RevA.getDiagrams sch w) = Rejected e ∨
       fst (RevB.getDiagrams sch w) = Rejected e ∨
       fst (RevC.getDiagrams sch w) = Rejected e →
       e = TypeError ∨ ∃ code, e = SystemError code.
Proof.
  split.
  - repeat split; apply getDiagrams_with_keeps_world.
  - intros e [H|[H|H]]; by apply getDiagrams_with_rejections in H.
Qed.

(** On a store that has not been opened, the reads and the renames reject
    with a TypeError and change nothing, and so do the saves of RevB and
    RevC that get no newPath. *)
Theorem unopened_store_rejects (sch : schedule) (w : world) (d : IDiagram)
    (n : string) :
  _basePath (this w) = None →
  RevA.getDiagrams sch w = (Rejected TypeError, w) ∧
  RevB.getDiagrams sch w = (Rejected TypeError, w) ∧
  RevC.getDiagrams sch w = (Rejected TypeError, w) ∧
  getDiagramByName n w = (Rejected TypeError, w) ∧
  RevA.renameDiagram d n w = (Rejected TypeError, w) ∧
  RevB.renameDiagram d n w = (Rejected TypeError, w) ∧
  await (RevB.saveDiagram d None) w = (Rejected TypeError, w) ∧
  await (RevC.saveDiagram d None) w = (Rejected TypeError, w).
Proof.
  intros Hroot.
  assert (∀ nameOf, getDiagrams_with sch nameOf w = (Rejected TypeError, w)) as Hget.
  { intros nameOf. unfold getDiagrams_with, bind, get_field. cbv beta iota.
    by rewrite Hroot. }
  repeat split; try apply Hget.
  - unfold getDiagramByName, bind, get_field, path_join. cbv beta iota.
    by rewrite Hroot.
  - unfold RevA.renameDiagram, bind, get_field, path_join. cbv beta iota.
    by rewrite Hroot.
  - unfold RevB.renameDiagram, bind, get_field, path_join. cbv beta iota.
    by rewrite Hroot.
  - unfold RevB.saveDiagram, await, bind, get_field, path_join. cbv beta iota.
    by rewrite Hroot.
  - unfold RevC.saveDiagram, await, bind, get_field, path_join. cbv beta iota.
    by rewrite Hroot.
Qed.

Lemma unopened_store_rejects_witness :
  RevA.getDiagrams (Schedule [] 0) Examples.world_new
  = (Rejected TypeError, Examples.world_new) ∧
  RevB.getDiagrams (Schedule [] 0) Examples.world_new
  = (Rejected TypeError, Examples.world_new) ∧
  RevC.getDiagrams (Schedule [] 0) Examples.world_new
  = (Rejected TypeError, Examples.world_new) ∧
  getDiagramByName "x" Examples.world_new = (Rejected TypeError, Examples.world_new) ∧
  RevA.renameDiagram Examples.x_diagram "x" Examples.world_new
  = (Rejected TypeError, Examples.world_new) ∧
  RevB.renameDiagram Examples.x_diagram "x" Examples.world_new
  = (Rejected TypeError, Examples.world_new) ∧
  await (RevB.saveDiagram Examples.x_diagram None) Examples.world_new
  = (Rejected TypeError, Examples.world_new) ∧
  await (RevC.saveDiagram Examples.x_diagram None) Examples.world_new
  = (Rejected TypeError, Examples.world_new).
Proof.
  apply (unopened_store_rejects (Schedule [] 0) Examples.world_new
           Examples.x_diagram "x").
  by_evaluation.
Defined.

Lemma names_distinct (suffix : string) (files : list string) (ds : list IDiagram)
    (P : string → IDiagram → Prop) :
  NoDup files →
  Forall2 (λ file d, file = name d +:+ suffix ∧ P file d) files ds →
  NoDup (name <$> ds).
Proof.
  intros Hnd Hall.
  assert (files = (λ d, name d +:+ suffix) <$> ds) as ->.
  { induction Hall as [|f d fs ds' [-> _] _ IH]; [done|].
    simpl. f_equal. apply IH. by inversion Hnd. }
  apply (NoDup_fmap_1 (λ s, s +:+ suffix)).
  by rewrite <- list_fmap_compose.
Qed.

(** No two diagrams of a listing have the same name: what [getDiagrams]
    resolves to has pairwise distinct names (for RevA and RevB, on a
    well-formed tree). *)
Theorem listed_names_distinct (sch : schedule) (w w' : world)
    (ds : list IDiagram) :
  (RevC.getDiagrams sch w = (Resolved ds, w') → NoDup (name <$> ds)) ∧
  (Fs.wf (disk w) = true →
   RevA.getDiagrams sch w = (Resolved ds, w') ∨
   RevB.getDiagrams sch w = (Resolved ds, w') →
   NoDup (name <$> ds)).
Proof.
  assert (∀ nameOf,
            (∀ root files, _basePath (this w) = Some root →
               Fs.readdir (disk w) root = inr files →
               lists_bpmn_files (getDiagrams_with sch nameOf) w root files) →
            getDiagrams_with sch nameOf w = (Resolved ds, w') →
            NoDup (name <$> ds)) as Hcore.
  { intros nameOf Hlists H.
    destruct (_basePath (this w)) as [root|] eqn:Hroot.
    2:{ unfold getDiagrams_with, bind, get_field in H. cbv beta iota in H.
        by rewrite Hroot in H. }
    destruct (Fs.readdir (disk w) root) as [code|files] eqn:Hfiles.
    { unfold getDiagrams_with, bind, get_field in H. cbv beta iota in H.
      rewrite Hroot in H. unfold _readDirectory, lift_read in H.
      by rewrite Hfiles in H. }
    destruct (Hlists root files eq_refl Hfiles) as (_ & Hall & _).
    destruct (readdir_entries _ _ _ Hfiles) as (Hnd & _).
    eapply names_distinct; [|apply Hall; by rewrite H].
    apply NoDup_ListNoDup, List.NoDup_filter. by apply NoDup_ListNoDup. }
  split.
  - apply Hcore. intros root files Hroot Hfiles.
    destruct (getDiagrams_lists_bpmn_files_general sch w root files Hroot Hfiles)
      as [HC _]. exact HC.
  - intros Hwf H.
    assert (RevA.getDiagrams sch w = (Resolved ds, w')) as HA by tauto.
    revert HA. apply Hcore. intros root files Hroot Hfiles.
    destruct (getDiagrams_lists_bpmn_files_general sch w root files Hroot Hfiles)
      as [_ HAB]. by apply HAB.
Qed.

(** /r holds x.bpmn and X.bpmn: the listing has the two diagrams, under
    two names. *)
Lemma listed_names_distinct_witness :
  RevA.getDiagrams (Schedule [1] 1) Examples.world_caps
  = (Resolved [Diagram "x" "/r/x.bpmn" "A" None;
               Diagram "X" "/r/X.bpmn" "other" None], Examples.world_caps) ∧
  NoDup (name <$> [Diagram "x" "/r/x.bpmn" "A" None;
                   Diagram "X" "/r/X.bpmn" "other" None]).
Proof.
  assert (RevA.getDiagrams (Schedule [1] 1) Examples.world_caps
          = (Resolved [Diagram "x" "/r/x.bpmn" "A" None;
                       Diagram "X" "/r/X.bpmn" "other" None], Examples.world_caps))
    as Hrun by by_evaluation.
  split; [exact Hrun|].
  destruct (listed_names_distinct (Schedule [1] 1) Examples.world_caps
              Examples.world_caps
              [Diagram "x" "/r/x.bpmn" "A" None;
               Diagram "X" "/r/X.bpmn" "other" None]) as [_ H].
  apply H; [by_evaluation|]. left. exact Hrun.
Defined.



End ReadMore.

(** ** saveSingleDiagram *)

Module SaveSingle.
Import JS Shared Run FsFacts Save.



End SaveSingle.

(** ** More on saveSolution *)

Module SaveSolutionMore.
Import JS Shared Run FsFacts Batch Save SaveSolution.

Lemma saveSolution_with_in_place
    (saveDiagram : IDiagram → option string → Async unit) (sch : schedule)
    (s : ISolution) (w : world) :
  (∀ d w0, ∃ p, saveDiagram d None w0 = (p, w0) ∧ started_save p d) →
  this (at_settle (saveSolution_with saveDiagram sch s None w)) = this w ∧
  this (at_rest (saveSolution_with saveDiagram sch s None w)) = this w ∧
  (∀ k, (∀ d, d ∈ diagrams s → Fs.components (uri d) ≠ k) →
        disk (at_settle (saveSolution_with saveDiagram sch s None w)) !! k
        = disk w !! k ∧
        disk (at_rest (saveSolution_with saveDiagram sch s None w)) !! k
        = disk w !! k) ∧
  (diagrams s = [] →
   saveSolution_with saveDiagram sch s None w = Settled (Resolved tt) w w).
Proof.
  intros Hstarts. rewrite saveSolution_with_run.
  destruct (Promise_all_saves saveDiagram Hstarts w (diagrams s) sch)
    as (H1 & H2 & _ & _ & _ & H6 & H7).
  cbn [outcome at_settle at_rest].
  split; [done|]. split; [done|]. split.
  - intros k Hk. split.
    + destruct (H7 k) as [?|(d & Hd & _ & Hc & _)]; [done|].
      by destruct (Hk d Hd).
    + destruct (H6 k) as [?|(d & Hd & _ & Hc & _)]; [done|].
      by destruct (Hk d Hd).
  - intros Hnil. by rewrite Hnil.
Qed.

(** [saveSolution] without a new root leaves the store's fields alone,
    and every location that is no diagram's uri as it was, whether it
    resolves or rejects, both when the call settles and when the writes
    have come to rest, whatever the schedule; with no diagrams it resolves
    and changes nothing. *)
Theorem saveSolution_in_place (sch : schedule) (s : ISolution) (w : world) :
  (this (at_settle (RevA.saveSolution sch s None w)) = this w ∧
   this (at_rest (RevA.saveSolution sch s None w)) = this w ∧
   (∀ k, (∀ d, d ∈ diagrams s → Fs.components (uri d) ≠ k) →
         disk (at_settle (RevA.saveSolution sch s None w)) !! k = disk w !! k ∧
         disk (at_rest (RevA.saveSolution sch s None w)) !! k = disk w !! k) ∧
   (diagrams s = [] →
    RevA.saveSolution sch s None w = Settled (Resolved tt) w w)) ∧
  (this (at_settle (RevB.saveSolution sch s None w)) = this w ∧
   this (at_rest (RevB.saveSolution sch s None w)) = this w ∧
   (∀ k, (∀ d, d ∈ diagrams s → Fs.components (uri d) ≠ k) →
         disk (at_settle (RevB.saveSolution sch s None w)) !! k = disk w !! k ∧
         disk (at_rest (RevB.saveSolution sch s None w)) !! k = disk w !! k) ∧
   (diagrams s = [] →
    RevB.saveSolution sch s None w = Settled (Resolved tt) w w)) ∧
  (this (at_settle (RevC.saveSolution sch s None w)) = this w ∧
   this (at_rest (RevC.saveSolution sch s None w)) = this w ∧
   (∀ k, (∀ d, d ∈ diagrams s → Fs.components (uri d) ≠ k) →
         disk (at_settle (RevC.saveSolution sch s None w)) !! k = disk w !! k ∧
         disk (at_rest (RevC.saveSolution sch s None w)) !! k = disk w !! k) ∧
   (diagrams s = [] →
    RevC.saveSolution sch s None w = Settled (Resolved tt) w w)).
Proof.
  split; [|split].
  - apply saveSolution_with_in_place, RevA_save_starts.
  - apply saveSolution_with_in_place, RevB_save_starts.
  - apply saveSolution_with_in_place, RevB_save_starts.
Qed.

(** In RevB and RevC a solution cannot be saved into another root: when
    [newRoot] is a directory and some diagram's uri is not
    join(newRoot, name + '.bpmn'), [saveSolution(s, newRoot)] rejects,
    whatever the schedule; and it has switched the store to the new root
    all the same. *)
Theorem saveSolution_to_another_root_rejects (sch : schedule) (s : ISolution)
    (newRoot : string) (d : IDiagram) (w : world) :
  Fs.is_dir (disk w) newRoot = true →
  d ∈ diagrams s →
  Path.join newRoot (name d +:+ ".bpmn") ≠ uri d →
  ∃ e, outcome (RevB.saveSolution sch s (Some newRoot) w) = Rejected e ∧
       outcome (RevC.saveSolution sch s (Some newRoot) w) = Rejected e ∧
       _basePath (this (at_settle (RevB.saveSolution sch s (Some newRoot) w)))
       = Some newRoot ∧
       _basePath (this (at_rest (RevB.saveSolution sch s (Some newRoot) w)))
       = Some newRoot ∧
       _basePath (this (at_settle (RevC.saveSolution sch s (Some newRoot) w)))
       = Some newRoot ∧
       _basePath (this (at_rest (RevC.saveSolution sch s (Some newRoot) w)))
       = Some newRoot.
Proof.
  intros Hdir Hd Hmoved.
  change (RevC.saveSolution sch s (Some newRoot) w)
    with (RevB.saveSolution sch s (Some newRoot) w).
  unfold RevB.saveSolution.
  rewrite (saveSolution_with_reopened _ _ _ _ _ Hdir), saveSolution_with_run.
  set (w1 := World (Repository (_trashFolderLocation (this w)) (Some newRoot)
                      (_identity (this w))) (disk w)).
  destruct (Promise_all_saves RevB.saveDiagram RevB_save_starts w1 (diagrams s) sch)
    as (H1 & H2 & H3 & _).
  cbn [outcome at_settle at_rest]. rewrite H1, H2.
  assert (fst (await (RevB.saveDiagram d None) w1) ≠ Resolved tt) as Hfails.
  { unfold await, RevB.saveDiagram, bind, get_field, path_join. cbv beta iota.
    cbn [this w1 _basePath]. unfold ret. cbv beta iota.
    by rewrite bool_decide_eq_true_2. }
  destruct (outcome (Promise_all sch _ w1)) as [l|e] eqn:Ho.
  - destruct Hfails. by apply H3.
  - by exists e.
Qed.

(** The diagram x of /r saved with /trash as the new root. *)
Lemma saveSolution_to_another_root_rejects_witness :
  ∃ e, outcome (RevB.saveSolution Examples.last_first (Solution [Examples.x_diagram])
                  (Some "/trash") Examples.world0) = Rejected e ∧
       outcome (RevC.saveSolution Examples.last_first (Solution [Examples.x_diagram])
                  (Some "/trash") Examples.world0) = Rejected e ∧
       _basePath (this (at_settle (RevB.saveSolution Examples.last_first
                                     (Solution [Examples.x_diagram])
                                     (Some "/trash") Examples.world0)))
       = Some "/trash" ∧
       _basePath (this (at_rest (RevB.saveSolution Examples.last_first
                                   (Solution [Examples.x_diagram])
                                   (Some "/trash") Examples.world0)))
       = Some "/trash" ∧
       _basePath (this (at_settle (RevC.saveSolution Examples.last_first
                                     (Solution [Examples.x_diagram])
                                     (Some "/trash") Examples.world0)))
       = Some "/trash" ∧
       _basePath (this (at_rest (RevC.saveSolution Examples.last_first
                                   (Solution [Examples.x_diagram])
                                   (Some "/trash") Examples.world0)))
       = Some "/trash".
Proof.
  apply (saveSolution_to_another_root_rejects Examples.last_first
           (Solution [Examples.x_diagram]) "/trash" Examples.x_diagram
           Examples.world0).
  - by_evaluation.
  - simpl. left.
  - by_evaluation.
Defined.

End SaveSolutionMore.

(** ** Paths that step back *)

Module Walked.
Import JS Shared Run.

(** The file system walks every component of a path: a path that steps
    back over a directory that does not exist, or over a regular file, is
    not found, although the path it would normalize to exists. *)
Example every_component_is_walked :
  Fs.is_dir Examples.tree0 "/r/../trash/." = true ∧
  Fs.stat Examples.tree0 "/nowhere/../r" = inl Fs.ENOENT ∧
  Fs.is_dir Examples.tree0 "/r/nowhere/.." = false ∧
  Fs.readFile Examples.tree0 "/r/b.txt/../x.bpmn" = inl Fs.ENOTDIR ∧
  Fs.writeFile Examples.tree0 "/r/b.txt/" "data" = inl Fs.EISDIR.
Proof. by_evaluation. Qed.

(** The methods on such paths: the checks reject them and nothing is
    opened, written or moved. *)
Example methods_on_paths_that_step_back :
  openPath "/nowhere/../r" (Some Examples.alice) Examples.world_new
  = (Rejected (NotFoundError "'/nowhere/../r' does not exist."),
     Examples.world_new) ∧
  await (RevA.saveDiagram Examples.x_diagram (Some "/r/nowhere/../x.bpmn"))
    Examples.world0
  = (Rejected (NotFoundError "'/r/nowhere/..' does not exist."), Examples.world0) ∧
  await (RevB.saveDiagram Examples.x_diagram (Some "/r/b.txt/")) Examples.world0
  = (Rejected (InternalServerError "Unable to save diagram."
                 (SystemError Fs.EISDIR)), Examples.world0) ∧
  RevA.deleteDiagram Examples.x_diagram
    (World (Repository "/nowhere/../trash" (Some "/r") (Some Examples.alice))
       Examples.tree0)
  = (Rejected (BadRequestError "Trash folder is not writeable."),
     World (Repository "/nowhere/../trash" (Some "/r") (Some Examples.alice))
       Examples.tree0) ∧
  RevA.renameDiagram (Diagram "x" "/r/b.txt/../x.bpmn" "A" None) "y" Examples.world0
  = (Rejected (SystemError Fs.ENOTDIR), Examples.world0) ∧
  RevB.saveSolution Examples.last_first (Solution [Examples.x_diagram])
    (Some "/nowhere/../trash") Examples.world0
  = Settled (Rejected (NotFoundError "'/nowhere/../trash' does not exist."))
      Examples.world0 Examples.world0 ∧
  RevB.saveSingleDiagram Examples.last_first Examples.x_diagram Examples.alice
    (Some "/r/nowhere/../x.bpmn") Examples.world0
  = Settled (Rejected (NotFoundError "'/r/nowhere/..' does not exist."))
      Examples.world0 Examples.world0.
Proof. by_evaluation. Qed.

End Walked.

(** ** Deleting and putting back *)

Module Restore.
Import JS Shared Run JSFacts FsFacts PathFacts Save Unused Delete.

(** With the desired trash name free, or without a trash folder, the two
    revisions of [deleteDiagram] do the same: the loop of RevB goes wrong
    only once it has to count. *)
Theorem deleteDiagram_revisions_agree (d : IDiagram) (w : world) :
  Fs.existsSync (disk w)
    (Path.join (_trashFolderLocation (this w)) (name d +:+ ".bpmn")) = false →
  RevB.deleteDiagram d w = RevA.deleteDiagram d w.
Proof.
  intros Hfree.
  destruct (Fs.is_dir (disk w) (_trashFolderLocation (this w))) eqn:Hdir.
  - unfold RevB.deleteDiagram, RevA.deleteDiagram, bind, get_field, catch,
      BPMN_FILE_SUFFIX.
    cbv beta iota. rewrite (checkForDirectory_ok _ _ Hdir). cbv beta iota.
    unfold RevB.find_trash_name, RevA._findUnusedFilename.
    replace (size (disk w) + 3) with (S (size (disk w) + 2)) by lia.
    replace (size (disk w) + 2) with (S (size (disk w) + 1)) at 2 by lia.
    cbn [RevB.trash_loop RevA.findUnused_loop]. by rewrite Hfree.
  - destruct (checkForDirectory_fails _ _ Hdir) as (e & He & _).
    rewrite (RevA_delete_rejected d w e), (RevB_delete_rejected d w e);
      by rewrite ?He.
Qed.

Lemma deleteDiagram_revisions_agree_witness :
  RevB.deleteDiagram (Diagram "y" "/r/x.bpmn" "A" None) Examples.world0
  = RevA.deleteDiagram (Diagram "y" "/r/x.bpmn" "A" None) Examples.world0.
Proof.
  apply (deleteDiagram_revisions_agree (Diagram "y" "/r/x.bpmn" "A" None)
           Examples.world0).
  by_evaluation.
Defined.

(** A deleted diagram can be put back by saving it: after RevA's
    [deleteDiagram] of a diagram of the opened root, stored with its xml,
    [saveDiagram] of the same diagram resolves in every revision, and the
    tree is then the one from before the delete with the copy in the
    trash folder added, under a name that was free. *)
Theorem delete_then_save_restores (d : IDiagram) (w w1 : world) (root : string) :
  _basePath (this w) = Some root →
  has_slash (name d) = false →
  Path.join root (name d +:+ ".bpmn") = uri d →
  Fs.is_dir (disk w) root = true →
  Fs.readFile (disk w) (uri d) = inr (xml d) →
  RevA.deleteDiagram d w = (Resolved tt, w1) →
  ∃ w2 n,
    await (RevA.saveDiagram d None) w1 = (Resolved tt, w2) ∧
    await (RevB.saveDiagram d None) w1 = (Resolved tt, w2) ∧
    await (RevC.saveDiagram d None) w1 = (Resolved tt, w2) ∧
    this w2 = this w ∧
    let copy := candidate (Path.join (_trashFolderLocation (this w))
                             (name d +:+ ".bpmn")) n in
    Fs.existsSync (disk w) copy = false ∧
    disk w2 = <[Fs.components copy := Fs.File (xml d)]> (disk w).
Proof.
  intros Hbase Hname Huri Hroot Hread Hdel.
  pose proof (readFile_not_dir _ _ _ Hread) as Hnd.
  apply DeleteMore.RevA_delete_inv in Hdel as [(_ & _ & ?)|(_ & n & Hfree & H)];
    [done|].
  destruct (Fs.rename _ _ _) as [e|t1] eqn:Hren; destruct H as [Hr ->]; [done|].
  destruct (DeleteMore.rename_to_free _ _ _ _ Hnd Hren Hfree)
    as (c & Hc & _ & _ & Hnone & Hk & ->).
  assert (c = xml d) as -> by congruence.
  apply readFile_iff in Hread as (Hreach & Huwd & Hl).
  set (ko := Fs.components (uri d)) in *.
  set (kn := Fs.components (candidate _ n)) in *.
  set (t1 := <[kn := Fs.File (xml d)]> (delete ko (disk w))).
  assert (Fs.same_dirs (disk w) t1) as Hsame.
  { eapply same_dirs_trans.
    - apply (same_dirs_delete_file (disk w) ko). congruence.
    - apply same_dirs_insert_file. rewrite lookup_delete_ne by done. congruence. }
  assert (Fs.is_dir t1 (Path.dirname (uri d)) = true) as Hdir.
  { rewrite (is_dir_same_dirs _ _ _ Hsame), <- Huri.
    by apply Rename.is_dir_join_dirname. }
  assert (Fs.writeFile t1 (uri d) (xml d)
          = inr (<[kn := Fs.File (xml d)]> (disk w))) as Hw.
  { assert (t1 !! ko = None) as Hgone.
    { unfold t1. rewrite lookup_insert_ne by done. apply lookup_delete_eq. }
    rewrite (writeFile_ok t1 (uri d) (xml d));
      [|by apply (resolve_same_dirs (disk w))|done|fold ko; congruence].
    f_equal. fold ko. unfold t1.
    rewrite insert_insert_ne by done.
    rewrite insert_delete_eq. by rewrite (insert_id (disk w) ko). }
  set (w1 := World (this w) t1).
  exists (World (this w) (<[kn := Fs.File (xml d)]> (disk w))), n.
  rewrite RevC_save_is_RevB, RevA_save_run,
    (RevB_save_kept d w1 root Hbase Huri). cbn [default].
  rewrite (save_at_ok (uri d) d w1 _ Hdir Hw).
  by repeat split.
Qed.

Lemma delete_then_save_restores_witness :
  ∃ w2 n,
    await (RevA.saveDiagram Examples.x_diagram None) Examples.world_deleted
    = (Resolved tt, w2) ∧
    await (RevB.saveDiagram Examples.x_diagram None) Examples.world_deleted
    = (Resolved tt, w2) ∧
    await (RevC.saveDiagram Examples.x_diagram None) Examples.world_deleted
    = (Resolved tt, w2) ∧
    this w2 = this Examples.world0 ∧
    let copy := candidate (Path.join (_trashFolderLocation (this Examples.world0))
                             (name Examples.x_diagram +:+ ".bpmn")) n in
    Fs.existsSync (disk Examples.world0) copy = false ∧
    disk w2 = <[Fs.components copy := Fs.File (xml Examples.x_diagram)]>
                (disk Examples.world0).
Proof.
  apply (delete_then_save_restores Examples.x_diagram Examples.world0
           Examples.world_deleted "/r"); by_evaluation.
Defined.

End Restore.
